(** * Scoring and reward computation of the prediction competition

    A shallow embedding of [lib/scoring.py] and the properties of its
    specification.

    Approximate values (Python [float], numpy [float64]) are IEEE 754
    binary64 numbers, modelled with the executable specification
    [SpecFloat] of the Standard Library at precision 53 and maximal
    exponent 1024.  Exact values ([decimal.Decimal]) are sign, coefficient
    and exponent triples computed under the default context of Python's
    [decimal] module: 28 significant digits, ROUND_HALF_EVEN, exponents
    between -999999 and 999999, traps on InvalidOperation, DivisionByZero
    and Overflow.  A raised exception is an [Err] result. *)

From Stdlib Require Import String ZArith List Bool Lia Floats.SpecFloat
  Sorting.Permutation.
Import ListNotations.
Local Open Scope Z_scope.

(** ** Exceptions and results *)

Inductive exn : Type :=
| LookupError
| InvalidOperation
| DivisionByZero
| Overflow
| ValueError.

Inductive result (A : Type) : Type :=
| Ok (a : A)
| Err (e : exn).
Arguments Ok {A} a.
Arguments Err {A} e.

Definition bind {A B : Type} (r : result A) (k : A -> result B) : result B :=
  match r with
  | Ok a => k a
  | Err e => Err e
  end.

Notation "x <- r ;; k" := (bind r (fun x => k))
  (at level 61, r at next level, right associativity).

Fixpoint mapM {A B : Type} (f : A -> result B) (l : list A) : result (list B) :=
  match l with
  | [] => Ok []
  | a :: t => b <- f a ;; bs <- mapM f t ;; Ok (b :: bs)
  end.

(** ** Binary64 arithmetic *)

Module F64.

Definition prec : Z := 53.
Definition emax : Z := 1024.

Definition t : Type := spec_float.

Definition nan : t := S754_nan.
Definition zero : t := S754_zero false.

Definition add : t -> t -> t := SFadd prec emax.
Definition sub : t -> t -> t := SFsub prec emax.
Definition mul : t -> t -> t := SFmul prec emax.
Definition div : t -> t -> t := SFdiv prec emax.
Definition sqrt : t -> t := SFsqrt prec emax.

Definition eqb : t -> t -> bool := SFeqb.
Definition ltb : t -> t -> bool := SFltb.
Definition leb : t -> t -> bool := SFleb.

(** Conversion of a Python [int], rounded to nearest even. *)
Definition of_Z (z : Z) : t := binary_normalize prec emax z 0 false.

(** [m * 2^e], rounded to nearest even. *)
Definition of_scaled (m e : Z) : t := binary_normalize prec emax m e false.

Definition one : t := of_Z 1.

(** The literal [0.1]: the binary64 number nearest to one tenth. *)
Definition tenth : t := S754_finite false 7205759403792794 (-56).

(** [math.isnan], [np.isnan] *)
Definition is_nan (x : t) : bool :=
  match x with
  | S754_nan => true
  | _ => false
  end.

(** [np.isfinite] *)
Definition is_finite (x : t) : bool :=
  match x with
  | S754_zero _ | S754_finite _ _ _ => true
  | _ => false
  end.

Definition valid (x : t) : bool := valid_binary prec emax x.

(** Python's [max(x, y)] of two arguments keeps [x] unless [y > x]. *)
Definition pymax (x y : t) : t := if ltb x y then y else x.

(** Sum of a short array, left to right from [0.0]. *)
Definition sum (l : list t) : t := fold_left add l zero.

End F64.

Abbreviation f64 := F64.t.

(** ** Decimal arithmetic under the default context

    The operations follow Python's [decimal] module: the exact result of
    an operation is computed on the integer coefficients and [fix] rounds
    it to the context.  A coefficient is a non-negative integer, the
    digit string of the Python object; [ndigits] is the length of that
    string. *)

Module Dec.

Definition prec : Z := 28.
Definition Emax : Z := 999999.
Definition Emin : Z := -999999.
Definition Etiny : Z := Emin - prec + 1.
Definition Etop : Z := Emax - prec + 1.

(** Finite numbers [(-1)^s * c * 10^e], infinities and the quiet NaN.
    Signaling NaNs and NaN payloads are not modelled. *)
Inductive t : Type :=
| Fin (s : bool) (c : Z) (e : Z)
| Inf (s : bool)
| NaN.

Inductive rounding : Type := ROUND_DOWN | ROUND_HALF_EVEN.

Fixpoint ndigits_aux (fuel : nat) (c : Z) : Z :=
  match fuel with
  | O => 1
  | S f => if c <? 10 then 1 else 1 + ndigits_aux f (c / 10)
  end.

(** [len(self._int)] *)
Definition ndigits (c : Z) : Z := ndigits_aux (Z.to_nat (Z.log2 c)) c.

(** [Decimal(i)] of an [int] *)
Definition of_Z (i : Z) : t := Fin (i <? 0) (Z.abs i) 0.

Definition zero : t := of_Z 0.

(** [bool(d)]: zero is the only false value. *)
Definition nonzero (d : t) : bool :=
  match d with
  | Fin _ c _ => negb (c =? 0)
  | _ => true
  end.

(** Whether dropping the last [k] digits of [c] increments the kept
    prefix: [_round_down] never does, [_round_half_even] does above the
    half and at the half of an odd prefix. *)
Definition round_up (r : rounding) (c k : Z) : bool :=
  match r with
  | ROUND_DOWN => false
  | ROUND_HALF_EVEN =>
      let q := c / 10 ^ k in
      let rest := c mod 10 ^ k in
      (10 ^ k <? 2 * rest) || ((2 * rest =? 10 ^ k) && Z.odd q)
  end.

(** [_fix] on a finite number *)
Definition _fix (s : bool) (c e : Z) : result t :=
  if c =? 0 then Ok (Fin s 0 (Z.min (Z.max e Etiny) Emax))
  else
    let exp_min0 := ndigits c + e - prec in
    if Etop <? exp_min0 then Err Overflow
    else
      let exp_min := Z.max exp_min0 Etiny in
      if e <? exp_min then
        let k := exp_min - e in
        let q := c / 10 ^ k in
        if round_up ROUND_HALF_EVEN c k then
          if prec <? ndigits (q + 1) then
            if Etop <? exp_min + 1 then Err Overflow
            else Ok (Fin s ((q + 1) / 10) (exp_min + 1))
          else Ok (Fin s (q + 1) exp_min)
        else Ok (Fin s q exp_min)
      else Ok (Fin s c e).

Definition fix_t (d : t) : result t :=
  match d with
  | Fin s c e => _fix s c e
  | _ => Ok d
  end.

(** [_rescale] on a finite number *)
Definition _rescale (r : rounding) (s : bool) (c e exp : Z) : t :=
  if c =? 0 then Fin s 0 exp
  else if exp <=? e then Fin s (c * 10 ^ (e - exp)) exp
  else
    let k := exp - e in
    let q := c / 10 ^ k in
    Fin s (if round_up r c k then q + 1 else q) exp.

(** [_normalize]: the two coefficients brought to a common exponent; an
    operand too small to matter is replaced by a unit in a digit just
    below the precision. *)
Definition _normalize (c1 e1 c2 e2 : Z) : Z * Z * Z :=
  if e1 <? e2 then
    let exp := e2 + Z.min (-1) (ndigits c2 - prec - 2) in
    let '(oc, oe) :=
      if ndigits c1 + e1 - 1 <? exp then (1, exp) else (c1, e1) in
    (oc, c2 * 10 ^ (e2 - oe), oe)
  else
    let exp := e1 + Z.min (-1) (ndigits c1 - prec - 2) in
    let '(oc, oe) :=
      if ndigits c2 + e2 - 1 <? exp then (1, exp) else (c2, e2) in
    (c1 * 10 ^ (e1 - oe), oc, oe).

(** [__add__] *)
Definition add (x y : t) : result t :=
  match x, y with
  | NaN, _ | _, NaN => Ok NaN
  | Inf s1, Inf s2 => if Bool.eqb s1 s2 then Ok x else Err InvalidOperation
  | Inf _, _ => Ok x
  | _, Inf _ => Ok y
  | Fin s1 c1 e1, Fin s2 c2 e2 =>
      let exp := Z.min e1 e2 in
      if (c1 =? 0) && (c2 =? 0) then _fix (s1 && s2) 0 exp
      else if c1 =? 0 then
        fix_t (_rescale ROUND_HALF_EVEN s2 c2 e2 (Z.max exp (e2 - prec - 1)))
      else if c2 =? 0 then
        fix_t (_rescale ROUND_HALF_EVEN s1 c1 e1 (Z.max exp (e1 - prec - 1)))
      else
        let '(i1, i2, e) := _normalize c1 e1 c2 e2 in
        if xorb s1 s2 then
          if i1 =? i2 then _fix false 0 exp
          else if i1 <? i2 then _fix s2 (i2 - i1) e
          else _fix s1 (i1 - i2) e
        else _fix s1 (i1 + i2) e
  end.

(** [copy_negate] *)
Definition neg (x : t) : t :=
  match x with
  | Fin s c e => Fin (negb s) c e
  | Inf s => Inf (negb s)
  | NaN => NaN
  end.

(** [__sub__] *)
Definition sub (x y : t) : result t := add x (neg y).

(** [__mul__] *)
Definition mul (x y : t) : result t :=
  match x, y with
  | NaN, _ | _, NaN => Ok NaN
  | Inf s1, _ =>
      if nonzero y then
        Ok (Inf (xorb s1 match y with Fin s2 _ _ | Inf s2 => s2 | NaN => false end))
      else Err InvalidOperation
  | Fin s1 c1 _, Inf s2 =>
      if c1 =? 0 then Err InvalidOperation else Ok (Inf (xorb s1 s2))
  | Fin s1 c1 e1, Fin s2 c2 e2 => _fix (xorb s1 s2) (c1 * c2) (e1 + e2)
  end.

(** The loop of [__truediv__] that brings an exact quotient to the
    ideal exponent. *)
Fixpoint to_ideal (fuel : nat) (coeff exp : Z) : Z * Z :=
  match fuel with
  | O => (coeff, exp)
  | S f =>
      if coeff mod 10 =? 0 then to_ideal f (coeff / 10) (exp + 1)
      else (coeff, exp)
  end.

(** [__truediv__] *)
Definition div (x y : t) : result t :=
  match x, y with
  | NaN, _ | _, NaN => Ok NaN
  | Inf _, Inf _ => Err InvalidOperation
  | Inf s1, Fin s2 _ _ => Ok (Inf (xorb s1 s2))
  | Fin s1 _ _, Inf s2 => Ok (Fin (xorb s1 s2) 0 Etiny)
  | Fin s1 c1 e1, Fin s2 c2 e2 =>
      if c2 =? 0 then
        if c1 =? 0 then Err InvalidOperation else Err DivisionByZero
      else if c1 =? 0 then _fix (xorb s1 s2) 0 (e1 - e2)
      else
        let shift := ndigits c2 - ndigits c1 + prec + 1 in
        let exp := e1 - e2 - shift in
        let num := if 0 <=? shift then c1 * 10 ^ shift else c1 in
        let den := if 0 <=? shift then c2 else c2 * 10 ^ (- shift) in
        let coeff := num / den in
        let remainder := num mod den in
        if negb (remainder =? 0) then
          _fix (xorb s1 s2) (if coeff mod 5 =? 0 then coeff + 1 else coeff) exp
        else
          let '(coeff', exp') :=
            to_ideal (Z.to_nat (e1 - e2 - exp)) coeff exp in
          _fix (xorb s1 s2) coeff' exp'
  end.

(** [adjusted] *)
Definition adjusted (c e : Z) : Z := e + ndigits c - 1.

(** [quantize(exp, rounding)] *)
Definition quantize (x exp : t) (r : rounding) : result t :=
  match x, exp with
  | NaN, _ | _, NaN => Ok NaN
  | Inf _, Inf _ => Ok x
  | Inf _, _ | _, Inf _ => Err InvalidOperation
  | Fin s c e, Fin _ _ ee =>
      if negb ((Etiny <=? ee) && (ee <=? Emax)) then Err InvalidOperation
      else if c =? 0 then _fix s 0 ee
      else if Emax <? adjusted c e then Err InvalidOperation
      else if prec <? adjusted c e - ee + 1 then Err InvalidOperation
      else
        match _rescale r s c e ee with
        | Fin s' c' e' =>
            if Emax <? adjusted c' e' then Err InvalidOperation
            else if prec <? ndigits c' then Err InvalidOperation
            else _fix s' c' e'
        | d => Ok d
        end
  end.

(** The loop of [normalize] that strips trailing zeros. *)
Fixpoint strip (fuel : nat) (c e : Z) : Z * Z :=
  match fuel with
  | O => (c, e)
  | S f =>
      if (c mod 10 =? 0) && (e <? Emax) then strip f (c / 10) (e + 1)
      else (c, e)
  end.

(** [normalize] *)
Definition normalize (x : t) : result t :=
  d <- fix_t x ;;
  match d with
  | Fin s c e =>
      if c =? 0 then Ok (Fin s 0 0)
      else let '(c', e') := strip (Z.to_nat (ndigits c)) c e in
           Ok (Fin s c' e')
  | _ => Ok d
  end.

(** [_cmp] of two numbers that are not NaN, as -1, 0 or 1. *)
Definition _cmp (x y : t) : Z :=
  let sgn (s : bool) : Z := if s then -1 else 1 in
  let inf (d : t) : Z := match d with Inf s => sgn s | _ => 0 end in
  match x, y with
  | Fin s1 c1 e1, Fin s2 c2 e2 =>
      if c1 =? 0 then (if c2 =? 0 then 0 else - sgn s2)
      else if c2 =? 0 then sgn s1
      else if negb s2 && s1 then -1
      else if negb s1 && s2 then 1
      else
        let a1 := adjusted c1 e1 in
        let a2 := adjusted c2 e2 in
        if a1 =? a2 then
          let p1 := c1 * 10 ^ Z.max 0 (e1 - e2) in
          let p2 := c2 * 10 ^ Z.max 0 (e2 - e1) in
          if p1 =? p2 then 0
          else if p1 <? p2 then - sgn s1 else sgn s1
        else if a2 <? a1 then sgn s1
        else - sgn s1
  | _, _ =>
      if inf x =? inf y then 0 else if inf x <? inf y then -1 else 1
  end.

(** [x > y]; a NaN operand signals InvalidOperation. *)
Definition gt (x y : t) : result bool :=
  match x, y with
  | NaN, _ | _, NaN => Err InvalidOperation
  | _, _ => Ok (0 <? _cmp x y)
  end.

(** Python's [max(x, y)] of two arguments keeps [x] unless [y > x]. *)
Definition pymax (x y : t) : result t :=
  b <- gt y x ;; Ok (if b then y else x).

(** Python's [sum]: the running total starts from the [int] 0, so the
    first addition is [factors[0].__radd__(0)]. *)
Fixpoint sum_from (acc : t) (l : list t) : result t :=
  match l with
  | [] => Ok acc
  | x :: l' => acc' <- add acc x ;; sum_from acc' l'
  end.

Definition pysum (l : list t) : result t :=
  match l with
  | [] => Ok zero
  | x :: l' => acc <- add x zero ;; sum_from acc l'
  end.

(** The largest power of two that divides a positive integer, as an
    exponent. *)
Fixpoint ctz (m : positive) : Z :=
  match m with
  | xO p => 1 + ctz p
  | _ => 0
  end.

(** [Decimal(f)] of a [float]: the exact value, from the ratio in
    lowest terms [n / 2^k] as [n * 5^k * 10^-k]. *)
Definition of_float (x : f64) : t :=
  match x with
  | S754_nan => NaN
  | S754_infinity s => Inf s
  | S754_zero s => Fin s 0 0
  | S754_finite s m e =>
      if 0 <=? e then Fin s (Zpos m * 2 ^ e) 0
      else
        let z := Z.min (ctz m) (- e) in
        let k := - e - z in
        Fin s (Zpos m / 2 ^ z * 5 ^ k) (- k)
  end.

(** [float(d)]: the binary64 number nearest to the decimal value. *)
Definition to_float (d : t) : f64 :=
  match d with
  | NaN => S754_nan
  | Inf s => S754_infinity s
  | Fin s c e =>
      if c <=? 0 then S754_zero s
      else if 0 <=? e then
        binary_normalize F64.prec F64.emax
          (if s then - (c * 10 ^ e) else c * 10 ^ e) 0 false
      else
        let '(q, e', l) :=
          SFdiv_core_binary F64.prec F64.emax c 0 (10 ^ (- e)) 0 in
        binary_round_aux F64.prec F64.emax s q e' l
  end.

(** [math.isnan(d)] *)
Definition is_nan (d : t) : bool :=
  match d with
  | NaN => true
  | _ => false
  end.

End Dec.

Abbreviation decimal := Dec.t.

(** A Python number that is either a [float] or an [int]. *)
Inductive num : Type :=
| Float (x : f64)
| Int (i : Z).

(** [dec(x)], that is [Decimal(x)] *)
Definition dec (x : num) : decimal :=
  match x with
  | Float f => Dec.of_float f
  | Int i => Dec.of_Z i
  end.

(** ** Validation of a prediction *)

(** [set(l1) == set(l2)] *)
Definition set_eqb (l1 l2 : list string) : bool :=
  forallb (fun a => existsb (String.eqb a) l2) l1
  && forallb (fun a => existsb (String.eqb a) l1) l2.

Definition validate_prediction
  (assets : list string) (predictions : list (string * decimal)) : bool :=
  let predicted_assets := map fst predictions in
  if negb (set_eqb assets predicted_assets) then false
  else if negb (length assets =? length predictions)%nat then false
  else negb (existsb (fun av => Dec.is_nan (snd av)) predictions).

(** A submitted value as Python may hold it: a decimal of the model or a
    signaling NaN, which the decimals of the model leave out. *)
Inductive pyvalue : Type :=
| Value (d : decimal)
| SNaN.

(** [any(math.isnan(value) for asset, value in predictions)]: the values
    are visited in order and the visit stops at the first NaN;
    [math.isnan] converts its argument to a float, which raises
    [ValueError] on a signaling NaN. *)
Fixpoint any_isnan (predictions : list (string * pyvalue)) : result bool :=
  match predictions with
  | [] => Ok false
  | (_, Value d) :: rest => if Dec.is_nan d then Ok true else any_isnan rest
  | (_, SNaN) :: _ => Err ValueError
  end.

(** [validate_prediction] on such values: the two checks on the keys,
    then the visit of the values. *)
Definition validate_prediction_raw
  (assets : list string) (predictions : list (string * pyvalue))
  : result bool :=
  let predicted_assets := map fst predictions in
  if negb (set_eqb assets predicted_assets) then Ok false
  else if negb (length assets =? length predictions)%nat then Ok false
  else b <- any_isnan predictions ;; Ok (negb b).

(** No submitted value is a signaling NaN. *)
Definition no_signaling (predictions : list (string * pyvalue)) : Prop :=
  Forall (fun av => snd av <> SNaN) predictions.

(** ** Ranking: [mstats.rankdata(np.ma.masked_invalid(a))]

    [masked_invalid] masks the entries that are NaN or infinite.
    [rankdata] gives a masked entry rank 0; the unmasked entries are ranked
    ascending from 1 by their position in the sorted order and every group
    of equal values receives the mean of the positions it occupies.  With
    [lt] unmasked entries below a value and [eq] entries equal to it, the
    group occupies positions [lt + 1 .. lt + eq], of mean
    [lt + (eq + 1) / 2], a half-integer that binary64 holds exactly. *)

Definition count_if {A : Type} (p : A -> bool) (l : list A) : Z :=
  Z.of_nat (length (filter p l)).

(** [np.count_nonzero(~np.isnan(a))] *)
Definition count_defined (a : list f64) : Z :=
  count_if (fun x => negb (F64.is_nan x)) a.

Definition unmasked (a : list f64) : list f64 := filter F64.is_finite a.

(** Twice the averaged rank of [x] among the unmasked entries of [a]. *)
Definition rank2 (a : list f64) (x : f64) : Z :=
  2 * count_if (fun y => F64.ltb y x) (unmasked a)
  + count_if (fun y => F64.eqb y x) (unmasked a) + 1.

Definition avg_rank (a : list f64) (x : f64) : f64 :=
  F64.of_scaled (rank2 a x) (-1).

Definition rankdata_masked (a : list f64) : list f64 :=
  map (fun x => if F64.is_finite x then avg_rank a x else F64.zero) a.

(** [ranks[ranks == 0] = np.nan] *)
Definition zero_to_nan (ranks : list f64) : list f64 :=
  map (fun r => if F64.eqb r F64.zero then F64.nan else r) ranks.

Definition ranks_of (a : list f64) : list f64 :=
  zero_to_nan (rankdata_masked a).

(** ** Scorer1: scores *)

Module Scorer1.

Definition STDDEV_PENALTY : f64 := F64.tenth.
Definition SKIP_PENALTY : f64 := F64.tenth.

Definition compute_challenge_scores (participants_errors : list f64)
  : list f64 :=
  let n := count_defined participants_errors in
  if n =? 0 then []
  else
    let ranks := ranks_of participants_errors in
    map (fun r => F64.div (F64.sub (F64.of_Z n) r) (F64.of_Z (n - 1))) ranks.

(** [l[-4:]] *)
Definition last4 {A : Type} (l : list A) : list A :=
  skipn (length l - 4)%nat l.

(** [np.nanmean]: the mean of the entries that are not NaN. *)
Definition nanmean (l : list f64) : f64 :=
  let d := filter (fun x => negb (F64.is_nan x)) l in
  F64.div (F64.sum d) (F64.of_Z (Z.of_nat (length d))).

(** [np.nanstd]: the population standard deviation (ddof = 0) of the
    entries that are not NaN. *)
Definition nanstd (l : list f64) : f64 :=
  let d := filter (fun x => negb (F64.is_nan x)) l in
  let cnt := F64.of_Z (Z.of_nat (length d)) in
  let avg := F64.div (F64.sum d) cnt in
  let sqr := map (fun x => let c := F64.sub x avg in F64.mul c c) d in
  F64.sqrt (F64.div (F64.sum sqr) cnt).

Definition compute_competition_score (challenge_scores : list f64) : f64 :=
  let scores := last4 challenge_scores in
  let num_skips :=
    fold_left (fun k score => if F64.is_nan score then k + 1 else k)
              scores (4 - Z.of_nat (length scores)) in
  if num_skips =? 4 then F64.nan
  else
    let a := nanmean scores in
    let b := F64.mul (F64.mul STDDEV_PENALTY (F64.of_Z 2)) (nanstd scores) in
    let c := F64.div (F64.mul SKIP_PENALTY (F64.of_Z num_skips)) (F64.of_Z 3) in
    F64.pymax (F64.sub a (F64.add b c)) F64.zero.

(** [Scorer.REWARD_PRECISION], 10 decimal digits *)
Definition REWARD_PRECISION : decimal := Dec.Fin false 1 (-10).

Definition TOTAL_WEEKLY_POOL : decimal := dec (Int 200000).
Definition UNIT_WEEKLY_POOL : decimal := dec (Int 200).
Definition CHALLENGE_REWARD_PERC : decimal := Dec.Fin false 2 (-1).
Definition COMPETITION_REWARD_PERC : decimal := Dec.Fin false 6 (-1).
Definition STAKE_REWARD_PERC : decimal := Dec.Fin false 2 (-1).

Definition __distribute (factors : list decimal) (pool : decimal)
  : result (list decimal) :=
  total <- Dec.pysum factors ;;
  mapM (fun factor =>
          p <- Dec.mul pool factor ;;
          q <- Dec.div p total ;;
          z <- Dec.quantize q REWARD_PRECISION Dec.ROUND_DOWN ;;
          Dec.normalize z)
       factors.

Definition compute_challenge_rewards
  (challenge_scores : list f64) (challenge_pool : decimal)
  : result (list decimal) :=
  let challenge_scores :=
    map (fun score => if negb (F64.is_nan score) then Float score else Int 0)
        challenge_scores in
  factors <-
    mapM (fun score =>
            d <- Dec.sub (dec score) (Dec.Fin false 25 (-2)) ;;
            Dec.pymax d (dec (Int 0)))
         challenge_scores ;;
  __distribute factors challenge_pool.

(** The early return [[0] * len(competition_scores)] is a list of the
    [int] 0, modelled by [dec (Int 0)]. *)
Definition compute_competition_rewards
  (competition_scores : list f64) (competition_pool : decimal)
  : result (list decimal) :=
  let n := count_defined competition_scores in
  if n =? 0 then Ok (repeat (dec (Int 0)) (length competition_scores))
  else
    let ranks := ranks_of competition_scores in
    let ranks :=
      map (fun r =>
             if negb (F64.is_nan r)
             then Float (F64.div (F64.sub r (F64.of_Z 1)) (F64.of_Z (n - 1)))
             else Int 0)
          ranks in
    factors <-
      mapM (fun rank =>
              d <- Dec.sub (dec rank) (Dec.Fin false 5 (-1)) ;;
              Dec.pymax d (dec (Int 0)))
           ranks ;;
    __distribute factors competition_pool.

Definition compute_stake_rewards (stakes : list decimal) (stake_pool : decimal)
  : result (list decimal) :=
  __distribute stakes stake_pool.

Definition compute_challenge_pool (num_predictors : Z) : result decimal :=
  p <- Dec.mul UNIT_WEEKLY_POOL CHALLENGE_REWARD_PERC ;;
  Dec.mul p (dec (Int num_predictors)).

Definition compute_competition_pool (num_predictors : Z) : result decimal :=
  p <- Dec.mul UNIT_WEEKLY_POOL COMPETITION_REWARD_PERC ;;
  Dec.mul p (dec (Int num_predictors)).

Definition compute_stake_pool (num_stakers : Z) : result decimal :=
  p <- Dec.mul UNIT_WEEKLY_POOL STAKE_REWARD_PERC ;;
  Dec.mul p (dec (Int num_stakers)).

Definition compute_pool_surplus (num_predictors num_stakers : Z)
  : result decimal :=
  a <- compute_challenge_pool num_predictors ;;
  b <- compute_competition_pool num_predictors ;;
  ab <- Dec.add a b ;;
  c <- compute_stake_pool num_stakers ;;
  abc <- Dec.add ab c ;;
  Dec.sub TOTAL_WEEKLY_POOL abc.

(** [mean_squared_error] of scikit-learn is outside the repository: the
    method takes it as an argument. *)
Definition compute_challenge_error
  (mean_squared_error : list f64 -> list f64 -> result f64)
  (predictions assets_values : list decimal) : result f64 :=
  let float_predictions := map Dec.to_float predictions in
  let float_assets_values := map Dec.to_float assets_values in
  mean_squared_error float_predictions float_assets_values.

End Scorer1.

(** ** The interface, the version resolver and the facade *)

Record Scorer : Type := {
  compute_challenge_error_ : list decimal -> list decimal -> result f64;
  compute_challenge_scores_ : list f64 -> list f64;
  compute_competition_score_ : list f64 -> f64;
  compute_challenge_rewards_ : list f64 -> decimal -> result (list decimal);
  compute_competition_rewards_ : list f64 -> decimal -> result (list decimal);
  compute_stake_rewards_ : list decimal -> decimal -> result (list decimal);
  compute_challenge_pool_ : Z -> result decimal;
  compute_competition_pool_ : Z -> result decimal;
  compute_stake_pool_ : Z -> result decimal;
  compute_pool_surplus_ : Z -> Z -> result decimal
}.

Section Facade.

(** [sklearn.metrics.mean_squared_error(..., squared=False)] *)
Variable mean_squared_error : list f64 -> list f64 -> result f64.

Definition Scorer1_ : Scorer := {|
  compute_challenge_error_ := Scorer1.compute_challenge_error mean_squared_error;
  compute_challenge_scores_ := Scorer1.compute_challenge_scores;
  compute_competition_score_ := Scorer1.compute_competition_score;
  compute_challenge_rewards_ := Scorer1.compute_challenge_rewards;
  compute_competition_rewards_ := Scorer1.compute_competition_rewards;
  compute_stake_rewards_ := Scorer1.compute_stake_rewards;
  compute_challenge_pool_ := Scorer1.compute_challenge_pool;
  compute_competition_pool_ := Scorer1.compute_competition_pool;
  compute_stake_pool_ := Scorer1.compute_stake_pool;
  compute_pool_surplus_ := Scorer1.compute_pool_surplus
|}.

(** [Scorer.get] *)
Definition get (challenge_number : Z) : result Scorer :=
  if challenge_number <? 0 then Err LookupError
  else Ok Scorer1_.

Definition compute_challenge_error
  (challenge_number : Z) (predictions assets_values : list decimal)
  : result f64 :=
  scorer <- get challenge_number ;;
  compute_challenge_error_ scorer predictions assets_values.

Definition compute_challenge_scores
  (challenge_number : Z) (participants_errors : list f64)
  : result (list f64) :=
  scorer <- get challenge_number ;;
  Ok (compute_challenge_scores_ scorer participants_errors).

Definition compute_competition_score
  (challenge_number : Z) (challenge_scores : list f64) : result f64 :=
  scorer <- get challenge_number ;;
  Ok (compute_competition_score_ scorer challenge_scores).

Definition compute_challenge_rewards
  (challenge_number : Z) (challenge_scores : list f64)
  (challenge_pool : decimal) : result (list decimal) :=
  scorer <- get challenge_number ;;
  compute_challenge_rewards_ scorer challenge_scores challenge_pool.

Definition compute_competition_rewards
  (challenge_number : Z) (competition_scores : list f64)
  (competition_pool : decimal) : result (list decimal) :=
  scorer <- get challenge_number ;;
  compute_competition_rewards_ scorer competition_scores competition_pool.

Definition compute_stake_rewards
  (challenge_number : Z) (stakes : list decimal) (stake_pool : decimal)
  : result (list decimal) :=
  scorer <- get challenge_number ;;
  compute_stake_rewards_ scorer stakes stake_pool.

Definition compute_challenge_pool (challenge_number num_predictors : Z)
  : result decimal :=
  scorer <- get challenge_number ;;
  compute_challenge_pool_ scorer num_predictors.

Definition compute_competition_pool (challenge_number num_predictors : Z)
  : result decimal :=
  scorer <- get challenge_number ;;
  compute_competition_pool_ scorer num_predictors.

Definition compute_stake_pool (challenge_number num_stakers : Z)
  : result decimal :=
  scorer <- get challenge_number ;;
  compute_stake_pool_ scorer num_stakers.

Definition compute_pool_surplus
  (challenge_number num_predictors num_stakers : Z) : result decimal :=
  scorer <- get challenge_number ;;
  compute_pool_surplus_ scorer num_predictors num_stakers.

End Facade.


(** * Specification-level definitions *)

(** A submission is well formed when its keys are the required assets,
    every required asset has exactly one entry and no value is NaN. *)
Definition valid_submission
  (assets : list string) (predictions : list (string * decimal)) : Prop :=
  (forall a, In a assets <-> In a (map fst predictions)) /\
  (forall a, In a assets ->
             count_occ string_dec (map fst predictions) a = 1%nat) /\
  (forall av, In av predictions -> Dec.is_nan (snd av) = false).

Definition fexp64 (e : Z) : Z := Z.max (e - 53) (-1074).

(** [0 <= x <= k] for a finite [x], on mantissa and exponent. *)
Definition bounded_by (k : Z) (x : f64) : Prop :=
  match x with
  | S754_zero _ => True
  | S754_finite false m e => e <= fexp64 (Zdigits2 k) /\ Z.pos m <= k * 2 ^ (- e)
  | _ => False
  end.

(** Zero, a positive finite number or plus infinity. *)
Definition nonneg (x : f64) : Prop :=
  match x with
  | S754_zero _ | S754_finite false _ _ | S754_infinity false => True
  | _ => False
  end.

(** Neither NaN nor infinite. *)
Definition finite (x : f64) : Prop :=
  match x with
  | S754_zero _ | S754_finite _ _ _ => True
  | _ => False
  end.

(** A positive finite number whose value is the integer [k]. *)
Definition exact_int (k : Z) (y : f64) : Prop :=
  match y with
  | S754_finite false m e => e <= 0 /\ Z.pos m = k * 2 ^ (- e)
  | _ => False
  end.

(** At most one, and not NaN. *)
Definition le_one (x : f64) : Prop :=
  F64.is_nan x = false /\ F64.leb x F64.one = true.

(** The entries that are not NaN. *)
Definition defined (a : list f64) : list f64 :=
  filter (fun x => negb (F64.is_nan x)) a.



(** The competition score in the words of the specification: [mean] and
    [pstd] are the mean and the population standard deviation of a list
    without missing entries. *)
Definition mean (d : list f64) : f64 :=
  F64.div (F64.sum d) (F64.of_Z (Z.of_nat (length d))).

Definition pstd (d : list f64) : f64 :=
  F64.sqrt
    (mean (map (fun x => F64.mul (F64.sub x (mean d)) (F64.sub x (mean d))) d)).

Definition num_skips (history : list f64) : Z :=
  let window := Scorer1.last4 history in
  (4 - Z.of_nat (length window)) + count_if F64.is_nan window.

(** The method's result with its skips and statistics named. *)
Definition competition_score_expr (history : list f64) : f64 :=
  let window := Scorer1.last4 history in
  let d := defined window in
  if num_skips history =? 4 then F64.nan
  else
    let stddev_penalty := F64.mul (F64.mul F64.tenth (F64.of_Z 2)) (pstd d) in
    let skip_penalty :=
      F64.div (F64.mul F64.tenth (F64.of_Z (num_skips history))) (F64.of_Z 3) in
    F64.pymax (F64.sub (mean d) (F64.add stddev_penalty skip_penalty)) F64.zero.

(** The last [k] entries of a list. *)
Definition trailing {A : Type} (k : nat) (l : list A) : list A :=
  rev (firstn k (rev l)).

(** A value floored at zero: a negative value becomes zero, any other is
    kept. *)
Definition floor_at_zero (v : f64) : f64 :=
  if F64.ltb v F64.zero then F64.zero else v.

(** The competition score in the words of the specification: the window
    is the trailing four entries of the history, a skip is a slot the
    window lacks or an entry that is NaN, and the score is the mean of the
    entries present less the two penalties, floored at zero. *)
Definition spec_competition_score (history : list f64) : f64 :=
  let window := trailing 4 history in
  let present := defined window in
  let skips := (4 - Z.of_nat (length window)) + count_if F64.is_nan window in
  if skips =? 4 then F64.nan
  else
    let stddev_penalty :=
      F64.mul (F64.mul F64.tenth (F64.of_Z 2)) (pstd present) in
    let skip_penalty :=
      F64.div (F64.mul F64.tenth (F64.of_Z skips)) (F64.of_Z 3) in
    floor_at_zero
      (F64.sub (mean present) (F64.add stddev_penalty skip_penalty)).

(** The rank [rankdata] gives after masking: the averaged rank of a
    finite entry, NaN for a masked one. *)
Definition masked_rank (a : list f64) (x : f64) : f64 :=
  if F64.is_finite x then avg_rank a x else F64.nan.

(** [(rank - 1) / (n - 1)], and the [int] 0 for an entry without rank. *)
Definition normalized_rank (n : Z) (r : f64) : num :=
  if F64.is_nan r then Int 0
  else Float (F64.div (F64.sub r (F64.of_Z 1)) (F64.of_Z (n - 1))).

(** [max(dec(rank) - dec("0.5"), dec(0))] *)
Definition competition_factor (rank : num) : result decimal :=
  d <- Dec.sub (dec rank) (Dec.Fin false 5 (-1)) ;;
  Dec.pymax d (dec (Int 0)).







(** The value of a decimal in units of [10^-s]: an integer when the
    number has at most [s] decimal places. *)
Definition units (s : Z) (d : decimal) : Z :=
  match d with
  | Dec.Fin sg c e => (if sg then - c else c) * 10 ^ (e + s)
  | _ => 0
  end.

Definition total_units (s : Z) (l : list decimal) : Z :=
  fold_right (fun d acc => units s d + acc) 0 l.

(** A non-negative finite decimal with at most [s] decimal places. *)
Definition amount (s : Z) (d : decimal) : Prop :=
  match d with
  | Dec.Fin false c e => 0 <= c /\ - s <= e <= 100
  | _ => False
  end.

(** A non-negative finite decimal as the arithmetic of the context
    returns it: at most 28 digits, with at most [s] decimal places. *)
Definition context_amount (s : Z) (d : decimal) : Prop :=
  match d with
  | Dec.Fin false c e => 0 <= c < 10 ^ 28 /\ - s <= e <= 100
  | _ => False
  end.

(** No trailing zero in the coefficient; zero is [0E0]. *)
Definition canonical (d : decimal) : Prop :=
  match d with
  | Dec.Fin _ c e => c mod 10 <> 0 \/ (c = 0 /\ e = 0)
  | _ => True
  end.

(** [pool * factor / sum(factors)] truncated to 10 decimal digits, in
    units of [10^-10]: the pool is taken in units of [10^-10], the factor
    and the sum of the factors in units of [10^-s]; on non-negative
    numbers the integer quotient is the truncation. *)
Definition share_units (s : Z) (pool : decimal) (factors : list decimal)
  (factor : decimal) : Z :=
  (units 10 pool * units s factor) / total_units s factors.

(** [max(dec(score) - dec("0.25"), dec(0))], a missing score counting as
    the [int] 0. *)
Definition challenge_factor (score : f64) : result decimal :=
  d <- Dec.sub (dec (if negb (F64.is_nan score) then Float score else Int 0))
               (Dec.Fin false 25 (-2)) ;;
  Dec.pymax d (dec (Int 0)).

(** * Properties *)

(** ** Lists, counts and results *)

Lemma count_if_cons {A : Type} (p : A -> bool) (x : A) (l : list A) :
  count_if p (x :: l) = (if p x then 1 else 0) + count_if p l.
Proof.
  unfold count_if. simpl. destruct (p x); simpl length; lia.
Qed.

Lemma count_if_nonneg {A : Type} (p : A -> bool) (l : list A) :
  0 <= count_if p l.
Proof. unfold count_if. lia. Qed.

Lemma count_if_le_length {A : Type} (p : A -> bool) (l : list A) :
  count_if p l <= Z.of_nat (length l).
Proof.
  unfold count_if. pose proof (filter_length_le p l). lia.
Qed.

Lemma count_if_zero {A : Type} (p : A -> bool) (l : list A) :
  count_if p l = 0 <-> forall x, In x l -> p x = false.
Proof.
  induction l as [|a l IH].
  - split; [intros _ x [] | reflexivity].
  - rewrite count_if_cons. pose proof (count_if_nonneg p l) as Hn. split.
    + intros H x [<- | Hx].
      * destruct (p a); [lia | reflexivity].
      * apply IH; [destruct (p a); lia | exact Hx].
    + intros H. rewrite (H a (or_introl eq_refl)).
      apply IH. intros x Hx. apply H. right. exact Hx.
Qed.

Lemma count_if_ext {A : Type} (p q : A -> bool) (l : list A) :
  (forall x, In x l -> p x = q x) -> count_if p l = count_if q l.
Proof.
  intros H. induction l as [|a l IH]; [reflexivity|].
  rewrite !count_if_cons, (H a (or_introl eq_refl)), IH; [reflexivity|].
  intros x Hx. apply H. right. exact Hx.
Qed.

Lemma filter_ext_in_eq {A : Type} (p q : A -> bool) (l : list A) :
  (forall x, In x l -> p x = q x) -> filter p l = filter q l.
Proof.
  intros H. induction l as [|a l IH]; [reflexivity|].
  simpl. rewrite (H a (or_introl eq_refl)), IH; [reflexivity|].
  intros x Hx. apply H. right. exact Hx.
Qed.

Lemma mapM_length {A B : Type} (f : A -> result B) (l : list A) (r : list B) :
  mapM f l = Ok r -> length r = length l.
Proof.
  revert r. induction l as [|a l IH]; simpl; intros r H.
  - inversion H. reflexivity.
  - destruct (f a) as [b|e]; simpl in H; [|discriminate].
    destruct (mapM f l) as [bs|e]; simpl in H; [|discriminate].
    inversion H. simpl. f_equal. apply IH. reflexivity.
Qed.

Lemma mapM_nth_error {A B : Type} (f : A -> result B) (l : list A) (r : list B) :
  mapM f l = Ok r ->
  forall i a, nth_error l i = Some a ->
  exists b, nth_error r i = Some b /\ f a = Ok b.
Proof.
  revert r. induction l as [|a0 l IH]; simpl; intros r H i a Hi.
  - destruct i; discriminate.
  - destruct (f a0) as [b0|e] eqn:E0; simpl in H; [|discriminate].
    destruct (mapM f l) as [bs|e]; simpl in H; [|discriminate].
    inversion H; subst r. destruct i as [|i]; simpl in *.
    + inversion Hi; subst a0. exists b0. split; [reflexivity | exact E0].
    + eapply IH; [reflexivity | exact Hi].
Qed.

Lemma mapM_ext {A B : Type} (f g : A -> result B) (l : list A) :
  (forall a, In a l -> f a = g a) -> mapM f l = mapM g l.
Proof.
  intros H. induction l as [|a l IH]; [reflexivity|].
  simpl. rewrite (H a (or_introl eq_refl)), IH; [reflexivity|].
  intros x Hx. apply H. right. exact Hx.
Qed.

Lemma mapM_ok {A B : Type} (f : A -> result B) (g : A -> B) (l : list A) :
  (forall a, In a l -> f a = Ok (g a)) -> mapM f l = Ok (map g l).
Proof.
  intros H. induction l as [|a l IH]; [reflexivity|].
  simpl. rewrite (H a (or_introl eq_refl)), IH; [reflexivity|].
  intros x Hx. apply H. right. exact Hx.
Qed.

(** ** The version resolver and the facade *)

Section FacadeProperties.

Variable mse : list f64 -> list f64 -> result f64.

Lemma get_negative (n : Z) : n < 0 -> get mse n = Err LookupError.
Proof.
  intros H. unfold get. destruct (Z.ltb_spec n 0); [reflexivity | lia].
Qed.

Lemma get_nonnegative (n : Z) : 0 <= n -> get mse n = Ok (Scorer1_ mse).
Proof.
  intros H. unfold get. destruct (Z.ltb_spec n 0); [lia | reflexivity].
Qed.

End FacadeProperties.

(** C9: the resolver raises the lookup error on every negative challenge
    number and returns the one implemented scorer on every other number;
    each of the ten facade operations then fails with that same error on a
    negative challenge number, whatever its other arguments. *)
Theorem version_resolver (mse : list f64 -> list f64 -> result f64) (n : Z) :
  (0 <= n -> get mse n = Ok (Scorer1_ mse)) /\
  (n < 0 ->
   get mse n = Err LookupError /\
   (forall p v, compute_challenge_error mse n p v = Err LookupError) /\
   (forall errs, compute_challenge_scores mse n errs = Err LookupError) /\
   (forall h, compute_competition_score mse n h = Err LookupError) /\
   (forall s pool, compute_challenge_rewards mse n s pool = Err LookupError) /\
   (forall s pool, compute_competition_rewards mse n s pool = Err LookupError) /\
   (forall s pool, compute_stake_rewards mse n s pool = Err LookupError) /\
   (forall k, compute_challenge_pool mse n k = Err LookupError) /\
   (forall k, compute_competition_pool mse n k = Err LookupError) /\
   (forall k, compute_stake_pool mse n k = Err LookupError) /\
   (forall k1 k2, compute_pool_surplus mse n k1 k2 = Err LookupError)).
Proof.
  split; [apply get_nonnegative|].
  intros H. pose proof (get_negative mse n H) as G.
  unfold compute_challenge_error, compute_challenge_scores,
    compute_competition_score, compute_challenge_rewards,
    compute_competition_rewards, compute_stake_rewards,
    compute_challenge_pool, compute_competition_pool, compute_stake_pool,
    compute_pool_surplus.
  rewrite G. simpl. repeat split; reflexivity.
Qed.

Lemma version_resolver_witness :
  get (fun _ _ => Ok F64.zero) 7 = Ok (Scorer1_ (fun _ _ => Ok F64.zero)) /\
  compute_stake_pool (fun _ _ => Ok F64.zero) (-1) 10 = Err LookupError.
Proof.
  destruct (version_resolver (fun _ _ => Ok F64.zero) 7) as [H _].
  destruct (version_resolver (fun _ _ => Ok F64.zero) (-1)) as [_ K].
  split.
  - apply H. lia.
  - apply K. lia.
Defined.

(** ** Validation *)

Lemma set_eqb_spec (l1 l2 : list string) :
  set_eqb l1 l2 = true <-> (forall a, In a l1 <-> In a l2).
Proof.
  unfold set_eqb. rewrite andb_true_iff, !forallb_forall.
  assert (E : forall l a, existsb (String.eqb a) l = true <-> In a l).
  { intros l a. rewrite existsb_exists. split.
    - intros [x [Hx Heq]]. apply String.eqb_eq in Heq. subst x. exact Hx.
    - intros Ha. exists a. split; [exact Ha | apply String.eqb_refl]. }
  split.
  - intros [H1 H2] a. split; intros Ha.
    + apply E, H1, Ha.
    + apply E, H2, Ha.
  - intros H. split; intros a Ha; apply E, H, Ha.
Qed.

Lemma no_nan_spec (predictions : list (string * decimal)) :
  negb (existsb (fun av => Dec.is_nan (snd av)) predictions) = true <->
  (forall av, In av predictions -> Dec.is_nan (snd av) = false).
Proof.
  rewrite negb_true_iff. split.
  - intros H av Hav. destruct (Dec.is_nan (snd av)) eqn:E; [|reflexivity].
    assert (X : existsb (fun av => Dec.is_nan (snd av)) predictions = true).
    { apply existsb_exists. exists av. split; assumption. }
    congruence.
  - intros H. destruct (existsb _ predictions) eqn:E; [|reflexivity].
    apply existsb_exists in E. destruct E as [av [Hav Hn]].
    rewrite (H av Hav) in Hn. discriminate.
Qed.

(** What the function checks, for every input: equal key sets, equal
    lengths and no NaN value. *)
Lemma validate_prediction_checks
  (assets : list string) (predictions : list (string * decimal)) :
  validate_prediction assets predictions = true <->
  (forall a, In a assets <-> In a (map fst predictions)) /\
  length assets = length predictions /\
  (forall av, In av predictions -> Dec.is_nan (snd av) = false).
Proof.
  unfold validate_prediction.
  destruct (set_eqb assets (map fst predictions)) eqn:S; simpl.
  - pose proof (proj1 (set_eqb_spec _ _) S) as S'.
    destruct (Nat.eqb_spec (length assets) (length predictions)) as [L|L]; simpl.
    + rewrite no_nan_spec. tauto.
    + split; [discriminate | tauto].
  - split; [discriminate|]. intros [H _].
    pose proof (proj2 (set_eqb_spec _ _) H). congruence.
Qed.

(** C8, as the code has it: for a list of distinct required assets the
    function returns true exactly when the submitted keys are the required
    assets, each required asset has exactly one entry and no submitted
    value is NaN.  The count of entries is checked through the lengths
    of the two lists. *)
Theorem validate_prediction_distinct_assets
  (assets : list string) (predictions : list (string * decimal)) :
  NoDup assets ->
  (validate_prediction assets predictions = true <->
   valid_submission assets predictions).
Proof.
  intros ND. rewrite validate_prediction_checks. unfold valid_submission.
  split.
  - intros [S [L N]]. split; [exact S|]. split; [|exact N].
    assert (NDk : NoDup (map fst predictions)).
    { apply (NoDup_incl_NoDup ND).
      - rewrite length_map. lia.
      - intros a Ha. apply S, Ha. }
    intros a Ha. apply NoDup_count_occ'; [exact NDk | apply S, Ha].
  - intros [S [C N]]. split; [exact S|]. split; [|exact N].
    assert (NDk : NoDup (map fst predictions)).
    { apply (NoDup_count_occ string_dec). intros a.
      destruct (in_dec string_dec a (map fst predictions)) as [Ha|Ha].
      - rewrite (C a); [lia | apply S, Ha].
      - apply (count_occ_not_In string_dec) in Ha. lia. }
    rewrite <- (length_map fst predictions).
    apply Nat.le_antisymm; apply NoDup_incl_length; try assumption;
      intros a Ha; apply S, Ha.
Qed.

Lemma validate_prediction_distinct_assets_witness :
  validate_prediction ["A"; "B"]%string
    [("A"%string, dec (Int 1)); ("B"%string, dec (Int 2))] = true <->
  valid_submission ["A"; "B"]%string
    [("A"%string, dec (Int 1)); ("B"%string, dec (Int 2))].
Proof.
  apply validate_prediction_distinct_assets.
  constructor.
  - simpl. intros [H | []]. discriminate.
  - constructor; [simpl; tauto | constructor].
Defined.

(** C8 as stated fails when the asset list repeats an asset: two entries
    for the asset A are accepted. *)
Lemma validate_prediction_repeated_asset :
  validate_prediction ["A"; "A"]%string
    [("A"%string, dec (Int 1)); ("A"%string, dec (Int 2))] = true /\
  ~ valid_submission ["A"; "A"]%string
    [("A"%string, dec (Int 1)); ("A"%string, dec (Int 2))].
Proof.
  split; [reflexivity|].
  intros [_ [C _]]. specialize (C "A"%string (or_introl eq_refl)).
  vm_compute in C. discriminate.
Qed.

(** ** Binary64 rounding *)

Lemma fexp_64 (e : Z) : fexp 53 1024 e = fexp64 e.
Proof. reflexivity. Qed.

Lemma Zdigits2_log2 (m : Z) : 0 < m -> Zdigits2 m = Z.log2 m + 1.
Proof.
  destruct m as [|p|p]; try lia. intros _. simpl.
  induction p as [p IH|p IH|]; simpl; try reflexivity.
  all: rewrite Pos2Z.inj_succ; destruct p; simpl in *; lia.
Qed.

Lemma Zdigits2_bounds (m : Z) :
  0 < m -> 2 ^ (Zdigits2 m - 1) <= m < 2 ^ Zdigits2 m.
Proof.
  intros H. rewrite (Zdigits2_log2 m H).
  replace (Z.log2 m + 1 - 1) with (Z.log2 m) by lia.
  pose proof (Z.log2_spec m H). rewrite <- Z.add_1_r in H0. exact H0.
Qed.

Lemma Zdigits2_pos (m : Z) : 0 < m -> 0 < Zdigits2 m.
Proof.
  intros H. rewrite (Zdigits2_log2 m H). pose proof (Z.log2_nonneg m). lia.
Qed.

Lemma Zdigits2_le (a b : Z) : 0 < a -> a <= b -> Zdigits2 a <= Zdigits2 b.
Proof.
  intros Ha Hab. rewrite !Zdigits2_log2 by lia.
  pose proof (Z.log2_le_mono a b Hab). lia.
Qed.

Lemma Zdigits2_shift (m k : Z) :
  0 < m -> 0 <= k -> Zdigits2 (m * 2 ^ k) = Zdigits2 m + k.
Proof.
  intros Hm Hk.
  assert (P : 0 < m * 2 ^ k).
  { apply Z.mul_pos_pos; [lia | apply Z.pow_pos_nonneg; lia]. }
  rewrite (Zdigits2_log2 _ P), (Zdigits2_log2 _ Hm).
  rewrite Z.log2_mul_pow2 by lia. lia.
Qed.

(** A bound [m * 2^k <= T] bounds the number of digits. *)
Lemma Zdigits2_scaled_le (m k T : Z) :
  0 < m -> 0 <= k -> m * 2 ^ k <= T -> Zdigits2 m + k <= Zdigits2 T.
Proof.
  intros Hm Hk H. rewrite <- Zdigits2_shift by lia.
  apply Zdigits2_le; [|exact H].
  apply Z.mul_pos_pos; [lia | apply Z.pow_pos_nonneg; lia].
Qed.

Lemma fexp64_mono (a b : Z) : a <= b -> fexp64 a <= fexp64 b.
Proof. unfold fexp64. lia. Qed.

(** *** Shifting a mantissa to the right *)

Lemma shr_1_m (mrs : shr_record) :
  0 <= shr_m mrs -> shr_m (shr_1 mrs) = shr_m mrs / 2.
Proof.
  destruct mrs as [m r s]. simpl. intros H.
  destruct m as [|[p|p|]|p]; simpl; try lia; try reflexivity.
  - change (Z.pos p~1) with (2 * Z.pos p + 1). apply Z.div_unique with 1; lia.
  - change (Z.pos p~0) with (2 * Z.pos p). apply Z.div_unique with 0; lia.
Qed.

Lemma pow2_xI (p : positive) :
  2 ^ Z.pos p~1 = 2 * (2 ^ Z.pos p * 2 ^ Z.pos p).
Proof.
  change (Z.pos p~1) with (2 * Z.pos p + 1).
  replace (2 * Z.pos p + 1) with (1 + (Z.pos p + Z.pos p)) by lia.
  rewrite (Z.pow_add_r 2 1 (Z.pos p + Z.pos p)) by lia.
  rewrite (Z.pow_add_r 2 (Z.pos p) (Z.pos p)) by lia.
  rewrite Z.pow_1_r. reflexivity.
Qed.

Lemma pow2_xO (p : positive) : 2 ^ Z.pos p~0 = 2 ^ Z.pos p * 2 ^ Z.pos p.
Proof.
  change (Z.pos p~0) with (2 * Z.pos p).
  replace (2 * Z.pos p) with (Z.pos p + Z.pos p) by lia.
  rewrite (Z.pow_add_r 2 (Z.pos p) (Z.pos p)) by lia. reflexivity.
Qed.

Lemma pow2_pos (k : Z) : 0 <= k -> 0 < 2 ^ k.
Proof. intros H. apply Z.pow_pos_nonneg; lia. Qed.

Lemma iter_shr_1_m (p : positive) (mrs : shr_record) :
  0 <= shr_m mrs ->
  shr_m (iter_pos shr_1 p mrs) = shr_m mrs / 2 ^ Zpos p.
Proof.
  revert mrs. induction p as [p IH|p IH|]; intros mrs H; cbn [iter_pos].
  - pose proof (pow2_pos (Z.pos p) ltac:(lia)) as P.
    assert (H1 : 0 <= shr_m (shr_1 mrs)).
    { rewrite shr_1_m by lia. apply Z.div_pos; lia. }
    assert (H2 : 0 <= shr_m (iter_pos shr_1 p (shr_1 mrs))).
    { rewrite IH by lia. apply Z.div_pos; lia. }
    rewrite IH by exact H2. rewrite IH by exact H1. rewrite shr_1_m by exact H.
    rewrite pow2_xI. rewrite !Z.div_div by lia. rewrite Z.mul_assoc.
    reflexivity.
  - pose proof (pow2_pos (Z.pos p) ltac:(lia)) as P.
    assert (H2 : 0 <= shr_m (iter_pos shr_1 p mrs)).
    { rewrite IH by lia. apply Z.div_pos; lia. }
    rewrite IH by exact H2. rewrite IH by exact H.
    rewrite pow2_xO. rewrite !Z.div_div by lia. reflexivity.
  - rewrite shr_1_m by lia. reflexivity.
Qed.

Lemma shr_1_exact (m : Z) :
  0 <= m -> (2 | m) ->
  shr_1 (Build_shr_record m false false) = Build_shr_record (m / 2) false false.
Proof.
  intros Hm [k Hk]. subst m. rewrite Z.div_mul by lia.
  rewrite Z.mul_comm in *.
  destruct k as [|q|q]; simpl; try reflexivity; lia.
Qed.

Lemma iter_shr_1_exact (p : positive) (m : Z) :
  0 <= m -> (2 ^ Zpos p | m) ->
  iter_pos shr_1 p (Build_shr_record m false false)
  = Build_shr_record (m / 2 ^ Zpos p) false false.
Proof.
  revert m. induction p as [p IH|p IH|]; intros m Hm [k Hk]; cbn [iter_pos].
  - pose proof (pow2_pos (Z.pos p) ltac:(lia)) as P.
    rewrite pow2_xI in *.
    rewrite shr_1_exact; [| lia | exists (k * (2 ^ Z.pos p * 2 ^ Z.pos p)); lia].
    assert (D : m / 2 = k * 2 ^ Z.pos p * 2 ^ Z.pos p).
    { symmetry. apply Z.div_unique_exact; lia. }
    rewrite IH; [| rewrite D; nia | exists (k * 2 ^ Z.pos p); lia].
    assert (D2 : m / 2 / 2 ^ Z.pos p = k * 2 ^ Z.pos p).
    { rewrite D. apply Z.div_mul. lia. }
    rewrite IH; [| rewrite D2; nia | exists k; lia].
    f_equal. rewrite !Z.div_div by lia. rewrite Z.mul_assoc. reflexivity.
  - pose proof (pow2_pos (Z.pos p) ltac:(lia)) as P.
    rewrite pow2_xO in *.
    assert (D : m / 2 ^ Z.pos p = k * 2 ^ Z.pos p).
    { symmetry. apply Z.div_unique_exact; lia. }
    rewrite IH; [| lia | exists (k * 2 ^ Z.pos p); lia].
    rewrite IH; [| rewrite D; nia | exists k; lia].
    f_equal. rewrite !Z.div_div by lia. reflexivity.
  - change (2 ^ 1) with 2 in *. apply shr_1_exact; [lia | exists k; lia].
Qed.


Lemma pow2_divide (a b : Z) : 0 <= a <= b -> (2 ^ a | 2 ^ b).
Proof.
  intros H. exists (2 ^ (b - a)).
  rewrite <- Z.pow_add_r by lia. f_equal. lia.
Qed.

Lemma loc_of_record_of_loc (m : Z) (l : location) :
  loc_of_shr_record (shr_record_of_loc m l) = l.
Proof. destruct l as [|[| |]]; reflexivity. Qed.

Lemma shr_m_record_of_loc (m : Z) (l : location) :
  shr_m (shr_record_of_loc m l) = m.
Proof. destruct l as [|[| |]]; reflexivity. Qed.

(** One application of [shr_fexp]: the mantissa is divided by the power of
    two that brings the exponent up to [fexp], and an exact location stays
    exact when nothing is lost. *)
Lemma shr_fexp_step (q e : Z) (l : location) :
  0 <= q ->
  exists mrs e1,
    shr_fexp 53 1024 q e l = (mrs, e1) /\
    e1 = Z.max e (fexp64 (Zdigits2 q + e)) /\
    shr_m mrs = q / 2 ^ (e1 - e) /\
    (e1 = e -> loc_of_shr_record mrs = l) /\
    (l = loc_Exact -> (2 ^ (e1 - e) | q) -> loc_of_shr_record mrs = loc_Exact).
Proof.
  intros Hq. unfold shr_fexp, shr. rewrite fexp_64.
  destruct (fexp64 (Zdigits2 q + e) - e) as [|p|p] eqn:E.
  - exists (shr_record_of_loc q l), e. repeat split.
    + lia.
    + rewrite shr_m_record_of_loc.
      replace (e - e) with 0 by lia.
      rewrite Z.pow_0_r, Z.div_1_r. reflexivity.
    + intros _. apply loc_of_record_of_loc.
    + intros -> _. reflexivity.
  - exists (iter_pos shr_1 p (shr_record_of_loc q l)), (e + Z.pos p).
    assert (X : Z.max e (fexp64 (Zdigits2 q + e)) - e = Z.pos p) by lia.
    repeat split.
    + lia.
    + rewrite iter_shr_1_m by (rewrite shr_m_record_of_loc; lia).
      rewrite shr_m_record_of_loc.
      replace (e + Z.pos p - e) with (Z.pos p) by lia. reflexivity.
    + lia.
    + intros -> D. replace (e + Z.pos p - e) with (Z.pos p) in D by lia.
      simpl shr_record_of_loc. rewrite iter_shr_1_exact by assumption.
      reflexivity.
  - exists (shr_record_of_loc q l), e. repeat split.
    + lia.
    + rewrite shr_m_record_of_loc.
      replace (e - e) with 0 by lia.
      rewrite Z.pow_0_r, Z.div_1_r. reflexivity.
    + intros _. apply loc_of_record_of_loc.
    + intros -> _. reflexivity.
Qed.

Lemma round_nearest_even_bounds (m : Z) (l : location) :
  m <= round_nearest_even m l <= m + 1.
Proof.
  destruct l as [|[| |]]; simpl; try lia. destruct (Z.even m); lia.
Qed.

(** Rounding never exceeds a bound that is a multiple of the unit in the
    last place.  The mantissa [q] at exponent [e], with the location [l] of
    the discarded part, stands for a number below [T * 2^e], or equal to
    it. *)
Lemma binary_round_aux_upper (s : bool) (q e : Z) (l : location) (T : Z) :
  0 <= q -> 0 < T ->
  (q < T \/ (q = T /\ l = loc_Exact)) ->
  (2 ^ Z.max 0 (fexp64 (Zdigits2 T + e) - e) | T) ->
  match binary_round_aux 53 1024 s q e l with
  | S754_zero s' => s' = s
  | S754_finite s' m ef =>
      s' = s /\ e <= ef <= Z.max e (fexp64 (Zdigits2 T + e)) /\
      Z.pos m * 2 ^ (ef - e) <= T
  | S754_infinity s' => s' = s /\ 971 < Z.max e (fexp64 (Zdigits2 T + e))
  | S754_nan => False
  end.
Proof.
  intros Hq HT Hle Hdiv. unfold binary_round_aux.
  destruct (shr_fexp_step q e l Hq) as (mrs1 & e1 & -> & He1 & Hm1 & Hl1 & Hx1).
  set (m2 := round_nearest_even (shr_m mrs1) (loc_of_shr_record mrs1)).
  assert (Hdq : fexp64 (Zdigits2 q + e) <= fexp64 (Zdigits2 T + e)).
  { apply fexp64_mono. destruct (Z.eq_dec q 0) as [->|].
    - simpl. pose proof (Zdigits2_pos T HT). lia.
    - pose proof (Zdigits2_le q T). lia. }
  assert (Hn1 : 0 <= e1 - e) by lia.
  pose proof (pow2_pos (e1 - e) Hn1) as P1.
  assert (Hdiv1 : (2 ^ (e1 - e) | T)).
  { eapply Z.divide_trans; [|exact Hdiv]. apply pow2_divide. lia. }
  assert (B2 : 0 <= m2 /\ m2 * 2 ^ (e1 - e) <= T).
  { pose proof (round_nearest_even_bounds (shr_m mrs1) (loc_of_shr_record mrs1))
      as R. fold m2 in R.
    assert (0 <= shr_m mrs1) by (rewrite Hm1; apply Z.div_pos; lia).
    split; [lia|].
    destruct Hdiv1 as [t Ht].
    destruct Hle as [Hlt | [Heq Hl]].
    - assert (shr_m mrs1 < t).
      { rewrite Hm1. apply Z.div_lt_upper_bound; lia. }
      nia.
    - subst q l.
      assert (E : loc_of_shr_record mrs1 = loc_Exact).
      { apply Hx1; [reflexivity | exists t; exact Ht]. }
      unfold m2. rewrite E. simpl. rewrite Hm1.
      rewrite Ht at 1. rewrite Z.div_mul by lia. lia. }
  destruct B2 as [Hm2 B2].
  destruct (shr_fexp_step m2 e1 loc_Exact Hm2)
    as (mrs2 & e2 & -> & He2 & Hm3 & _ & _).
  assert (Hn2 : 0 <= e2 - e1) by lia.
  pose proof (pow2_pos (e2 - e1) Hn2) as P2.
  assert (H3 : 0 <= shr_m mrs2) by (rewrite Hm3; apply Z.div_pos; lia).
  assert (B3 : shr_m mrs2 * 2 ^ (e2 - e) <= T).
  { replace (e2 - e) with ((e2 - e1) + (e1 - e)) by lia.
    rewrite Z.pow_add_r by lia.
    pose proof (Z.mul_div_le m2 (2 ^ (e2 - e1)) P2).
    rewrite <- Hm3 in H. nia. }
  destruct (shr_m mrs2) as [|m|m] eqn:E3; [reflexivity| |lia].
  assert (Hm2pos : 0 < m2).
  { destruct (Z.eq_dec m2 0) as [Z0|]; [|lia].
    rewrite Z0 in Hm3. rewrite Z.div_0_l in Hm3 by lia. lia. }
  assert (He2' : e2 <= Z.max e (fexp64 (Zdigits2 T + e))).
  { assert (fexp64 (Zdigits2 m2 + e1) <= fexp64 (Zdigits2 T + e)); [|lia].
    apply fexp64_mono.
    pose proof (Zdigits2_scaled_le m2 (e1 - e) T Hm2pos Hn1 B2). lia. }
  destruct (Z.leb_spec e2 (1024 - 53)).
  - repeat split; try lia.
  - split; [reflexivity | lia].
Qed.

(** The result of rounding a non-negative mantissa carries the given sign
    and is never NaN. *)
Lemma binary_round_aux_sign (s : bool) (q e : Z) (l : location) :
  0 <= q ->
  match binary_round_aux 53 1024 s q e l with
  | S754_zero s' | S754_finite s' _ _ | S754_infinity s' => s' = s
  | S754_nan => False
  end.
Proof.
  intros Hq. unfold binary_round_aux.
  destruct (shr_fexp_step q e l Hq) as (mrs1 & e1 & -> & He1 & Hm1 & _ & _).
  assert (Hn1 : 0 <= e1 - e) by lia.
  pose proof (pow2_pos _ Hn1) as P1.
  assert (H1 : 0 <= shr_m mrs1) by (rewrite Hm1; apply Z.div_pos; lia).
  pose proof (round_nearest_even_bounds (shr_m mrs1) (loc_of_shr_record mrs1))
    as R.
  set (m2 := round_nearest_even (shr_m mrs1) (loc_of_shr_record mrs1)) in *.
  assert (Hm2 : 0 <= m2) by lia.
  destruct (shr_fexp_step m2 e1 loc_Exact Hm2)
    as (mrs2 & e2 & -> & He2 & Hm3 & _ & _).
  assert (Hn2 : 0 <= e2 - e1) by lia.
  pose proof (pow2_pos _ Hn2) as P2.
  assert (H3 : 0 <= shr_m mrs2) by (rewrite Hm3; apply Z.div_pos; lia).
  destruct (shr_m mrs2) as [|m|m]; [reflexivity| |lia].
  destruct (Z.leb e2 (1024 - 53)); reflexivity.
Qed.

Lemma pos_iter_xO (m d : positive) :
  Z.pos (Pos.iter xO m d) = Z.pos m * 2 ^ Z.pos d.
Proof.
  induction d as [|d IH] using Pos.peano_ind.
  - simpl. lia.
  - rewrite Pos.iter_succ, Pos2Z.inj_xO, IH, Pos2Z.inj_succ.
    rewrite Z.pow_succ_r by lia. lia.
Qed.

Lemma shl_align_spec (m : positive) (e e' : Z) :
  let '(mz, ez) := shl_align m e e' in
  ez = Z.min e e' /\ Z.pos mz = Z.pos m * 2 ^ (e - ez).
Proof.
  unfold shl_align. destruct (e' - e) as [|d|d] eqn:E.
  - split; [lia|]. replace (e - e) with 0 by lia. lia.
  - split; [lia|]. replace (e - e) with 0 by lia. lia.
  - split; [lia|]. rewrite pos_iter_xO. f_equal. f_equal. lia.
Qed.

Lemma bounded_by_mono (k k' : Z) (x : f64) :
  0 < k <= k' -> bounded_by k x -> bounded_by k' x.
Proof.
  intros H. destruct x as [| | |[|] m e]; simpl; try tauto.
  intros [He Hm]. split.
  - pose proof (Zdigits2_le k k'). pose proof (fexp64_mono (Zdigits2 k) (Zdigits2 k')).
    lia.
  - pose proof (Z.pow_nonneg 2 (- e)). nia.
Qed.

(** Rounding a non-negative integer multiple of [2^e] that is at most the
    integer [k] gives at most [k]. *)
Lemma binary_normalize_bounded (D e k : Z) :
  0 <= D -> e <= 0 -> 0 < k < 2 ^ 53 -> D <= k * 2 ^ (- e) ->
  bounded_by k (binary_normalize 53 1024 D e false).
Proof.
  intros HD He Hk Hle.
  destruct D as [|M|M]; [exact I | | lia].
  unfold binary_normalize, binary_round.
  pose proof (shl_align_spec M e (fexp 53 1024 (Z.pos (digits2_pos M) + e))) as A.
  destruct (shl_align M e _) as [mz ez]. destruct A as [Hez Hmz].
  rewrite fexp_64 in Hez.
  change (Z.pos (digits2_pos M)) with (Zdigits2 (Z.pos M)) in Hez.
  assert (dk : Zdigits2 k <= 53).
  { destruct (Z_le_gt_dec (Zdigits2 k) 53); [assumption|].
    pose proof (Zdigits2_bounds k ltac:(lia)) as [B _].
    assert (2 ^ 53 <= 2 ^ (Zdigits2 k - 1)) by (apply Z.pow_le_mono_r; lia).
    lia. }
  assert (Hez0 : ez <= 0) by lia.
  assert (Pe : 0 < 2 ^ (- e)) by (apply pow2_pos; lia).
  assert (Pz : 0 < 2 ^ (- ez)) by (apply pow2_pos; lia).
  assert (Pd : 0 < 2 ^ (e - ez)) by (apply pow2_pos; lia).
  assert (Esplit : 2 ^ (- ez) = 2 ^ (- e) * 2 ^ (e - ez)).
  { rewrite <- Z.pow_add_r by lia. f_equal. lia. }
  assert (dM : Zdigits2 (Z.pos M) + e <= Zdigits2 k).
  { pose proof (Zdigits2_scaled_le (Z.pos M) 0 (k * 2 ^ (- e))).
    rewrite Zdigits2_shift in H by lia. rewrite Z.pow_0_r, Z.mul_1_r in H. lia. }
  assert (dT : Zdigits2 (k * 2 ^ (- ez)) + ez = Zdigits2 k).
  { rewrite Zdigits2_shift by lia. lia. }
  assert (fk : fexp64 (Zdigits2 k) <= 0) by (unfold fexp64; lia).
  pose proof (fexp64_mono _ _ dM) as fM.
  assert (HT : 0 < k * 2 ^ (- ez)) by nia.
  assert (Hq : Z.pos mz < k * 2 ^ (- ez) \/
               Z.pos mz = k * 2 ^ (- ez) /\ loc_Exact = loc_Exact).
  { rewrite Hmz, Esplit.
    destruct (Z.eq_dec (Z.pos M) (k * 2 ^ (- e))) as [Eq|Ne].
    - right. split; [rewrite Eq; lia | reflexivity].
    - left. nia. }
  assert (Hd : (2 ^ Z.max 0 (fexp64 (Zdigits2 (k * 2 ^ (- ez)) + ez) - ez)
                | k * 2 ^ (- ez))).
  { rewrite dT. eapply Z.divide_trans; [|apply Z.divide_factor_r].
    apply pow2_divide. lia. }
  pose proof (binary_round_aux_upper false (Z.pos mz) ez loc_Exact
                (k * 2 ^ (- ez)) ltac:(lia) HT Hq Hd) as U.
  rewrite dT in U.
  destruct (binary_round_aux 53 1024 false (Z.pos mz) ez loc_Exact)
    as [s'|s'| |s' m ef].
  - exact I.
  - lia.
  - exact U.
  - destruct U as (-> & Hef & Hm). simpl. split; [lia|].
    assert (Pf : 0 < 2 ^ (ef - ez)) by (apply pow2_pos; lia).
    assert (Es : 2 ^ (- ez) = 2 ^ (- ef) * 2 ^ (ef - ez)).
    { rewrite <- Z.pow_add_r by lia. f_equal. lia. }
    rewrite Es in Hm. nia.
Qed.

Lemma one_eq : F64.one = S754_finite false 4503599627370496 (-52).
Proof. vm_compute. reflexivity. Qed.

Lemma bounded_by_one_leb (x : f64) :
  bounded_by 1 x ->
  F64.is_nan x = false /\ F64.leb F64.zero x = true /\ F64.leb x F64.one = true.
Proof.
  rewrite one_eq.
  destruct x as [s|s| |[|] m e]; cbn [bounded_by]; intros H;
    try contradiction.
  - repeat split; reflexivity.
  - destruct H as [He Hm]. change (fexp64 (Zdigits2 1)) with (-52) in He.
    split; [reflexivity | split; [reflexivity|]].
    unfold F64.leb, SFleb. cbn [SFcompare].
    destruct (Z.compare_spec e (-52)) as [E|E|E]; [|reflexivity|lia].
    subst e. change (2 ^ (- -52)) with 4503599627370496 in Hm.
    rewrite Pos.compare_cont_spec, Pos2Z.inj_compare.
    destruct (Z.compare_spec (Z.pos m) 4503599627370496) as [C|C|C];
      try reflexivity. lia.
Qed.

(** *** Sums *)

Lemma add_bounded (a b : Z) (x y : f64) :
  0 < a -> 0 < b -> a + b < 2 ^ 53 ->
  bounded_by a x -> bounded_by b y -> bounded_by (a + b) (F64.add x y).
Proof.
  intros Ha Hb Hab Hx Hy.
  assert (fa : fexp64 (Zdigits2 a) <= 0).
  { assert (Zdigits2 a <= 53); [|unfold fexp64; lia].
    destruct (Z_le_gt_dec (Zdigits2 a) 53); [assumption|].
    pose proof (Zdigits2_bounds a Ha) as [B _].
    assert (2 ^ 53 <= 2 ^ (Zdigits2 a - 1)) by (apply Z.pow_le_mono_r; lia).
    lia. }
  assert (fb : fexp64 (Zdigits2 b) <= 0).
  { assert (Zdigits2 b <= 53); [|unfold fexp64; lia].
    destruct (Z_le_gt_dec (Zdigits2 b) 53); [assumption|].
    pose proof (Zdigits2_bounds b Hb) as [B _].
    assert (2 ^ 53 <= 2 ^ (Zdigits2 b - 1)) by (apply Z.pow_le_mono_r; lia).
    lia. }
  destruct x as [sx|sx| |[|] mx ex]; cbn [bounded_by] in Hx; try contradiction;
    destruct y as [sy|sy| |[|] my ey]; cbn [bounded_by] in Hy;
    try contradiction.
  - unfold F64.add, SFadd. destruct sx, sy; exact I.
  - apply (bounded_by_mono b); [lia|]. exact Hy.
  - apply (bounded_by_mono a); [lia|]. exact Hx.
  - destruct Hx as [Hex Hmx], Hy as [Hey Hmy].
    unfold F64.add, SFadd. cbn [cond_Zopp].
    pose proof (shl_align_spec mx ex (Z.min ex ey)) as A1.
    pose proof (shl_align_spec my ey (Z.min ex ey)) as A2.
    destruct (shl_align mx ex _) as [m1 e1], (shl_align my ey _) as [m2 e2].
    cbn [fst]. destruct A1 as [E1 M1], A2 as [E2 M2].
    set (ez := Z.min ex ey) in *.
    assert (Px : 0 < 2 ^ (- ex)) by (apply pow2_pos; lia).
    assert (Py : 0 < 2 ^ (- ey)) by (apply pow2_pos; lia).
    assert (P1 : 0 < 2 ^ (ex - ez)) by (apply pow2_pos; lia).
    assert (P2 : 0 < 2 ^ (ey - ez)) by (apply pow2_pos; lia).
    assert (S1 : 2 ^ (- ez) = 2 ^ (- ex) * 2 ^ (ex - ez)).
    { rewrite <- Z.pow_add_r by lia. f_equal. lia. }
    assert (S2 : 2 ^ (- ez) = 2 ^ (- ey) * 2 ^ (ey - ez)).
    { rewrite <- Z.pow_add_r by lia. f_equal. lia. }
    apply binary_normalize_bounded; try lia.
    replace (e1) with ez in M1 by lia. replace (e2) with ez in M2 by lia.
    rewrite M1, M2.
    assert (Z.pos mx * 2 ^ (ex - ez) <= a * 2 ^ (- ez)) by (rewrite S1; nia).
    assert (Z.pos my * 2 ^ (ey - ez) <= b * 2 ^ (- ez)) by (rewrite S2; nia).
    lia.
Qed.

Lemma sum_from_bounded (l : list f64) (a : Z) (acc : f64) :
  0 < a -> a + Z.of_nat (length l) < 2 ^ 53 ->
  bounded_by a acc -> (forall x, In x l -> bounded_by 1 x) ->
  bounded_by (a + Z.of_nat (length l)) (fold_left F64.add l acc).
Proof.
  revert a acc. induction l as [|x l IH]; intros a acc Ha Hlen Hacc Hl.
  - simpl. rewrite Z.add_0_r. exact Hacc.
  - cbn [fold_left]. cbn [length] in *.
    replace (a + Z.of_nat (S (length l))) with ((a + 1) + Z.of_nat (length l))
      by lia.
    apply IH; try lia.
    + apply add_bounded; try lia; [exact Hacc | apply Hl; left; reflexivity].
    + intros y Hy. apply Hl. right. exact Hy.
Qed.

Lemma sum_bounded (l : list f64) :
  l <> [] -> Z.of_nat (length l) < 2 ^ 53 ->
  (forall x, In x l -> bounded_by 1 x) ->
  bounded_by (Z.of_nat (length l)) (F64.sum l).
Proof.
  intros Hne Hlen Hl. destruct l as [|x l]; [congruence|].
  unfold F64.sum. cbn [fold_left].
  replace (Z.of_nat (length (x :: l))) with (1 + Z.of_nat (length l))
    by (cbn [length]; lia).
  apply sum_from_bounded; cbn [length] in Hlen; try lia.
  - pose proof (Hl x (or_introl eq_refl)) as Hx.
    destruct x as [[|]| | |[|] m e]; cbn [bounded_by] in Hx;
      try contradiction; exact Hx.
  - intros y Hy. apply Hl. right. exact Hy.
Qed.

(** *** Quotients *)

Lemma new_location_exact (n : Z) : new_location n 0 = loc_Exact.
Proof.
  unfold new_location, new_location_even, new_location_odd.
  destruct (Z.even n); reflexivity.
Qed.

(** The quotient of two positive numbers is at most 1 when the dividend
    does not exceed the divisor. *)
Lemma div_finite_le_one (m1 m2 : positive) (e1 e2 : Z) :
  Z.pos m1 * 2 ^ (e1 - Z.min e1 e2) <= Z.pos m2 * 2 ^ (e2 - Z.min e1 e2) ->
  bounded_by 1 (F64.div (S754_finite false m1 e1) (S754_finite false m2 e2)).
Proof.
  intros Hle. unfold F64.div, SFdiv, SFdiv_core_binary, F64.prec, F64.emax.
  rewrite fexp_64.
  set (d1 := Zdigits2 (Z.pos m1)). set (d2 := Zdigits2 (Z.pos m2)).
  set (e' := Z.min (fexp64 (d1 + e1 - (d2 + e2))) (e1 - e2)).
  set (g := Z.min e1 e2) in *.
  assert (P1 : 0 < 2 ^ (e1 - g)) by (apply pow2_pos; lia).
  assert (P2 : 0 < 2 ^ (e2 - g)) by (apply pow2_pos; lia).
  assert (HD : d1 + e1 - (d2 + e2) <= 0).
  { pose proof (Zdigits2_le (Z.pos m1 * 2 ^ (e1 - g)) (Z.pos m2 * 2 ^ (e2 - g))
                  ltac:(nia) Hle) as H.
    rewrite !Zdigits2_shift in H by lia. fold d1 d2 in H. lia. }
  assert (He' : e' <= -53) by (unfold e', fexp64; lia).
  set (s := e1 - e2 - e').
  assert (Hs : 0 <= s) by (unfold s, e'; lia).
  set (m' := match s with
             | 0 => Z.pos m1
             | Z.pos _ => Z.shiftl (Z.pos m1) s
             | Z.neg _ => 0
             end).
  assert (Hm' : m' = Z.pos m1 * 2 ^ s).
  { unfold m'. destruct s as [|p|p] eqn:Es.
    - rewrite Z.pow_0_r. lia.
    - apply Z.shiftl_mul_pow2. lia.
    - lia. }
  assert (Ps : 0 < 2 ^ s) by (apply pow2_pos; lia).
  assert (Pe : 0 < 2 ^ (- e')) by (apply pow2_pos; lia).
  assert (Hb : m' <= Z.pos m2 * 2 ^ (- e')).
  { rewrite Hm'. destruct (Z.le_ge_cases e1 e2) as [L|L].
    - replace g with e1 in * by (unfold g; lia).
      replace (e1 - e1) with 0 in Hle by lia. rewrite Z.pow_0_r in Hle.
      replace (- e') with ((e2 - e1) + s) by (unfold s; lia).
      rewrite Z.pow_add_r by lia. nia.
    - replace g with e2 in * by (unfold g; lia).
      replace (e2 - e2) with 0 in Hle by lia. rewrite Z.pow_0_r in Hle.
      replace s with ((e1 - e2) + (- e')) by (unfold s; lia).
      rewrite Z.pow_add_r by lia. nia. }
  pose proof (Z_div_mod m' (Z.pos m2) ltac:(lia)) as DM.
  destruct (Z.div_eucl m' (Z.pos m2)) as [q r]. destruct DM as [DM Hr].
  assert (Hm'pos : 0 < m') by (rewrite Hm'; nia).
  assert (Hq : 0 <= q).
  { destruct (Z_lt_le_dec q 0) as [L|L]; [exfalso|exact L].
    assert (Z.pos m2 * q <= Z.pos m2 * (-1))
      by (apply Z.mul_le_mono_nonneg_l; lia).
    lia. }
  assert (HqT : q < 2 ^ (- e') \/
                q = 2 ^ (- e') /\ new_location (Z.pos m2) r = loc_Exact).
  { destruct (Z_lt_le_dec q (2 ^ (- e'))) as [L|L]; [left; exact L|].
    right. assert (r = 0) by nia. subst r. split; [nia|].
    apply new_location_exact. }
  assert (dT : Zdigits2 (2 ^ (- e')) + e' = 1).
  { replace (2 ^ (- e')) with (1 * 2 ^ (- e')) by lia.
    rewrite Zdigits2_shift by lia. change (Zdigits2 1) with 1. lia. }
  assert (Hd : (2 ^ Z.max 0 (fexp64 (Zdigits2 (2 ^ (- e')) + e') - e')
                | 2 ^ (- e'))).
  { rewrite dT. apply pow2_divide. unfold fexp64. lia. }
  pose proof (binary_round_aux_upper (xorb false false) q e'
                (new_location (Z.pos m2) r) (2 ^ (- e')) Hq Pe HqT Hd) as U.
  rewrite dT in U. change (fexp64 1) with (-52) in U.
  destruct (binary_round_aux 53 1024 (xorb false false) q e'
              (new_location (Z.pos m2) r)) as [s'|s'| |s' m ef].
  - exact I.
  - lia.
  - exact U.
  - destruct U as (-> & Hef & Hm). cbn [xorb bounded_by].
    change (fexp64 (Zdigits2 1)) with (-52). split; [lia|].
    assert (Pf : 0 < 2 ^ (ef - e')) by (apply pow2_pos; lia).
    assert (Es : 2 ^ (- e') = 2 ^ (- ef) * 2 ^ (ef - e')).
    { rewrite <- Z.pow_add_r by lia. f_equal. lia. }
    rewrite Es in Hm. nia.
Qed.

Lemma div_bounded (k : Z) (x y : f64) :
  0 < k -> bounded_by k x -> exact_int k y -> bounded_by 1 (F64.div x y).
Proof.
  intros Hk Hx Hy.
  destruct y as [| | |[|] m2 e2]; cbn [exact_int] in Hy; try contradiction.
  destruct Hy as [He2 Hm2].
  destruct x as [sx| | |[|] m1 e1]; cbn [bounded_by] in Hx; try contradiction.
  - exact I.
  - destruct Hx as [He1 Hm1]. apply div_finite_le_one.
    assert (fk : e1 <= 0).
    { destruct (Z_le_gt_dec e1 0) as [L|G]; [exact L|exfalso].
      rewrite Z.pow_neg_r in Hm1 by lia. lia. }
    assert (Px : 0 < 2 ^ (- e1)) by (apply pow2_pos; lia).
    assert (Py : 0 < 2 ^ (- e2)) by (apply pow2_pos; lia).
    destruct (Z.le_ge_cases e1 e2) as [L|L].
    + replace (Z.min e1 e2) with e1 by lia.
      replace (e1 - e1) with 0 by lia. rewrite Z.pow_0_r, Hm2.
      assert (E : 2 ^ (- e1) = 2 ^ (- e2) * 2 ^ (e2 - e1)).
      { rewrite <- Z.pow_add_r by lia. f_equal. lia. }
      rewrite E in Hm1. lia.
    + replace (Z.min e1 e2) with e2 by lia.
      replace (e2 - e2) with 0 by lia. rewrite Z.pow_0_r, Hm2.
      assert (E : 2 ^ (- e2) = 2 ^ (- e1) * 2 ^ (e1 - e2)).
      { rewrite <- Z.pow_add_r by lia. f_equal. lia. }
      rewrite E. assert (0 < 2 ^ (e1 - e2)) by (apply pow2_pos; lia). nia.
Qed.

(** *** Exact conversions *)

Lemma binary_round_aux_noshift (s : bool) (q : positive) (e : Z) :
  fexp64 (Zdigits2 (Z.pos q) + e) <= e -> e <= 971 ->
  binary_round_aux 53 1024 s (Z.pos q) e loc_Exact = S754_finite s q e.
Proof.
  intros Hf He. unfold binary_round_aux, shr_fexp, shr. rewrite fexp_64.
  destruct (fexp64 (Zdigits2 (Z.pos q) + e) - e) as [|p|p] eqn:E; try lia;
    cbn [shr_record_of_loc shr_m loc_of_shr_record round_nearest_even];
    rewrite fexp_64, E; cbn [shr_m];
    destruct (Z.leb_spec e (1024 - 53)); try reflexivity; lia.
Qed.

Lemma binary_round_small (s : bool) (M : positive) (e : Z) :
  fexp64 (Zdigits2 (Z.pos M) + e) <= e ->
  fexp64 (Zdigits2 (Z.pos M) + e) <= 971 ->
  exists mz,
    binary_round 53 1024 s M e
    = S754_finite s mz (fexp64 (Zdigits2 (Z.pos M) + e)) /\
    Z.pos mz = Z.pos M * 2 ^ (e - fexp64 (Zdigits2 (Z.pos M) + e)).
Proof.
  intros Hf Ht. unfold binary_round.
  pose proof (shl_align_spec M e (fexp 53 1024 (Z.pos (digits2_pos M) + e))) as A.
  destruct (shl_align M e _) as [mz ez]. destruct A as [Hez Hmz].
  rewrite fexp_64 in Hez.
  change (Z.pos (digits2_pos M)) with (Zdigits2 (Z.pos M)) in Hez.
  assert (Ez : ez = fexp64 (Zdigits2 (Z.pos M) + e)) by lia.
  exists mz. split; [|rewrite Hmz, Ez; reflexivity].
  rewrite <- Ez. apply binary_round_aux_noshift; [|lia].
  rewrite Hmz, Zdigits2_shift by lia.
  replace (Zdigits2 (Z.pos M) + (e - ez) + ez) with (Zdigits2 (Z.pos M) + e)
    by lia.
  lia.
Qed.

Lemma Zdigits2_le_53 (k : Z) : 0 < k < 2 ^ 53 -> Zdigits2 k <= 53.
Proof.
  intros Hk. destruct (Z_le_gt_dec (Zdigits2 k) 53); [assumption|].
  pose proof (Zdigits2_bounds k ltac:(lia)) as [B _].
  assert (2 ^ 53 <= 2 ^ (Zdigits2 k - 1)) by (apply Z.pow_le_mono_r; lia).
  lia.
Qed.

Lemma of_Z_exact (k : Z) : 0 < k < 2 ^ 53 -> exact_int k (F64.of_Z k).
Proof.
  intros Hk. pose proof (Zdigits2_le_53 k Hk) as D.
  pose proof (Zdigits2_pos k ltac:(lia)) as D0.
  destruct k as [|M|M]; try lia.
  unfold F64.of_Z, binary_normalize, F64.prec, F64.emax.
  assert (F : fexp64 (Zdigits2 (Z.pos M) + 0) = Zdigits2 (Z.pos M) - 53)
    by (unfold fexp64; lia).
  destruct (binary_round_small false M 0) as (mz & -> & Hmz);
    try (rewrite F; lia).
  rewrite F in *. cbn [exact_int]. split; [lia|].
  rewrite Hmz.
  replace (0 - (Zdigits2 (Z.pos M) - 53)) with (- (Zdigits2 (Z.pos M) - 53))
    by lia.
  reflexivity.
Qed.

Lemma of_scaled_half_exact (r2 : Z) :
  0 < r2 < 2 ^ 53 ->
  match F64.of_scaled r2 (-1) with
  | S754_finite false m e => e <= -1 /\ Z.pos m = r2 * 2 ^ (- 1 - e)
  | _ => False
  end.
Proof.
  intros Hk. pose proof (Zdigits2_le_53 r2 Hk) as D.
  pose proof (Zdigits2_pos r2 ltac:(lia)) as D0.
  destruct r2 as [|M|M]; try lia.
  unfold F64.of_scaled, binary_normalize, F64.prec, F64.emax.
  assert (F : fexp64 (Zdigits2 (Z.pos M) + -1) = Zdigits2 (Z.pos M) - 54)
    by (unfold fexp64; lia).
  destruct (binary_round_small false M (-1)) as (mz & -> & Hmz);
    try (rewrite F; lia).
  rewrite F in *. split; [lia|].
  rewrite Hmz. reflexivity.
Qed.

(** Rounding a positive mantissa at an exponent in range never gives
    zero. *)
Lemma binary_round_aux_nonzero (s : bool) (q e : Z) (l : location) :
  0 < q -> -1074 <= e ->
  match binary_round_aux 53 1024 s q e l with
  | S754_finite s' _ _ | S754_infinity s' => s' = s
  | _ => False
  end.
Proof.
  intros Hq He. unfold binary_round_aux.
  assert (step : forall q e, 0 < q -> -1074 <= e ->
            0 < q / 2 ^ (Z.max e (fexp64 (Zdigits2 q + e)) - e)).
  { clear. intros q e Hq He.
    pose proof (Zdigits2_bounds q Hq) as [B _].
    pose proof (Zdigits2_pos q Hq) as D.
    set (n := Z.max e (fexp64 (Zdigits2 q + e)) - e).
    assert (Hn : 0 <= n <= Zdigits2 q - 1) by (unfold n, fexp64; lia).
    apply Z.div_str_pos. split; [apply pow2_pos; lia|].
    eapply Z.le_trans; [|exact B]. apply Z.pow_le_mono_r; lia. }
  destruct (shr_fexp_step q e l ltac:(lia)) as (mrs1 & e1 & -> & He1 & Hm1 & _ & _).
  pose proof (step q e Hq He) as S1. rewrite <- He1, <- Hm1 in S1.
  pose proof (round_nearest_even_bounds (shr_m mrs1) (loc_of_shr_record mrs1))
    as R.
  set (m2 := round_nearest_even (shr_m mrs1) (loc_of_shr_record mrs1)) in *.
  destruct (shr_fexp_step m2 e1 loc_Exact ltac:(lia))
    as (mrs2 & e2 & -> & He2 & Hm3 & _ & _).
  pose proof (step m2 e1 ltac:(lia) ltac:(lia)) as S2.
  rewrite <- He2, <- Hm3 in S2.
  destruct (shr_m mrs2) as [|m|m]; try lia.
  destruct (Z.leb e2 (1024 - 53)); reflexivity.
Qed.

Lemma of_scaled_positive (r2 : Z) :
  0 < r2 ->
  match F64.of_scaled r2 (-1) with
  | S754_finite false _ _ | S754_infinity false => True
  | _ => False
  end.
Proof.
  intros H. destruct r2 as [|M|M]; try lia.
  unfold F64.of_scaled, binary_normalize, binary_round, F64.prec, F64.emax.
  pose proof (shl_align_spec M (-1) (fexp 53 1024 (Z.pos (digits2_pos M) + -1)))
    as A.
  destruct (shl_align M (-1) _) as [mz ez]. destruct A as [Hez Hmz].
  rewrite fexp_64 in Hez.
  pose proof (binary_round_aux_nonzero false (Z.pos mz) ez loc_Exact
                ltac:(lia) ltac:(unfold fexp64 in Hez; lia)) as N.
  destruct (binary_round_aux 53 1024 false (Z.pos mz) ez loc_Exact)
    as [| | |[|] m e]; try contradiction; try discriminate; try exact I.
  destruct s; [discriminate | exact I].
Qed.

(** *** Differences *)

Lemma binary_normalize_sign (D e : Z) :
  match binary_normalize 53 1024 D e false with
  | S754_zero s => True
  | S754_finite s _ _ | S754_infinity s => s = (D <? 0)
  | S754_nan => False
  end.
Proof.
  destruct D as [|M|M]; [exact I | |];
    unfold binary_normalize, binary_round;
    destruct (shl_align M e _) as [mz ez].
  - pose proof (binary_round_aux_sign false (Z.pos mz) ez loc_Exact ltac:(lia)) as S.
    destruct (binary_round_aux 53 1024 false (Z.pos mz) ez loc_Exact);
      try exact I; exact S.
  - pose proof (binary_round_aux_sign true (Z.pos mz) ez loc_Exact ltac:(lia)) as S.
    destruct (binary_round_aux 53 1024 true (Z.pos mz) ez loc_Exact);
      try exact I; exact S.
Qed.

Lemma negative_le_one (x : f64) :
  match x with
  | S754_zero _ | S754_finite true _ _ | S754_infinity true => True
  | _ => False
  end -> le_one x.
Proof.
  unfold le_one. rewrite one_eq.
  destruct x as [s|[|]| |[|] m e]; intros H; try contradiction;
    split; reflexivity.
Qed.

Lemma sub_le_one (x y : f64) : bounded_by 1 x -> nonneg y -> le_one (F64.sub x y).
Proof.
  intros Hx Hy.
  assert (B : forall z, bounded_by 1 z -> le_one z).
  { intros z Hz. destruct (bounded_by_one_leb z Hz) as (N & _ & L).
    split; assumption. }
  destruct x as [sx| | |[|] m1 e1]; cbn [bounded_by] in Hx; try contradiction;
    destruct y as [sy|[|]| |[|] m2 e2]; cbn [nonneg] in Hy; try contradiction.
  - apply negative_le_one. unfold F64.sub, SFsub. destruct sx, sy; exact I.
  - apply negative_le_one. exact I.
  - apply negative_le_one. exact I.
  - apply B. exact Hx.
  - apply negative_le_one. exact I.
  - destruct Hx as [He1 Hm1]. change (fexp64 (Zdigits2 1)) with (-52) in He1.
    unfold F64.sub, SFsub, F64.prec, F64.emax. cbn [cond_Zopp].
    pose proof (shl_align_spec m1 e1 (Z.min e1 e2)) as A1.
    pose proof (shl_align_spec m2 e2 (Z.min e1 e2)) as A2.
    destruct (shl_align m1 e1 _) as [n1 f1], (shl_align m2 e2 _) as [n2 f2].
    cbn [fst]. destruct A1 as [E1 M1], A2 as [E2 M2].
    set (ez := Z.min e1 e2) in *.
    replace f1 with ez in M1 by lia. replace f2 with ez in M2 by lia.
    set (D := Z.pos n1 - Z.pos n2).
    pose proof (binary_normalize_sign D ez) as S.
    destruct (Z.ltb_spec D 0) as [Neg|Pos].
    + apply negative_le_one.
      destruct (binary_normalize 53 1024 D ez false) as [s|s| |s m e];
        try exact I; try contradiction; subst s; exact I.
    + apply B. apply binary_normalize_bounded; try lia.
      assert (P : 0 < 2 ^ (e1 - ez)) by (apply pow2_pos; lia).
      assert (Px : 0 < 2 ^ (- e1)) by (apply pow2_pos; lia).
      assert (E : 2 ^ (- ez) = 2 ^ (- e1) * 2 ^ (e1 - ez)).
      { rewrite <- Z.pow_add_r by lia. f_equal. lia. }
      unfold D. rewrite M1, E. nia.
Qed.

(** The difference between an integer [n] and a half-integer [r2 / 2]
    between 1 and [n]. *)
Lemma sub_rank_bounded (n r2 : Z) (x r : f64) :
  2 <= n < 2 ^ 53 -> 2 <= r2 <= 2 * n ->
  exact_int n x ->
  match r with
  | S754_finite false m e => e <= -1 /\ Z.pos m = r2 * 2 ^ (- 1 - e)
  | _ => False
  end ->
  bounded_by (n - 1) (F64.sub x r).
Proof.
  intros Hn Hr Hx Hrk.
  destruct x as [| | |[|] m1 e1]; cbn [exact_int] in Hx; try contradiction.
  destruct r as [| | |[|] m2 e2]; try contradiction.
  destruct Hx as [He1 Hm1], Hrk as [He2 Hm2].
  unfold F64.sub, SFsub, F64.prec, F64.emax. cbn [cond_Zopp].
  pose proof (shl_align_spec m1 e1 (Z.min e1 e2)) as A1.
  pose proof (shl_align_spec m2 e2 (Z.min e1 e2)) as A2.
  destruct (shl_align m1 e1 _) as [n1 f1], (shl_align m2 e2 _) as [n2 f2].
  cbn [fst]. destruct A1 as [E1 M1], A2 as [E2 M2].
  set (ez := Z.min e1 e2) in *.
  replace f1 with ez in M1 by lia. replace f2 with ez in M2 by lia.
  assert (P : 0 < 2 ^ (- 1 - ez)) by (apply pow2_pos; lia).
  assert (V1 : Z.pos n1 = 2 * n * 2 ^ (- 1 - ez)).
  { rewrite M1, Hm1. rewrite <- Z.mul_assoc, <- Z.pow_add_r by lia.
    replace (- e1 + (e1 - ez)) with (1 + (- 1 - ez)) by lia.
    rewrite Z.pow_add_r by lia. lia. }
  assert (V2 : Z.pos n2 = r2 * 2 ^ (- 1 - ez)).
  { rewrite M2, Hm2. rewrite <- Z.mul_assoc, <- Z.pow_add_r by lia.
    f_equal. f_equal. lia. }
  apply binary_normalize_bounded; try lia.
  - nia.
  - replace (- ez) with (1 + (- 1 - ez)) by lia.
    rewrite Z.pow_add_r by lia. nia.
Qed.

(** *** Signs *)

Lemma add_nonneg (x y : f64) : nonneg x -> nonneg y -> nonneg (F64.add x y).
Proof.
  intros Hx Hy.
  destruct x as [sx|[|]| |[|] m1 e1]; cbn [nonneg] in Hx; try contradiction;
    destruct y as [sy|[|]| |[|] m2 e2]; cbn [nonneg] in Hy; try contradiction;
    try exact I.
  - unfold F64.add, SFadd. destruct sx, sy; exact I.
  - unfold F64.add, SFadd, F64.prec, F64.emax. cbn [cond_Zopp].
    pose proof (binary_normalize_sign
                  (Z.pos (fst (shl_align m1 e1 (Z.min e1 e2)))
                   + Z.pos (fst (shl_align m2 e2 (Z.min e1 e2))))
                  (Z.min e1 e2)) as S.
    destruct (binary_normalize 53 1024 _ (Z.min e1 e2) false) as [s|s| |s m e];
      try exact I; try contradiction;
      destruct (Z.ltb_spec (Z.pos (fst (shl_align m1 e1 (Z.min e1 e2)))
                   + Z.pos (fst (shl_align m2 e2 (Z.min e1 e2)))) 0);
      try lia; subst s; exact I.
Qed.

Lemma sum_nonneg (l : list f64) :
  (forall x, In x l -> nonneg x) -> nonneg (F64.sum l).
Proof.
  unfold F64.sum. assert (H0 : nonneg F64.zero) by exact I.
  revert H0. generalize F64.zero as acc.
  induction l as [|x l IH]; intros acc Hacc Hl; [exact Hacc|].
  cbn [fold_left]. apply IH.
  - apply add_nonneg; [exact Hacc | apply Hl; left; reflexivity].
  - intros y Hy. apply Hl. right. exact Hy.
Qed.

Lemma sub_finite_not_nan (x y : f64) :
  finite x -> finite y -> F64.is_nan (F64.sub x y) = false.
Proof.
  intros Hx Hy.
  destruct x as [sx| | |s1 m1 e1]; cbn [finite] in Hx; try contradiction;
    destruct y as [sy| | |s2 m2 e2]; cbn [finite] in Hy; try contradiction;
    try reflexivity.
  - unfold F64.sub, SFsub. destruct sx, sy; reflexivity.
  - unfold F64.sub, SFsub, F64.prec, F64.emax.
    match goal with
    | |- F64.is_nan (binary_normalize 53 1024 ?D ?e false) = false =>
        pose proof (binary_normalize_sign D e) as S;
        destruct (binary_normalize 53 1024 D e false);
        try reflexivity; contradiction
    end.
Qed.

Lemma mul_self_nonneg (c : f64) :
  F64.is_nan c = false -> nonneg (F64.mul c c).
Proof.
  destruct c as [s|s| |s m e]; intros H; try discriminate;
    unfold F64.mul, SFmul; rewrite ?xorb_nilpotent; try exact I.
  pose proof (binary_round_aux_sign false (Z.pos (m * m)) (e + e) loc_Exact
                ltac:(lia)) as S.
  unfold F64.prec, F64.emax.
  destruct (binary_round_aux 53 1024 false (Z.pos (m * m)) (e + e) loc_Exact);
    try contradiction; subst; exact I.
Qed.

Lemma mul_pos_nonneg (m : positive) (e : Z) (y : f64) :
  nonneg y -> nonneg (F64.mul (S754_finite false m e) y).
Proof.
  destruct y as [s|[|]| |[|] m2 e2]; intros H; cbn [nonneg] in H;
    try contradiction; unfold F64.mul, SFmul; cbn [xorb]; try exact I.
  pose proof (binary_round_aux_sign false (Z.pos (m * m2)) (e + e2) loc_Exact
                ltac:(lia)) as S.
  unfold F64.prec, F64.emax.
  destruct (binary_round_aux 53 1024 false (Z.pos (m * m2)) (e + e2) loc_Exact);
    try contradiction; subst; exact I.
Qed.

Lemma div_pos_nonneg (x : f64) (m : positive) (e : Z) :
  nonneg x -> nonneg (F64.div x (S754_finite false m e)).
Proof.
  destruct x as [s|[|]| |[|] m1 e1]; intros H; cbn [nonneg] in H;
    try contradiction; unfold F64.div, SFdiv, F64.prec, F64.emax;
    cbn [xorb]; try exact I.
  unfold SFdiv_core_binary.
  match goal with
  | |- context [Z.div_eucl ?a ?b] =>
      pose proof (Z_div_mod a b ltac:(lia)) as DM;
      assert (Ha : 0 <= a);
      [| destruct (Z.div_eucl a b) as [q r]; destruct DM as [DM Hr] ]
  end.
  - destruct (e1 - e - _) as [|p|p]; try lia.
    rewrite Z.shiftl_mul_pow2 by lia.
    pose proof (pow2_pos (Z.pos p) ltac:(lia)). nia.
  - assert (Hq : 0 <= q).
    { destruct (Z_lt_le_dec q 0) as [L|L]; [exfalso|exact L].
      assert (Z.pos m * q <= Z.pos m * (-1))
        by (apply Z.mul_le_mono_nonneg_l; lia).
      lia. }
    match goal with
    | |- nonneg (binary_round_aux _ _ false q ?e' ?l) =>
        pose proof (binary_round_aux_sign false q e' l Hq) as S;
        destruct (binary_round_aux 53 1024 false q e' l);
        try contradiction; subst; exact I
    end.
Qed.

Lemma sqrt_nonneg (x : f64) : nonneg x -> nonneg (F64.sqrt x).
Proof.
  destruct x as [s|[|]| |[|] m e]; intros H; cbn [nonneg] in H;
    try contradiction; unfold F64.sqrt, SFsqrt, F64.prec, F64.emax;
    try exact I.
  unfold SFsqrt_core_binary.
  match goal with
  | |- context [Z.sqrtrem ?a] =>
      pose proof (Z.sqrtrem_spec a) as SR;
      assert (Ha : 0 <= a);
      [| specialize (SR Ha); destruct (Z.sqrtrem a) as [q r];
         destruct SR as [SR Hr] ]
  end.
  - destruct (e - 2 * _) as [|p|p]; try lia.
    rewrite Z.shiftl_mul_pow2 by lia.
    pose proof (pow2_pos (Z.pos p) ltac:(lia)). nia.
  - assert (Hq : 0 <= q).
    { destruct (Z_lt_le_dec q 0) as [L|L]; [exfalso|exact L]. nia. }
    match goal with
    | |- nonneg (binary_round_aux _ _ false q ?e' ?l) =>
        pose proof (binary_round_aux_sign false q e' l Hq) as S;
        destruct (binary_round_aux 53 1024 false q e' l);
        try contradiction; subst; exact I
    end.
Qed.

(** ** Ranking *)

Lemma eqb_refl_finite (x : f64) : F64.is_finite x = true -> F64.eqb x x = true.
Proof.
  destruct x as [s|s| |s m e]; intros H; try discriminate.
  - reflexivity.
  - unfold F64.eqb, SFeqb. cbn [SFcompare]. rewrite Z.compare_refl.
    rewrite Pos.compare_cont_spec, Pos.compare_refl. destruct s; reflexivity.
Qed.

Lemma ltb_not_eqb (x y : f64) : F64.ltb y x = true -> F64.eqb y x = false.
Proof.
  unfold F64.ltb, F64.eqb, SFltb, SFeqb.
  destruct (SFcompare y x) as [[| |]|]; intros H; try discriminate; reflexivity.
Qed.

Lemma count_lt_eq_le (l : list f64) (x : f64) :
  count_if (fun y => F64.ltb y x) l + count_if (fun y => F64.eqb y x) l
  <= Z.of_nat (length l).
Proof.
  induction l as [|y l IH]; [unfold count_if; simpl; lia|].
  rewrite !count_if_cons. cbn [length].
  destruct (F64.ltb y x) eqn:L.
  - rewrite (ltb_not_eqb x y L). lia.
  - destruct (F64.eqb y x); lia.
Qed.

Lemma count_eq_pos (l : list f64) (x : f64) :
  In x l -> F64.is_finite x = true ->
  1 <= count_if (fun y => F64.eqb y x) l.
Proof.
  intros Hin Hf. induction l as [|y l IH]; [destruct Hin|].
  rewrite count_if_cons. pose proof (count_if_nonneg (fun y => F64.eqb y x) l).
  destruct Hin as [->|Hin].
  - rewrite (eqb_refl_finite x Hf). lia.
  - specialize (IH Hin). destruct (F64.eqb y x); lia.
Qed.

Lemma rank2_bounds (a : list f64) (x : f64) :
  In x a -> F64.is_finite x = true ->
  2 <= rank2 a x <= 2 * Z.of_nat (length (unmasked a)).
Proof.
  intros Hin Hf. unfold rank2.
  assert (Hu : In x (unmasked a)).
  { unfold unmasked. apply filter_In. split; assumption. }
  pose proof (count_lt_eq_le (unmasked a) x).
  pose proof (count_eq_pos (unmasked a) x Hu Hf).
  pose proof (count_if_nonneg (fun y => F64.ltb y x) (unmasked a)).
  lia.
Qed.

Lemma unmasked_le_defined (a : list f64) :
  Z.of_nat (length (unmasked a)) <= count_defined a.
Proof.
  unfold count_defined, unmasked. induction a as [|x a IH].
  - unfold count_if. simpl. lia.
  - rewrite count_if_cons. cbn [filter].
    destruct x as [s|s| |s m e]; cbn [F64.is_finite F64.is_nan negb length];
      lia.
Qed.

Lemma avg_rank_ranked (a : list f64) (x : f64) :
  In x a -> F64.is_finite x = true ->
  F64.eqb (avg_rank a x) F64.zero = false /\ F64.is_nan (avg_rank a x) = false.
Proof.
  intros Hin Hf. pose proof (rank2_bounds a x Hin Hf) as [L _].
  unfold avg_rank.
  pose proof (of_scaled_positive (rank2 a x) ltac:(lia)) as P.
  destruct (F64.of_scaled (rank2 a x) (-1)) as [s|[|]| |[|] m e];
    try contradiction; split; reflexivity.
Qed.

(** The ranks the scorer uses: the averaged rank of every finite entry and
    NaN for the others. *)
Lemma ranks_of_spec (a : list f64) :
  ranks_of a
  = map (fun x => if F64.is_finite x then avg_rank a x else F64.nan) a.
Proof.
  unfold ranks_of, zero_to_nan, rankdata_masked. rewrite map_map.
  apply map_ext_in. intros x Hx.
  destruct (F64.is_finite x) eqn:Hf.
  - destruct (avg_rank_ranked a x Hx Hf) as [-> _]. reflexivity.
  - reflexivity.
Qed.

Lemma defined_unmasked (a : list f64) :
  (forall x, In x a -> F64.is_nan x = true \/ F64.is_finite x = true) ->
  unmasked a = defined a.
Proof.
  intros H. unfold unmasked, defined. apply filter_ext_in_eq.
  intros x Hx. destruct (H x Hx) as [N|F];
    destruct x; try discriminate; reflexivity.
Qed.

Lemma count_defined_length (a : list f64) :
  count_defined a = Z.of_nat (length (defined a)).
Proof. reflexivity. Qed.

Lemma sub_nan_r (x : f64) : F64.sub x F64.nan = F64.nan.
Proof. destruct x; reflexivity. Qed.

Lemma div_nan_l (y : f64) : F64.div F64.nan y = F64.nan.
Proof. reflexivity. Qed.




(** ** The competition score *)

Lemma last4_length {A : Type} (l : list A) :
  length (Scorer1.last4 l) = Nat.min 4 (length l).
Proof. unfold Scorer1.last4. rewrite length_skipn. lia. Qed.

Lemma last4_suffix {A : Type} (l : list A) :
  exists p, l = p ++ Scorer1.last4 l.
Proof.
  exists (firstn (length l - 4) l). unfold Scorer1.last4.
  symmetry. apply firstn_skipn.
Qed.

Lemma count_skips_fold (l : list f64) (k : Z) :
  fold_left (fun k score => if F64.is_nan score then k + 1 else k) l k
  = k + count_if F64.is_nan l.
Proof.
  revert k. induction l as [|x l IH]; intros k.
  - unfold count_if. simpl. lia.
  - cbn [fold_left]. rewrite IH, count_if_cons. destruct (F64.is_nan x); lia.
Qed.

Lemma defined_length (l : list f64) :
  Z.of_nat (length (defined l)) = Z.of_nat (length l) - count_if F64.is_nan l.
Proof.
  unfold defined, count_if. induction l as [|x l IH]; [reflexivity|].
  cbn [filter]. destruct (F64.is_nan x); cbn [negb length]; lia.
Qed.

Lemma nanmean_defined (l : list f64) : Scorer1.nanmean l = mean (defined l).
Proof. reflexivity. Qed.

Lemma nanstd_defined (l : list f64) : Scorer1.nanstd l = pstd (defined l).
Proof.
  unfold Scorer1.nanstd, pstd, mean. rewrite length_map. reflexivity.
Qed.

Lemma competition_score_unfold (history : list f64) :
  Scorer1.compute_competition_score history = competition_score_expr history.
Proof.
  unfold Scorer1.compute_competition_score, competition_score_expr, num_skips.
  rewrite count_skips_fold, nanmean_defined, nanstd_defined. reflexivity.
Qed.

Lemma last4_trailing {A : Type} (l : list A) :
  Scorer1.last4 l = trailing 4 l.
Proof.
  unfold Scorer1.last4, trailing.
  rewrite firstn_rev, rev_involutive. reflexivity.
Qed.

Lemma pymax_floor (v : f64) : F64.pymax v F64.zero = floor_at_zero v.
Proof. reflexivity. Qed.

(** C5: the competition score is computed on the trailing four entries of
    the history; the skips are the slots that window lacks plus its NaN
    entries; four skips give NaN and otherwise the result is the mean of
    the entries present minus the sum of [0.1 * 2 * pstd] and
    [0.1 * skips / 3], floored at zero. *)
Theorem competition_score_formula (history : list f64) :
  Scorer1.compute_competition_score history = spec_competition_score history.
Proof.
  unfold Scorer1.compute_competition_score, spec_competition_score.
  rewrite count_skips_fold, nanmean_defined, nanstd_defined, pymax_floor.
  rewrite (last4_trailing history). reflexivity.
Qed.

Lemma num_skips_defined (history : list f64) :
  num_skips history = 4 - Z.of_nat (length (defined (Scorer1.last4 history))).
Proof. unfold num_skips. rewrite defined_length. lia. Qed.

(** ** Bounds of the scores *)

Lemma valid_unit_bounded (x : f64) :
  F64.valid x = true -> F64.leb F64.zero x = true -> F64.leb x F64.one = true ->
  bounded_by 1 x.
Proof.
  rewrite one_eq. destruct x as [s|[|]| |[|] m e]; intros V L0 L1.
  - exact I.
  - discriminate L0.
  - discriminate L1.
  - discriminate L0.
  - discriminate L0.
  - cbn [bounded_by]. change (fexp64 (Zdigits2 1)) with (-52).
    unfold F64.valid, valid_binary, bounded, canonical_mantissa in V.
    apply andb_prop in V. destruct V as [V _]. apply Z.eqb_eq in V.
    rewrite fexp_64 in V.
    change (Z.pos (digits2_pos m)) with (Zdigits2 (Z.pos m)) in V.
    unfold F64.leb, SFleb in L1. cbn [SFcompare] in L1.
    pose proof (Zdigits2_bounds (Z.pos m) ltac:(lia)) as [_ B].
    destruct (Z.compare_spec e (-52)) as [E|E|E]; [| |discriminate L1].
    + subst e. split; [lia|]. change (2 ^ (- -52)) with 4503599627370496.
      rewrite Pos.compare_cont_spec, Pos2Z.inj_compare in L1.
      destruct (Z.compare_spec (Z.pos m) 4503599627370496) as [C|C|C];
        try discriminate L1; lia.
    + split; [lia|].
      assert (Zdigits2 (Z.pos m) <= - e) by (unfold fexp64 in V; lia).
      assert (2 ^ Zdigits2 (Z.pos m) <= 2 ^ (- e))
        by (apply Z.pow_le_mono_r; lia).
      lia.
Qed.

Lemma bounded_by_finite (k : Z) (x : f64) : bounded_by k x -> finite x.
Proof. destruct x as [| | |[|] m e]; intros H; try contradiction; exact I. Qed.

Lemma bounded_by_nonneg (k : Z) (x : f64) : bounded_by k x -> nonneg x.
Proof. destruct x as [| | |[|] m e]; intros H; try contradiction; exact I. Qed.

Lemma pymax_zero_unit (x : f64) :
  le_one x ->
  F64.is_nan (F64.pymax x F64.zero) = false /\
  F64.leb F64.zero (F64.pymax x F64.zero) = true /\
  F64.leb (F64.pymax x F64.zero) F64.one = true.
Proof.
  unfold le_one. rewrite one_eq.
  destruct x as [s|[|]| |[|] m e]; intros [N L]; try discriminate;
    repeat split; try reflexivity; exact L.
Qed.

Lemma skip_penalty_nonneg (k : Z) :
  0 <= k <= 3 ->
  nonneg (F64.div (F64.mul F64.tenth (F64.of_Z k)) (F64.of_Z 3)).
Proof.
  intros H.
  assert (C : k = 0 \/ k = 1 \/ k = 2 \/ k = 3) by lia.
  destruct C as [->|[->|[->| ->]]]; vm_compute; exact I.
Qed.

Lemma mean_bounded (d : list f64) :
  d <> [] -> Z.of_nat (length d) < 2 ^ 53 ->
  (forall x, In x d -> bounded_by 1 x) -> bounded_by 1 (mean d).
Proof.
  intros Hne Hlen Hd. unfold mean.
  assert (0 < Z.of_nat (length d)).
  { destruct d; [congruence | cbn [length]; lia]. }
  apply (div_bounded (Z.of_nat (length d))); try lia.
  - apply sum_bounded; assumption.
  - apply of_Z_exact. lia.
Qed.

Lemma pstd_nonneg (d : list f64) :
  d <> [] -> Z.of_nat (length d) < 2 ^ 53 ->
  (forall x, In x d -> bounded_by 1 x) -> nonneg (pstd d).
Proof.
  intros Hne Hlen Hd. unfold pstd. apply sqrt_nonneg. unfold mean at 1.
  rewrite length_map.
  assert (0 < Z.of_nat (length d)).
  { destruct d; [congruence | cbn [length]; lia]. }
  pose proof (of_Z_exact (Z.of_nat (length d)) ltac:(lia)) as E.
  destruct (F64.of_Z (Z.of_nat (length d))) as [| | |[|] mc ec];
    try contradiction.
  apply div_pos_nonneg. apply sum_nonneg. intros y Hy.
  apply in_map_iff in Hy. destruct Hy as [x [<- Hx]].
  apply mul_self_nonneg. apply sub_finite_not_nan.
  - apply (bounded_by_finite 1). apply Hd. exact Hx.
  - apply (bounded_by_finite 1). apply mean_bounded; assumption.
Qed.

(** The competition score of a window of scores between 0 and 1. *)
Lemma competition_score_bounds (history : list f64) :
  (forall x, In x (Scorer1.last4 history) ->
             F64.is_nan x = true \/
             (F64.valid x = true /\ F64.leb F64.zero x = true /\
              F64.leb x F64.one = true)) ->
  num_skips history <> 4 ->
  F64.is_nan (Scorer1.compute_competition_score history) = false /\
  F64.leb F64.zero (Scorer1.compute_competition_score history) = true /\
  F64.leb (Scorer1.compute_competition_score history) F64.one = true.
Proof.
  intros Hw Hk. rewrite competition_score_unfold.
  unfold competition_score_expr.
  destruct (Z.eqb_spec (num_skips history) 4) as [|_]; [contradiction|].
  set (w := Scorer1.last4 history) in *.
  assert (Hd : forall x, In x (defined w) -> bounded_by 1 x).
  { intros x Hx. unfold defined in Hx. apply filter_In in Hx.
    destruct Hx as [Hx Hn]. destruct (Hw x Hx) as [N|(V & L0 & L1)].
    - rewrite N in Hn. discriminate.
    - apply valid_unit_bounded; assumption. }
  pose proof (num_skips_defined history) as K. fold w in K.
  pose proof (last4_length history) as L4. fold w in L4.
  assert (Hlen : Z.of_nat (length (defined w)) <= 4).
  { unfold defined. pose proof (filter_length_le
      (fun x => negb (F64.is_nan x)) w). lia. }
  assert (Hne : defined w <> []).
  { intros E. rewrite E in K. cbn [length] in K. lia. }
  apply pymax_zero_unit. apply sub_le_one.
  - apply mean_bounded; try assumption. lia.
  - apply add_nonneg.
    + replace (F64.mul F64.tenth (F64.of_Z 2))
        with (S754_finite false 7205759403792794 (-55))
        by (vm_compute; reflexivity).
      apply mul_pos_nonneg. apply pstd_nonneg; try assumption. lia.
    + apply skip_penalty_nonneg. lia.
Qed.

Lemma count_defined_le_length (a : list f64) :
  count_defined a <= Z.of_nat (length a).
Proof. apply count_if_le_length. Qed.

Lemma challenge_score_cases (errors : list f64) (s : f64) :
  In s (Scorer1.compute_challenge_scores errors) ->
  exists x, In x errors /\
    s = F64.div
          (F64.sub (F64.of_Z (count_defined errors))
                   (if F64.is_finite x then avg_rank errors x else F64.nan))
          (F64.of_Z (count_defined errors - 1)).
Proof.
  unfold Scorer1.compute_challenge_scores.
  destruct (count_defined errors =? 0); [intros []|].
  rewrite ranks_of_spec, map_map. intros H. apply in_map_iff in H.
  destruct H as [x [<- Hx]]. exists x. split; [exact Hx | reflexivity].
Qed.

(** Every challenge score that is not NaN lies between 0 and 1. *)
Lemma challenge_score_bounds (errors : list f64) (s : f64) :
  Z.of_nat (length errors) < 2 ^ 52 ->
  In s (Scorer1.compute_challenge_scores errors) ->
  F64.is_nan s = false ->
  F64.leb F64.zero s = true /\ F64.leb s F64.one = true.
Proof.
  intros Hlen Hs Hn. destruct (challenge_score_cases errors s Hs) as (x & Hx & E).
  pose proof (count_defined_le_length errors) as Hc.
  pose proof (unmasked_le_defined errors) as Hu.
  set (n := count_defined errors) in *.
  destruct (F64.is_finite x) eqn:Hf.
  2:{ rewrite sub_nan_r, div_nan_l in E. subst s. discriminate. }
  pose proof (rank2_bounds errors x Hx Hf) as R.
  unfold avg_rank in E.
  destruct (Z.eq_dec n 1) as [N1|N1].
  - rewrite N1 in E. replace (rank2 errors x) with 2 in E by lia.
    vm_compute in E. subst s. discriminate.
  - assert (B : bounded_by 1 s).
    { subst s. apply (div_bounded (n - 1)); try lia.
      - apply (sub_rank_bounded n (rank2 errors x)); try lia.
        + apply of_Z_exact. lia.
        + apply of_scaled_half_exact. lia.
      - apply of_Z_exact. lia. }
    destruct (bounded_by_one_leb s B) as (_ & L0 & L1). split; assumption.
Qed.

(** With exactly one defined error the score formula divides 0 by 0: every
    score is NaN. *)
Lemma challenge_scores_single (errors : list f64) :
  count_defined errors = 1 ->
  F64.of_Z (count_defined errors - 1) = F64.zero /\
  Scorer1.compute_challenge_scores errors = map (fun _ => F64.nan) errors.
Proof.
  intros N. split; [rewrite N; reflexivity|].
  unfold Scorer1.compute_challenge_scores. rewrite N. cbn [Z.eqb].
  rewrite ranks_of_spec, map_map. apply map_ext_in. intros x Hx.
  destruct (F64.is_finite x) eqn:Hf.
  - pose proof (rank2_bounds errors x Hx Hf) as R.
    pose proof (unmasked_le_defined errors) as Hu.
    unfold avg_rank. replace (rank2 errors x) with 2 by lia.
    vm_compute. reflexivity.
  - rewrite sub_nan_r, div_nan_l. reflexivity.
Qed.

(** ** Competition rewards *)

Lemma all_nan_count_defined (a : list f64) :
  (forall x, In x a -> F64.is_nan x = true) -> count_defined a = 0.
Proof.
  intros H. apply count_if_zero. intros x Hx. rewrite (H x Hx). reflexivity.
Qed.

(** C10: when every competition score is NaN the rewards are a list of
    zeros as long as the input, whatever the pool: nothing is distributed
    and nothing is divided. *)
Theorem competition_rewards_all_missing
  (competition_scores : list f64) (competition_pool : decimal) :
  (forall x, In x competition_scores -> F64.is_nan x = true) ->
  Scorer1.compute_competition_rewards competition_scores competition_pool
  = Ok (repeat (dec (Int 0)) (length competition_scores)).
Proof.
  intros H. unfold Scorer1.compute_competition_rewards.
  rewrite (all_nan_count_defined _ H). reflexivity.
Qed.

Lemma competition_rewards_all_missing_witness :
  Scorer1.compute_competition_rewards [F64.nan; F64.nan] (dec (Int 1000))
  = Ok (repeat (dec (Int 0)) 2).
Proof.
  apply (competition_rewards_all_missing [F64.nan; F64.nan]).
  intros x [<-|[<-|[]]]; reflexivity.
Defined.

(** ** Division by zero *)

Lemma fix_fin_or_err (s : bool) (c e : Z) :
  (exists c' e', Dec._fix s c e = Ok (Dec.Fin s c' e')) \/
  Dec._fix s c e = Err Overflow.
Proof.
  unfold Dec._fix.
  repeat match goal with
         | |- context [if ?b then _ else _] => destruct b
         end; eauto.
Qed.

Lemma add_fin_inv (x y : decimal) (s : bool) (c e : Z) :
  Dec.add x y = Ok (Dec.Fin s c e) ->
  (exists s1 c1 e1, x = Dec.Fin s1 c1 e1) /\
  (exists s2 c2 e2, y = Dec.Fin s2 c2 e2).
Proof.
  destruct x as [s1 c1 e1|s1|], y as [s2 c2 e2|s2|]; cbn [Dec.add];
    intros H; try discriminate; eauto 10.
  destruct (Bool.eqb s1 s2); discriminate.
Qed.

Lemma sum_from_fin_inv (l : list decimal) (acc : decimal) (s : bool) (c e : Z) :
  Dec.sum_from acc l = Ok (Dec.Fin s c e) ->
  exists s1 c1 e1, acc = Dec.Fin s1 c1 e1.
Proof.
  revert acc. induction l as [|x l IH]; intros acc H; cbn [Dec.sum_from] in H.
  - inversion H. eauto.
  - destruct (Dec.add acc x) as [acc'|err] eqn:A; cbn [bind] in H;
      [|discriminate].
    destruct (IH acc' H) as (s1 & c1 & e1 & ->).
    apply add_fin_inv in A. tauto.
Qed.

(** A call with factors whose total is zero raises at the first factor. *)
Lemma distribute_zero_total
  (factor : decimal) (factors : list decimal)
  (ps : bool) (pc pe : Z) (ts : bool) (te : Z) :
  Dec.pysum (factor :: factors) = Ok (Dec.Fin ts 0 te) ->
  Scorer1.__distribute (factor :: factors) (Dec.Fin ps pc pe)
  = Err InvalidOperation \/
  Scorer1.__distribute (factor :: factors) (Dec.Fin ps pc pe)
  = Err DivisionByZero \/
  Scorer1.__distribute (factor :: factors) (Dec.Fin ps pc pe)
  = Err Overflow.
Proof.
  intros H. unfold Scorer1.__distribute. rewrite H. cbn [bind mapM].
  assert (F : exists s c e, factor = Dec.Fin s c e).
  { cbn [Dec.pysum] in H.
    destruct (Dec.add factor Dec.zero) as [acc|err] eqn:A; cbn [bind] in H;
      [|discriminate].
    destruct (sum_from_fin_inv _ _ _ _ _ H) as (s1 & c1 & e1 & ->).
    apply add_fin_inv in A. tauto. }
  destruct F as (s & c & e & ->). cbn [Dec.mul].
  destruct (fix_fin_or_err (xorb ps s) (pc * c) (pe + e))
    as [(c' & e' & ->)| ->]; cbn [bind]; [|tauto].
  cbn [Dec.div Z.eqb]. destruct (c' =? 0); cbn [bind]; tauto.
Qed.

(** C4: neither division by zero is guarded.  With exactly one defined
    error the denominator [n - 1] of the score formula is zero and every
    score is the NaN that binary64 gives for 0 / 0; a distribution of a
    finite pool over factors whose total is zero raises the exception of
    the decimal division at its first factor. *)
Theorem division_by_zero_unguarded :
  (forall errors,
     count_defined errors = 1 ->
     F64.of_Z (count_defined errors - 1) = F64.zero /\
     Scorer1.compute_challenge_scores errors = map (fun _ => F64.nan) errors) /\
  (forall factor factors ps pc pe ts te,
     Dec.pysum (factor :: factors) = Ok (Dec.Fin ts 0 te) ->
     Scorer1.__distribute (factor :: factors) (Dec.Fin ps pc pe)
     = Err InvalidOperation \/
     Scorer1.__distribute (factor :: factors) (Dec.Fin ps pc pe)
     = Err DivisionByZero \/
     Scorer1.__distribute (factor :: factors) (Dec.Fin ps pc pe)
     = Err Overflow).
Proof.
  split.
  - apply challenge_scores_single.
  - apply distribute_zero_total.
Qed.

Lemma division_by_zero_unguarded_witness :
  Scorer1.compute_challenge_scores [F64.of_Z 5; F64.nan] = [F64.nan; F64.nan] /\
  (Scorer1.__distribute [dec (Int 0); dec (Int 0)] (dec (Int 1000))
   = Err InvalidOperation \/
   Scorer1.__distribute [dec (Int 0); dec (Int 0)] (dec (Int 1000))
   = Err DivisionByZero \/
   Scorer1.__distribute [dec (Int 0); dec (Int 0)] (dec (Int 1000))
   = Err Overflow).
Proof.
  destruct division_by_zero_unguarded as [A B]. split.
  - apply (A [F64.of_Z 5; F64.nan]). reflexivity.
  - apply (B (dec (Int 0)) [dec (Int 0)] false 1000 0 false 0). reflexivity.
Defined.

(** C6, as the code has it: a challenge score that is not NaN lies between
    0 and 1 (for a list of fewer than [2^52] errors); on a history whose
    last four entries are each NaN or a binary64 number between 0 and 1
    the competition score is NaN when the window has four skips and lies
    between 0 and 1 otherwise. *)
Theorem score_bounds :
  (forall errors s,
     Z.of_nat (length errors) < 2 ^ 52 ->
     In s (Scorer1.compute_challenge_scores errors) ->
     F64.is_nan s = false ->
     F64.leb F64.zero s = true /\ F64.leb s F64.one = true) /\
  (forall history,
     (forall x, In x (Scorer1.last4 history) ->
                F64.is_nan x = true \/
                (F64.valid x = true /\ F64.leb F64.zero x = true /\
                 F64.leb x F64.one = true)) ->
     (num_skips history = 4 ->
      Scorer1.compute_competition_score history = F64.nan) /\
     (num_skips history <> 4 ->
      F64.is_nan (Scorer1.compute_competition_score history) = false /\
      F64.leb F64.zero (Scorer1.compute_competition_score history) = true /\
      F64.leb (Scorer1.compute_competition_score history) F64.one = true)).
Proof.
  split.
  - apply challenge_score_bounds.
  - intros history H. split.
    + intros K. rewrite competition_score_unfold.
      unfold competition_score_expr. rewrite K. reflexivity.
    + apply competition_score_bounds. exact H.
Qed.

Lemma score_bounds_witness :
  (F64.leb F64.zero (F64.div (F64.of_Z 1) (F64.of_Z 2)) = true /\
   F64.leb (F64.div (F64.of_Z 1) (F64.of_Z 2)) F64.one = true) /\
  F64.leb (Scorer1.compute_competition_score
             [F64.nan; F64.one; F64.div (F64.of_Z 1) (F64.of_Z 2)])
          F64.one = true.
Proof.
  destruct score_bounds as [A B]. split.
  - apply (A [F64.of_Z 1; F64.of_Z 2; F64.of_Z 3]).
    + vm_compute. reflexivity.
    + vm_compute. right. left. reflexivity.
    + reflexivity.
  - apply (B [F64.nan; F64.one; F64.div (F64.of_Z 1) (F64.of_Z 2)]).
    + intros x [<-|[<-|[<-|[]]]].
      * left. reflexivity.
      * right. vm_compute. repeat split; reflexivity.
      * right. vm_compute. repeat split; reflexivity.
    + vm_compute. discriminate.
Defined.

(** C6 as stated fails on an empty history: the competition score is NaN,
    which is not between 0 and 1. *)
Lemma competition_score_empty_history :
  Scorer1.compute_competition_score [] = F64.nan /\
  F64.leb F64.zero (Scorer1.compute_competition_score []) = false /\
  F64.leb (Scorer1.compute_competition_score []) F64.one = false.
Proof. repeat split; reflexivity. Qed.

(** ** Decimal digits *)

Lemma pow10_pos (k : Z) : 0 <= k -> 0 < 10 ^ k.
Proof. intros H. apply Z.pow_pos_nonneg; lia. Qed.

Lemma pow10_le (a b : Z) : 0 <= a <= b -> 10 ^ a <= 10 ^ b.
Proof. intros H. apply Z.pow_le_mono_r; lia. Qed.

Lemma pow10_lt (a b : Z) : 0 <= a < b -> 10 ^ a < 10 ^ b.
Proof. intros H. apply Z.pow_lt_mono_r; lia. Qed.

Lemma pow10_split (a b : Z) : 0 <= a <= b -> 10 ^ b = 10 ^ a * 10 ^ (b - a).
Proof.
  intros H. rewrite <- Z.pow_add_r by lia. f_equal. lia.
Qed.

Lemma ndigits_aux_spec (fuel : nat) (c : Z) :
  0 < c < 10 ^ (Z.of_nat fuel + 1) ->
  10 ^ (Dec.ndigits_aux fuel c - 1) <= c < 10 ^ Dec.ndigits_aux fuel c.
Proof.
  revert c. induction fuel as [|f IH]; intros c Hc.
  - cbn [Dec.ndigits_aux]. change (Z.of_nat 0 + 1) with 1 in Hc.
    change (10 ^ (1 - 1)) with 1. lia.
  - cbn [Dec.ndigits_aux]. destruct (Z.ltb_spec c 10) as [L|L].
    + change (10 ^ (1 - 1)) with 1. change (10 ^ 1) with 10. lia.
    + assert (H10 : 0 < c / 10 < 10 ^ (Z.of_nat f + 1)).
      { split.
        - apply Z.div_str_pos. lia.
        - apply Z.div_lt_upper_bound; [lia|].
          replace (Z.of_nat (S f) + 1) with (1 + (Z.of_nat f + 1)) in Hc by lia.
          rewrite Z.pow_add_r in Hc by lia. change (10 ^ 1) with 10 in Hc. lia. }
      specialize (IH (c / 10) H10). destruct IH as [Lo Hi].
      set (d := Dec.ndigits_aux f (c / 10)) in *.
      assert (Hd : 1 <= d).
      { destruct (Z_lt_le_dec d 1) as [X|X]; [|exact X].
        assert (10 ^ d <= 10 ^ 0).
        { destruct (Z_lt_le_dec d 0).
          - rewrite Z.pow_neg_r by lia. change (10 ^ 0) with 1. lia.
          - apply pow10_le. lia. }
        change (10 ^ 0) with 1 in H. lia. }
      replace (1 + d - 1) with (1 + (d - 1)) by lia.
      rewrite !Z.pow_add_r by lia. change (10 ^ 1) with 10.
      pose proof (Z.div_mod c 10 ltac:(lia)) as DM.
      pose proof (Z.mod_pos_bound c 10 ltac:(lia)) as MB.
      lia.
Qed.

Lemma ndigits_spec (c : Z) :
  0 < c -> 10 ^ (Dec.ndigits c - 1) <= c < 10 ^ Dec.ndigits c.
Proof.
  intros Hc. unfold Dec.ndigits. apply ndigits_aux_spec. split; [exact Hc|].
  rewrite Z2Nat.id by apply Z.log2_nonneg.
  pose proof (Z.log2_spec c Hc) as [_ H].
  assert (2 ^ Z.succ (Z.log2 c) <= 10 ^ (Z.log2 c + 1)).
  { rewrite <- Z.add_1_r. apply Z.pow_le_mono_l.
    pose proof (Z.log2_nonneg c). lia. }
  lia.
Qed.

Lemma ndigits_pos (c : Z) : 1 <= Dec.ndigits c.
Proof.
  destruct (Z_lt_le_dec 0 c) as [H|H].
  - pose proof (ndigits_spec c H) as [_ Hi].
    destruct (Z_lt_le_dec (Dec.ndigits c) 1) as [X|X]; [|exact X].
    assert (10 ^ Dec.ndigits c <= 1).
    { destruct (Z_lt_le_dec (Dec.ndigits c) 0).
      - rewrite Z.pow_neg_r by lia. lia.
      - change 1 with (10 ^ 0). apply pow10_le. lia. }
    lia.
  - unfold Dec.ndigits. destruct c as [|p|p]; try lia; reflexivity.
Qed.

Lemma ndigits_unique (c d : Z) :
  10 ^ (d - 1) <= c < 10 ^ d -> 1 <= d -> Dec.ndigits c = d.
Proof.
  intros [Lo Hi] Hd.
  assert (Hc : 0 < c) by (pose proof (pow10_pos (d - 1) ltac:(lia)); lia).
  pose proof (ndigits_spec c Hc) as [Lo' Hi'].
  pose proof (ndigits_pos c) as P.
  destruct (Z.lt_trichotomy (Dec.ndigits c) d) as [L|[E|G]]; [|exact E|].
  - pose proof (pow10_le (Dec.ndigits c) (d - 1) ltac:(lia)). lia.
  - pose proof (pow10_le d (Dec.ndigits c - 1) ltac:(lia)). lia.
Qed.

Lemma ndigits_le (c d : Z) : 0 <= c < 10 ^ d -> 1 <= d -> Dec.ndigits c <= d.
Proof.
  intros [Lo Hi] Hd. destruct (Z.eq_dec c 0) as [->|N]; [exact Hd|].
  pose proof (ndigits_spec c ltac:(lia)) as [Lo' _].
  pose proof (ndigits_pos c) as P.
  destruct (Z_le_gt_dec (Dec.ndigits c) d) as [L|G]; [exact L|].
  pose proof (pow10_le d (Dec.ndigits c - 1) ltac:(lia)). lia.
Qed.

Lemma ndigits_ge (c d : Z) : 10 ^ (d - 1) <= c -> 1 <= d -> d <= Dec.ndigits c.
Proof.
  intros Lo Hd.
  assert (Hc : 0 < c) by (pose proof (pow10_pos (d - 1) ltac:(lia)); lia).
  pose proof (ndigits_spec c Hc) as [_ Hi].
  pose proof (ndigits_pos c) as P.
  destruct (Z_le_gt_dec d (Dec.ndigits c)) as [L|G]; [exact L|].
  pose proof (pow10_le (Dec.ndigits c) (d - 1) ltac:(lia)). lia.
Qed.

(** ** Rounding to the context *)

Lemma fix_exact (s : bool) (c e : Z) :
  0 <= c < 10 ^ 28 -> -1000000 <= e <= 900000 ->
  Dec._fix s c e = Ok (Dec.Fin s c e).
Proof.
  intros Hc He. unfold Dec._fix, Dec.Etiny, Dec.Etop, Dec.Emin, Dec.Emax, Dec.prec.
  destruct (Z.eqb_spec c 0) as [->|N].
  - f_equal. f_equal. lia.
  - pose proof (ndigits_le c 28 Hc ltac:(lia)) as D.
    pose proof (ndigits_pos c) as P.
    destruct (Z.ltb_spec (999999 - 28 + 1) (Dec.ndigits c + e - 28)); [lia|].
    destruct (Z.ltb_spec e (Z.max (Dec.ndigits c + e - 28) (-999999 - 28 + 1)));
      [lia | reflexivity].
Qed.

Lemma round_up_half_even_bound (c k : Z) :
  0 <= c -> 0 <= k ->
  let q := c / 10 ^ k in
  let V := if Dec.round_up Dec.ROUND_HALF_EVEN c k
           then (q + 1) * 10 ^ k else q * 10 ^ k in
  q * 10 ^ k <= V /\ 2 * V <= 2 * c + 10 ^ k.
Proof.
  intros Hc Hk q V.
  pose proof (pow10_pos k Hk) as P.
  pose proof (Z.div_mod c (10 ^ k) ltac:(lia)) as DM.
  pose proof (Z.mod_pos_bound c (10 ^ k) P) as MB.
  fold q in DM. subst V. unfold Dec.round_up. fold q.
  destruct (Z.ltb_spec (10 ^ k) (2 * (c mod 10 ^ k))) as [A|A]; cbn [orb].
  - lia.
  - destruct (Z.eqb_spec (2 * (c mod 10 ^ k)) (10 ^ k)) as [B|B]; cbn [andb].
    + destruct (Z.odd q); lia.
    + lia.
Qed.

(** [_fix] of a positive coefficient: the result is the coefficient
    rounded to a multiple of [10^k], at most half such a unit above it,
    where [k] is the number of digits beyond the precision. *)
Lemma fix_round (s : bool) (c e : Z) :
  0 < c < 10 ^ 1000 -> -10000 <= e <= 10000 ->
  let k := Z.max 0 (Dec.ndigits c - 28) in
  exists c' e',
    Dec._fix s c e = Ok (Dec.Fin s c' e') /\
    e <= e' /\ 0 < c' < 10 ^ 28 /\
    (c / 10 ^ k) * 10 ^ k <= c' * 10 ^ (e' - e) /\
    2 * (c' * 10 ^ (e' - e)) <= 2 * c + 10 ^ k.
Proof.
  intros Hc He k.
  pose proof (ndigits_spec c ltac:(lia)) as [Lo Hi].
  pose proof (ndigits_pos c) as P.
  pose proof (ndigits_le c 1000 ltac:(lia) ltac:(lia)) as D.
  destruct (Z_le_gt_dec (Dec.ndigits c) 28) as [S|L].
  - assert (K : k = 0) by (unfold k; lia).
    assert (C28 : c < 10 ^ 28).
    { pose proof (pow10_le (Dec.ndigits c) 28 ltac:(lia)). lia. }
    exists c, e. rewrite fix_exact by lia.
    rewrite K, Z.sub_diag. change (10 ^ 0) with 1.
    rewrite Z.div_1_r. repeat split; lia.
  - assert (K : k = Dec.ndigits c - 28) by (unfold k; lia).
    assert (Kp : 0 < k) by lia.
    pose proof (pow10_pos k ltac:(lia)) as Pk.
    pose proof (round_up_half_even_bound c k ltac:(lia) ltac:(lia)) as RB.
    cbv zeta in RB.
    assert (Q : 10 ^ 27 <= c / 10 ^ k < 10 ^ 28).
    { split.
      - apply Z.div_le_lower_bound; [exact Pk|].
        rewrite <- Z.pow_add_r by lia.
        replace (k + 27) with (Dec.ndigits c - 1) by lia. exact Lo.
      - apply Z.div_lt_upper_bound; [exact Pk|].
        rewrite <- Z.pow_add_r by lia.
        replace (k + 28) with (Dec.ndigits c) by lia. exact Hi. }
    unfold Dec._fix, Dec.Etiny, Dec.Etop, Dec.Emin, Dec.Emax, Dec.prec.
    destruct (Z.eqb_spec c 0) as [Z0|_]; [lia|].
    destruct (Z.ltb_spec (999999 - 28 + 1) (Dec.ndigits c + e - 28)); [lia|].
    rewrite Z.max_l by lia.
    destruct (Z.ltb_spec e (Dec.ndigits c + e - 28)); [|lia].
    replace (Dec.ndigits c + e - 28 - e) with k by lia.
    set (q := c / 10 ^ k) in *.
    destruct (Dec.round_up Dec.ROUND_HALF_EVEN c k).
    + destruct (Z.ltb_spec 28 (Dec.ndigits (q + 1))) as [B|B].
      * assert (E : q + 1 = 10 ^ 28).
        { destruct (Z.eq_dec (q + 1) (10 ^ 28)) as [X|X]; [exact X|].
          pose proof (ndigits_le (q + 1) 28 ltac:(lia) ltac:(lia)). lia. }
        destruct (Z.ltb_spec (999999 - 28 + 1) (Dec.ndigits c + e - 28 + 1));
          [lia|].
        exists ((q + 1) / 10), (Dec.ndigits c + e - 28 + 1).
        split; [reflexivity|].
        rewrite E in *.
        replace (10 ^ 28 / 10) with (10 ^ 27) by reflexivity.
        replace (Dec.ndigits c + e - 28 + 1 - e) with (1 + k) by lia.
        rewrite Z.pow_add_r by lia.
        replace (10 ^ 27 * (10 ^ 1 * 10 ^ k)) with (10 ^ 28 * 10 ^ k)
          by (change (10 ^ 28) with (10 ^ 27 * 10 ^ 1); ring).
        repeat split; try lia; reflexivity.
      * exists (q + 1), (Dec.ndigits c + e - 28). split; [reflexivity|].
        replace (Dec.ndigits c + e - 28 - e) with k by lia.
        assert (q + 1 < 10 ^ 28).
        { destruct (Z.eq_dec (q + 1) (10 ^ 28)) as [X|X]; [|lia].
          rewrite X in B. vm_compute in B. exfalso. apply B. reflexivity. }
        repeat split; lia.
    + exists q, (Dec.ndigits c + e - 28). split; [reflexivity|].
      replace (Dec.ndigits c + e - 28 - e) with k by lia.
      repeat split; lia.
Qed.

Lemma to_ideal_spec (fuel : nat) (c e : Z) :
  exists j, 0 <= j <= Z.of_nat fuel /\
            c = fst (Dec.to_ideal fuel c e) * 10 ^ j /\
            snd (Dec.to_ideal fuel c e) = e + j.
Proof.
  revert c e. induction fuel as [|f IH]; intros c e.
  - exists 0. cbn. split; [lia|]. split; lia.
  - cbn [Dec.to_ideal]. destruct (Z.eqb_spec (c mod 10) 0) as [M|M].
    + destruct (IH (c / 10) (e + 1)) as [j [Hj [Hc He]]].
      exists (j + 1). split; [lia|]. split; [|lia].
      rewrite Z.pow_add_r by lia. change (10 ^ 1) with 10.
      pose proof (Z.div_mod c 10 ltac:(lia)) as DM. rewrite M in DM.
      rewrite Z.mul_assoc, <- Hc. lia.
    + exists 0. cbn [fst snd]. split; [lia|]. split; lia.
Qed.

Lemma strip_spec (fuel : nat) (c e : Z) :
  0 < c < 10 ^ Z.of_nat fuel -> e + Z.of_nat fuel < Dec.Emax ->
  let r := Dec.strip fuel c e in
  e <= snd r /\ c = fst r * 10 ^ (snd r - e) /\ fst r mod 10 <> 0.
Proof.
  revert c e. induction fuel as [|f IH]; intros c e Hc He.
  - change (10 ^ Z.of_nat 0) with 1 in Hc. lia.
  - cbn [Dec.strip]. destruct (Z.eqb_spec (c mod 10) 0) as [M|M]; cbn [andb].
    + destruct (Z.ltb_spec e Dec.Emax) as [L|L]; [|lia].
      pose proof (Z.div_mod c 10 ltac:(lia)) as DM. rewrite M in DM.
      assert (H10 : 0 < c / 10 < 10 ^ Z.of_nat f).
      { replace (Z.of_nat (S f)) with (1 + Z.of_nat f) in Hc by lia.
        rewrite Z.pow_add_r in Hc by lia. change (10 ^ 1) with 10 in Hc.
        lia. }
      specialize (IH (c / 10) (e + 1) H10 ltac:(lia)).
      cbv zeta in IH. destruct IH as [A [B C]].
      cbv zeta. split; [lia|]. split; [|exact C].
      replace (snd (Dec.strip f (c / 10) (e + 1)) - e)
        with (1 + (snd (Dec.strip f (c / 10) (e + 1)) - (e + 1))) by lia.
      rewrite Z.pow_add_r by lia. change (10 ^ 1) with 10.
      set (X := fst (Dec.strip f (c / 10) (e + 1)) *
                10 ^ (snd (Dec.strip f (c / 10) (e + 1)) - (e + 1))) in *.
      replace (fst (Dec.strip f (c / 10) (e + 1)) *
               (10 * 10 ^ (snd (Dec.strip f (c / 10) (e + 1)) - (e + 1))))
        with (10 * X) by (unfold X; ring).
      lia.
    + cbv zeta. cbn [fst snd]. rewrite Z.sub_diag. change (10 ^ 0) with 1.
      split; [lia|]. split; [lia|exact M].
Qed.

Lemma pow10_exp_small (c e : Z) :
  0 < c -> 0 <= e -> c * 10 ^ e < 10 ^ 28 -> e < 28.
Proof.
  intros Hc He H. destruct (Z_lt_le_dec e 28) as [L|L]; [exact L|].
  pose proof (pow10_le 28 e ltac:(lia)).
  pose proof (pow10_pos 28 ltac:(lia)). nia.
Qed.

Lemma ndigits_scaled (c e : Z) :
  0 < c -> 0 <= e -> c * 10 ^ e < 10 ^ 28 -> Dec.ndigits c + e <= 28.
Proof.
  intros Hc He H.
  pose proof (ndigits_spec c Hc) as [Lo _].
  pose proof (ndigits_pos c) as P.
  destruct (Z_le_gt_dec (Dec.ndigits c + e) 28) as [L|G]; [exact L|].
  pose proof (pow10_le 28 (Dec.ndigits c - 1 + e) ltac:(lia)) as X.
  rewrite Z.pow_add_r in X by lia.
  pose proof (pow10_pos e He).
  assert (10 ^ (Dec.ndigits c - 1) * 10 ^ e <= c * 10 ^ e) by nia.
  lia.
Qed.

Lemma scale_mono (c a b : Z) :
  0 <= c -> 0 <= a <= b -> c * 10 ^ a <= c * 10 ^ b.
Proof.
  intros Hc H. pose proof (pow10_le a b H). nia.
Qed.

Lemma scale_split (c e m s : Z) :
  - s <= m <= e -> c * 10 ^ (e - m) * 10 ^ (m + s) = c * 10 ^ (e + s).
Proof.
  intros H. rewrite <- Z.mul_assoc, <- Z.pow_add_r by lia.
  f_equal. f_equal. lia.
Qed.

(** Adding two amounts whose sum fits the precision is exact; the
    result has the smaller exponent. *)
Lemma add_exact (s c1 e1 c2 e2 : Z) :
  0 <= s <= 1000 ->
  0 <= c1 -> - s <= e1 <= 100 ->
  0 <= c2 -> - s <= e2 <= 100 ->
  c1 * 10 ^ (e1 + s) + c2 * 10 ^ (e2 + s) < 10 ^ 28 ->
  exists c,
    Dec.add (Dec.Fin false c1 e1) (Dec.Fin false c2 e2)
    = Ok (Dec.Fin false c (Z.min e1 e2)) /\
    0 <= c /\
    c * 10 ^ (Z.min e1 e2 + s) = c1 * 10 ^ (e1 + s) + c2 * 10 ^ (e2 + s).
Proof.
  intros Hs H1 He1 H2 He2 B.
  set (m := Z.min e1 e2).
  assert (Hm : - s <= m /\ m <= e1 /\ m <= e2) by (unfold m; lia).
  pose proof (pow10_pos (e1 + s) ltac:(lia)) as P1.
  pose proof (pow10_pos (e2 + s) ltac:(lia)) as P2.
  pose proof (pow10_pos (e1 - m) ltac:(lia)) as Q1.
  pose proof (pow10_pos (e2 - m) ltac:(lia)) as Q2.
  pose proof (scale_split c1 e1 m s ltac:(lia)) as S1.
  pose proof (scale_split c2 e2 m s ltac:(lia)) as S2.
  assert (U1 : c1 * 10 ^ (e1 - m) <= c1 * 10 ^ (e1 + s))
    by (apply scale_mono; lia).
  assert (U2 : c2 * 10 ^ (e2 - m) <= c2 * 10 ^ (e2 + s))
    by (apply scale_mono; lia).
  assert (V1 : 0 <= c1 * 10 ^ (e1 - m)) by (apply Z.mul_nonneg_nonneg; lia).
  assert (V2 : 0 <= c2 * 10 ^ (e2 - m)) by (apply Z.mul_nonneg_nonneg; lia).
  assert (N1 : 0 <= c1 * 10 ^ (e1 + s)) by (apply Z.mul_nonneg_nonneg; lia).
  assert (N2 : 0 <= c2 * 10 ^ (e2 + s)) by (apply Z.mul_nonneg_nonneg; lia).
  unfold Dec.add. fold m. cbn [andb xorb].
  destruct (Z.eqb_spec c1 0) as [Z1|Z1]; destruct (Z.eqb_spec c2 0) as [Z2|Z2];
    cbn [andb].
  - exists 0. subst c1 c2. rewrite fix_exact by (first [lia | split; [lia | reflexivity]]).
    split; [reflexivity|]. split; [lia|]. rewrite !Z.mul_0_l. reflexivity.
  - assert (E2 : e2 + s < 28) by (apply (pow10_exp_small c2); lia).
    subst c1. rewrite Z.max_l by (unfold Dec.prec; lia).
    unfold Dec._rescale.
    destruct (Z.eqb_spec c2 0) as [X|_]; [lia|].
    destruct (Z.leb_spec m e2) as [_|X]; [|lia].
    cbn [Dec.fix_t]. rewrite fix_exact by lia.
    exists (c2 * 10 ^ (e2 - m)). split; [reflexivity|]. split; [lia|].
    rewrite S2, Z.mul_0_l. reflexivity.
  - assert (E1 : e1 + s < 28) by (apply (pow10_exp_small c1); lia).
    subst c2. rewrite Z.max_l by (unfold Dec.prec; lia).
    unfold Dec._rescale.
    destruct (Z.eqb_spec c1 0) as [X|_]; [lia|].
    destruct (Z.leb_spec m e1) as [_|X]; [|lia].
    cbn [Dec.fix_t]. rewrite fix_exact by lia.
    exists (c1 * 10 ^ (e1 - m)). split; [reflexivity|]. split; [lia|].
    rewrite S1, Z.mul_0_l, Z.add_0_r. reflexivity.
  - pose proof (ndigits_scaled c1 (e1 + s) ltac:(lia) ltac:(lia) ltac:(lia))
      as D1.
    pose proof (ndigits_scaled c2 (e2 + s) ltac:(lia) ltac:(lia) ltac:(lia))
      as D2.
    pose proof (ndigits_pos c1) as G1. pose proof (ndigits_pos c2) as G2.
    assert (N : Dec._normalize c1 e1 c2 e2
                = (c1 * 10 ^ (e1 - m), c2 * 10 ^ (e2 - m), m)).
    { unfold Dec._normalize, Dec.prec.
      destruct (Z.ltb_spec e1 e2) as [L|L].
      - destruct (Z.ltb_spec (Dec.ndigits c1 + e1 - 1)
                    (e2 + Z.min (-1) (Dec.ndigits c2 - 28 - 2))); [lia|].
        replace m with e1 by (unfold m; lia).
        rewrite Z.sub_diag. change (10 ^ 0) with 1. f_equal. f_equal. lia.
      - destruct (Z.ltb_spec (Dec.ndigits c2 + e2 - 1)
                    (e1 + Z.min (-1) (Dec.ndigits c1 - 28 - 2))); [lia|].
        replace m with e2 by (unfold m; lia).
        rewrite Z.sub_diag. change (10 ^ 0) with 1. f_equal. f_equal. lia. }
    rewrite N. rewrite fix_exact by lia.
    exists (c1 * 10 ^ (e1 - m) + c2 * 10 ^ (e2 - m)).
    split; [reflexivity|]. split; [lia|].
    rewrite Z.mul_add_distr_r, S1, S2. reflexivity.
Qed.

Lemma units_amount_nonneg (s : Z) (d : decimal) :
  0 <= s -> amount s d -> 0 <= units s d.
Proof.
  intros Hs H. destruct d as [[|] c e| |]; cbn in H; try contradiction.
  cbn [units]. apply Z.mul_nonneg_nonneg; [lia|].
  apply Z.lt_le_incl, pow10_pos. lia.
Qed.

Lemma total_units_nonneg (s : Z) (l : list decimal) :
  0 <= s -> Forall (amount s) l -> 0 <= total_units s l.
Proof.
  intros Hs H. induction H as [|d l Hd Hl IH]; cbn [total_units fold_right].
  - lia.
  - pose proof (units_amount_nonneg s d Hs Hd). fold (total_units s l). lia.
Qed.

Lemma amount_weaken (s s' : Z) (d : decimal) :
  s <= s' -> amount s d -> amount s' d.
Proof.
  intros H A. destruct d as [[|] c e| |]; cbn in *; try contradiction. lia.
Qed.

(** The running total of Python's [sum] stays exact while it fits the
    precision; its exponent is the least one met. *)
Lemma sum_from_exact (s : Z) (l : list decimal) :
  0 <= s <= 1000 ->
  forall A eA,
    0 <= A -> - s <= eA <= 100 ->
    Forall (amount s) l ->
    A * 10 ^ (eA + s) + total_units s l < 10 ^ 28 ->
    exists T eT,
      Dec.sum_from (Dec.Fin false A eA) l = Ok (Dec.Fin false T eT) /\
      0 <= T /\ - s <= eT <= eA /\
      Forall (amount (- eT)) l /\
      T * 10 ^ (eT + s) = A * 10 ^ (eA + s) + total_units s l.
Proof.
  intros Hs. induction l as [|d l IH]; intros A eA HA HeA Hl B.
  - exists A, eA. cbn [Dec.sum_from total_units fold_right].
    split; [reflexivity|]. split; [exact HA|]. split; [lia|].
    split; [constructor | lia].
  - inversion Hl as [|d' l' Hd Hl']; subst d' l'.
    cbn [total_units fold_right] in B. fold (total_units s l) in B.
    pose proof (total_units_nonneg s l ltac:(lia) Hl') as TN.
    destruct d as [[|] c e| |]; cbn in Hd; try contradiction.
    destruct Hd as [Hc He]. cbn [units] in B.
    destruct (add_exact s A eA c e Hs HA HeA Hc He ltac:(lia))
      as [A' [EA [HA' VA]]].
    destruct (IH A' (Z.min eA e) HA' ltac:(lia) Hl' ltac:(lia))
      as [T [eT [ES [HT [HeT [FA VT]]]]]].
    exists T, eT. cbn [Dec.sum_from]. rewrite EA. cbn [bind].
    split; [exact ES|]. split; [exact HT|]. split; [lia|].
    split.
    + constructor; [cbn; lia | exact FA].
    + cbn [total_units fold_right units]. fold (total_units s l). lia.
Qed.

Lemma pysum_exact (s : Z) (l : list decimal) :
  0 <= s <= 1000 ->
  Forall (amount s) l ->
  0 < total_units s l < 10 ^ 28 ->
  exists T eT,
    Dec.pysum l = Ok (Dec.Fin false T eT) /\
    0 < T < 10 ^ 28 /\ - s <= eT <= 0 /\
    Forall (amount (- eT)) l /\
    T * 10 ^ (eT + s) = total_units s l.
Proof.
  intros Hs Hl B. destruct l as [|d l].
  - cbn [total_units fold_right] in B. lia.
  - inversion Hl as [|d' l' Hd Hl']; subst d' l'.
    cbn [total_units fold_right] in B. fold (total_units s l) in B.
    pose proof (total_units_nonneg s l ltac:(lia) Hl') as TN.
    destruct d as [[|] c e| |]; cbn in Hd; try contradiction.
    destruct Hd as [Hc He]. cbn [units] in B.
    assert (Z0 : 0 * 10 ^ (0 + s) = 0) by apply Z.mul_0_l.
    destruct (add_exact s c e 0 0 Hs Hc He ltac:(lia) ltac:(lia)
                ltac:(rewrite Z0; lia))
      as [A' [EA [HA' VA]]].
    rewrite Z0, Z.add_0_r in VA.
    destruct (sum_from_exact s l Hs A' (Z.min e 0) HA' ltac:(lia) Hl'
                ltac:(lia))
      as [T [eT [ES [HT [HeT [FA VT]]]]]].
    exists T, eT. unfold Dec.pysum.
    change Dec.zero with (Dec.Fin false 0 0). rewrite EA. cbn [bind].
    split; [exact ES|].
    assert (VT' : T * 10 ^ (eT + s) = c * 10 ^ (e + s) + total_units s l)
      by lia.
    pose proof (pow10_pos (eT + s) ltac:(lia)) as P.
    assert (PT : 1 <= 10 ^ (eT + s)) by lia.
    split.
    { split.
      - destruct (Z.eq_dec T 0) as [->|N]; [|lia]. rewrite Z.mul_0_l in VT'. lia.
      - assert (T * 1 <= T * 10 ^ (eT + s))
          by (apply Z.mul_le_mono_nonneg_l; lia).
        lia. }
    split; [lia|]. split.
    + constructor; [cbn; lia | exact FA].
    + cbn [total_units fold_right units]. fold (total_units s l). exact VT'.
Qed.

(** ** The quotient, rounded to the precision, stays inside its
    [10^-10] cell *)

Lemma cell_window (R g c0 j k0 V0 : Z) :
  0 <= R -> 0 <= j -> 0 <= k0 -> k0 + j <= 2 -> 2 <= g ->
  R * 10 ^ g <= c0 * 10 ^ j ->
  c0 * 10 ^ j + 100 <= (R + 1) * 10 ^ g ->
  (c0 / 10 ^ k0) * 10 ^ k0 <= V0 ->
  2 * V0 <= 2 * c0 + 10 ^ k0 ->
  R * 10 ^ g <= V0 * 10 ^ j < (R + 1) * 10 ^ g.
Proof.
  intros HR Hj Hk Hkj Hg Lo Hi VL VU.
  pose proof (pow10_pos k0 Hk) as Pk.
  pose proof (pow10_pos j Hj) as Pj.
  pose proof (pow10_pos (g - k0 - j) ltac:(lia)) as Pm.
  assert (G : 10 ^ g = 10 ^ (g - k0 - j) * 10 ^ k0 * 10 ^ j).
  { rewrite <- !Z.pow_add_r by lia. f_equal. lia. }
  assert (KJ : 10 ^ k0 * 10 ^ j <= 100).
  { rewrite <- Z.pow_add_r by lia. change 100 with (10 ^ 2).
    apply pow10_le. lia. }
  set (p := 10 ^ k0) in *. set (pj := 10 ^ j) in *.
  set (m := 10 ^ (g - k0 - j)) in *. set (G' := 10 ^ g) in *.
  split.
  - assert (A : R * m * p <= c0).
    { apply (Z.mul_le_mono_pos_r _ _ pj Pj).
      replace (R * m * p * pj) with (R * G') by (rewrite G; ring). exact Lo. }
    assert (B : R * m <= c0 / p).
    { apply Z.div_le_lower_bound; [exact Pk|]. lia. }
    assert (C : R * m * p <= V0).
    { apply Z.le_trans with (c0 / p * p); [|exact VL].
      apply Z.mul_le_mono_nonneg_r; lia. }
    replace (R * G') with (R * m * p * pj) by (rewrite G; ring).
    apply Z.mul_le_mono_nonneg_r; lia.
  - assert (A : 2 * V0 * pj <= (2 * c0 + p) * pj).
    { apply Z.mul_le_mono_nonneg_r; lia. }
    replace ((2 * c0 + p) * pj) with (2 * (c0 * pj) + p * pj) in A by ring.
    lia.
Qed.

Lemma cell_split (R c' e' exp : Z) :
  exp <= e' -> exp <= -10 ->
  R * 10 ^ (- 10 - exp) <= c' * 10 ^ (e' - exp) < (R + 1) * 10 ^ (- 10 - exp) ->
  (e' < -10 /\ R * 10 ^ (- 10 - e') <= c' < (R + 1) * 10 ^ (- 10 - e')) \/
  (-10 <= e' /\ c' * 10 ^ (e' + 10) = R).
Proof.
  intros He Hx [Lo Hi].
  destruct (Z_lt_le_dec e' (-10)) as [L|L]; [left|right]; (split; [lia|]).
  - pose proof (pow10_pos (e' - exp) ltac:(lia)) as PB.
    assert (G : 10 ^ (- 10 - exp) = 10 ^ (- 10 - e') * 10 ^ (e' - exp)).
    { rewrite <- Z.pow_add_r by lia. f_equal. lia. }
    rewrite G, !Z.mul_assoc in Lo, Hi.
    split.
    + apply (Z.mul_le_mono_pos_r _ _ _ PB). exact Lo.
    + apply (Z.mul_lt_mono_pos_r _ _ _ PB). exact Hi.
  - pose proof (pow10_pos (- 10 - exp) ltac:(lia)) as PG.
    assert (E : 10 ^ (e' - exp) = 10 ^ (e' + 10) * 10 ^ (- 10 - exp)).
    { rewrite <- Z.pow_add_r by lia. f_equal. lia. }
    rewrite E, !Z.mul_assoc in Lo, Hi.
    apply (Z.mul_le_mono_pos_r _ _ _ PG) in Lo.
    apply (Z.mul_lt_mono_pos_r _ _ _ PG) in Hi. lia.
Qed.

Lemma quotient_cell (N T R g coeff : Z) :
  0 < T -> 0 <= N -> 0 <= g -> 100 * (T + 1) <= 10 ^ g ->
  R = N / T -> coeff = (N * 10 ^ g) / T ->
  R * 10 ^ g <= coeff /\ coeff + 101 <= (R + 1) * 10 ^ g.
Proof.
  intros HT HN Hg HG -> ->.
  pose proof (pow10_pos g Hg) as Pg.
  pose proof (Z.div_mod N T ltac:(lia)) as DM.
  pose proof (Z.mod_pos_bound N T HT) as MB.
  set (R := N / T) in *. set (G := 10 ^ g) in *.
  split.
  - apply Z.div_le_lower_bound; [exact HT|].
    replace (T * (R * G)) with (T * R * G) by ring.
    apply Z.mul_le_mono_nonneg_r; lia.
  - pose proof (Z.mul_div_le (N * G) T HT) as U.
    assert (V : N * G <= (T * R + T - 1) * G).
    { apply Z.mul_le_mono_nonneg_r; lia. }
    assert (W : T * (N * G / T) < T * ((R + 1) * G - 100)).
    { replace (T * ((R + 1) * G - 100))
        with ((T * R + T - 1) * G + G - 100 * T) by ring.
      lia. }
    apply Z.mul_lt_mono_pos_l in W; [|exact HT]. lia.
Qed.

Lemma ndigits_scaled_le (c e n : Z) :
  0 < c -> 0 <= e -> 0 <= n -> c * 10 ^ e < 10 ^ n -> Dec.ndigits c + e <= n.
Proof.
  intros Hc He Hn H.
  pose proof (ndigits_spec c Hc) as [Lo _].
  pose proof (ndigits_pos c) as P.
  destruct (Z_le_gt_dec (Dec.ndigits c + e) n) as [L|G]; [exact L|].
  pose proof (pow10_le n (Dec.ndigits c - 1 + e) ltac:(lia)) as X.
  rewrite Z.pow_add_r in X by lia.
  pose proof (pow10_pos e He).
  assert (10 ^ (Dec.ndigits c - 1) * 10 ^ e <= c * 10 ^ e)
    by (apply Z.mul_le_mono_nonneg_r; lia).
  lia.
Qed.

(** The quotient of two positive decimals, rounded to 28 digits, lies in
    the same cell of the [10^-10] grid as the exact quotient, as long as
    the dividend scaled to that grid stays below [10^27]. *)
Lemma div_window (a ea T eT : Z) :
  0 < a -> 0 < T < 10 ^ 28 ->
  -1000 <= ea <= 1000 -> -1000 <= eT <= 1000 ->
  0 <= ea - eT + 10 ->
  a * 10 ^ (ea - eT + 10) < 10 ^ 27 ->
  let R := (a * 10 ^ (ea - eT + 10)) / T in
  exists c' e',
    Dec.div (Dec.Fin false a ea) (Dec.Fin false T eT)
    = Ok (Dec.Fin false c' e') /\
    0 < c' < 10 ^ 28 /\
    ((e' < -10 /\ R * 10 ^ (- 10 - e') <= c' < (R + 1) * 10 ^ (- 10 - e')) \/
     (-10 <= e' /\ c' * 10 ^ (e' + 10) = R)).
Proof.
  intros Ha HT Hea HeT Hd HB R.
  set (d := ea - eT + 10) in *.
  pose proof (ndigits_spec a Ha) as [La Ua].
  pose proof (ndigits_spec T ltac:(lia)) as [Lt Ut].
  pose proof (ndigits_pos a) as Pa. pose proof (ndigits_pos T) as Pt.
  pose proof (ndigits_scaled_le a d 27 Ha Hd ltac:(lia) HB) as Dad.
  pose proof (ndigits_le T 28 ltac:(lia) ltac:(lia)) as Dt.
  set (na := Dec.ndigits a) in *. set (nt := Dec.ndigits T) in *.
  set (shift := nt - na + 28 + 1).
  set (g := shift - d).
  assert (Hg : nt + 2 <= g) by (unfold g, shift; lia).
  assert (Hshift : 0 <= shift) by (unfold g in Hg; lia).
  pose proof (pow10_pos g ltac:(lia)) as Pg.
  pose proof (pow10_pos d Hd) as Pd.
  assert (HG : 100 * (T + 1) <= 10 ^ g).
  { pose proof (pow10_le (nt + 2) g ltac:(lia)) as X.
    rewrite Z.pow_add_r in X by lia. change (10 ^ 2) with 100 in X. lia. }
  assert (SN : a * 10 ^ shift = a * 10 ^ d * 10 ^ g).
  { rewrite <- Z.mul_assoc, <- Z.pow_add_r by lia. f_equal. f_equal.
    unfold g. lia. }
  set (N := a * 10 ^ d) in *.
  assert (HN : 0 <= N) by (unfold N; apply Z.mul_nonneg_nonneg; lia).
  assert (HR : 0 <= R) by (unfold R; apply Z.div_pos; lia).
  set (coeff := a * 10 ^ shift / T).
  destruct (quotient_cell N T R g coeff ltac:(lia) HN ltac:(lia) HG eq_refl
              ltac:(unfold coeff; rewrite SN; reflexivity)) as [QL QU].
  assert (C28 : 10 ^ 28 <= coeff).
  { unfold coeff. apply Z.div_le_lower_bound; [lia|].
    apply Z.le_trans with (10 ^ nt * 10 ^ 28).
    - apply Z.mul_le_mono_nonneg_r; [|lia].
      apply Z.lt_le_incl, pow10_pos. lia.
    - apply Z.le_trans with (10 ^ (na - 1) * 10 ^ shift).
      + rewrite <- !Z.pow_add_r by lia. apply pow10_le. unfold shift. lia.
      + apply Z.mul_le_mono_nonneg_r; [|lia].
        apply Z.lt_le_incl, pow10_pos. lia. }
  assert (C30 : coeff < 10 ^ 30).
  { unfold coeff. apply Z.div_lt_upper_bound; [lia|].
    apply Z.lt_le_trans with (10 ^ na * 10 ^ shift).
    - apply Z.mul_lt_mono_pos_r; [apply pow10_pos; lia | lia].
    - apply Z.le_trans with (10 ^ (nt - 1) * 10 ^ 30).
      + rewrite <- !Z.pow_add_r by lia. apply pow10_le. unfold shift. lia.
      + apply Z.mul_le_mono_nonneg_r; [|lia].
        apply Z.lt_le_incl, pow10_pos. lia. }
  set (exp := ea - eT - shift).
  assert (Hexp : - 10 - exp = g) by (unfold exp, g, d; lia).
  assert (W : forall c0 j c' e',
             0 < c0 -> c0 * 10 ^ j < 10 ^ 30 -> 0 <= j ->
             R * 10 ^ g <= c0 * 10 ^ j -> c0 * 10 ^ j + 100 <= (R + 1) * 10 ^ g ->
             exp + j <= e' ->
             (c0 / 10 ^ Z.max 0 (Dec.ndigits c0 - 28)) *
               10 ^ Z.max 0 (Dec.ndigits c0 - 28) <= c' * 10 ^ (e' - (exp + j)) ->
             2 * (c' * 10 ^ (e' - (exp + j)))
               <= 2 * c0 + 10 ^ Z.max 0 (Dec.ndigits c0 - 28) ->
             (e' < -10 /\
              R * 10 ^ (- 10 - e') <= c' < (R + 1) * 10 ^ (- 10 - e')) \/
             (-10 <= e' /\ c' * 10 ^ (e' + 10) = R)).
  { intros c0 j c' e' Hc0 Hc30 Hj Lo Hi He' VL VU.
    apply (cell_split R c' e' exp); [lia | lia |].
    rewrite Hexp.
    replace (c' * 10 ^ (e' - exp))
      with (c' * 10 ^ (e' - (exp + j)) * 10 ^ j).
    2:{ rewrite <- Z.mul_assoc, <- Z.pow_add_r by lia. f_equal. f_equal. lia. }
    set (V0 := c' * 10 ^ (e' - (exp + j))) in *.
    pose proof (ndigits_pos c0) as P0.
    pose proof (pow10_pos j Hj) as Pj.
    destruct (Z_le_gt_dec (Dec.ndigits c0) 28) as [S|L].
    - rewrite Z.max_l in VL, VU by lia. change (10 ^ 0) with 1 in VL, VU.
      rewrite Z.div_1_r in VL.
      assert (E : V0 = c0) by lia. rewrite E. lia.
    - rewrite Z.max_r in VL, VU by lia.
      assert (KJ : Dec.ndigits c0 - 28 + j <= 2).
      { pose proof (ndigits_spec c0 ltac:(lia)) as [L0 _].
        destruct (Z_le_gt_dec (Dec.ndigits c0 - 28 + j) 2) as [X|X];
          [exact X|].
        pose proof (pow10_le 30 (Dec.ndigits c0 - 1 + j) ltac:(lia)) as Y.
        rewrite Z.pow_add_r in Y by lia.
        assert (10 ^ (Dec.ndigits c0 - 1) * 10 ^ j <= c0 * 10 ^ j)
          by (apply Z.mul_le_mono_nonneg_r; lia).
        lia. }
      apply (cell_window R g c0 j (Dec.ndigits c0 - 28) V0); try lia. }
  unfold Dec.div. cbn [xorb].
  destruct (Z.eqb_spec T 0) as [X|_]; [lia|].
  destruct (Z.eqb_spec a 0) as [X|_]; [lia|].
  fold na nt. unfold Dec.prec. fold shift. fold exp.
  destruct (Z.leb_spec 0 shift) as [_|X]; [|lia].
  fold coeff.
  destruct (Z.eqb_spec (a * 10 ^ shift mod T) 0) as [Rz|Rn]; cbn [negb].
  - pose proof (to_ideal_spec (Z.to_nat (ea - eT - exp)) coeff exp)
      as [j [Hj [Hc He]]].
    destruct (Dec.to_ideal (Z.to_nat (ea - eT - exp)) coeff exp) as [c0 e0].
    cbn [fst snd] in Hc, He.
    pose proof (pow10_pos j ltac:(lia)) as Pj.
    assert (C0 : 0 < c0 < 10 ^ 30).
    { split.
      - destruct (Z_lt_le_dec 0 c0) as [Y|Y]; [exact Y|].
        assert (c0 * 10 ^ j <= 0) by (apply Z.mul_nonpos_nonneg; lia). lia.
      - assert (c0 * 1 <= c0 * 10 ^ j); [|lia].
        destruct (Z_lt_le_dec 0 c0) as [Y|Y].
        + apply Z.mul_le_mono_nonneg_l; lia.
        + assert (c0 * 10 ^ j <= 0) by (apply Z.mul_nonpos_nonneg; lia). lia. }
    destruct (fix_round false c0 e0) as [c' [e' [EF [He' [Hc' [VL VU]]]]]].
    { split; [lia|]. apply Z.lt_trans with (10 ^ 30); [lia | reflexivity]. }
    { assert (0 <= shift <= 100) by (unfold shift; lia).
      unfold exp in He. lia. }
    exists c', e'. split; [exact EF|]. split; [exact Hc'|].
    subst e0. apply (W c0 j c' e'); try lia; assumption.
  - set (c0 := if coeff mod 5 =? 0 then coeff + 1 else coeff).
    assert (C0 : coeff <= c0 <= coeff + 1 /\ c0 < 10 ^ 30).
    { unfold c0. destruct (Z.eqb_spec (coeff mod 5) 0) as [M|M].
      - split; [lia|].
        pose proof (Z.div_mod coeff 5 ltac:(lia)) as DM. rewrite M in DM.
        clear - DM C30. lia.
      - lia. }
    destruct (fix_round false c0 exp) as [c' [e' [EF [He' [Hc' [VL VU]]]]]].
    { split; [lia|]. apply Z.lt_trans with (10 ^ 30); [lia | reflexivity]. }
    { assert (0 <= shift <= 100) by (unfold shift; lia). unfold exp. lia. }
    exists c', e'. split; [exact EF|]. split; [exact Hc'|].
    apply (W c0 0 c' e'); rewrite ?Z.add_0_r; change (10 ^ 0) with 1;
      rewrite ?Z.mul_1_r; try lia; assumption.
Qed.

Lemma quantize_cell (c' e' R : Z) :
  0 < c' < 10 ^ 28 -> 0 <= R < 10 ^ 27 ->
  (e' < -10 /\ R * 10 ^ (- 10 - e') <= c' < (R + 1) * 10 ^ (- 10 - e')) \/
  (-10 <= e' /\ c' * 10 ^ (e' + 10) = R) ->
  Dec.quantize (Dec.Fin false c' e') Scorer1.REWARD_PRECISION Dec.ROUND_DOWN
  = Ok (Dec.Fin false R (-10)).
Proof.
  intros Hc HR W.
  pose proof (ndigits_le c' 28 ltac:(lia) ltac:(lia)) as D28.
  pose proof (ndigits_pos c') as P.
  pose proof (ndigits_le R 27 HR ltac:(lia)) as DR.
  pose proof (ndigits_pos R) as PR.
  assert (A : Dec.ndigits c' + e' + 10 <= 27).
  { destruct W as [[L _]|[L E]]; [lia|].
    pose proof (ndigits_scaled_le c' (e' + 10) 27 ltac:(lia) ltac:(lia)
                  ltac:(lia) ltac:(lia)).
    lia. }
  assert (RS : Dec._rescale Dec.ROUND_DOWN false c' e' (-10)
               = Dec.Fin false R (-10)).
  { unfold Dec._rescale. destruct (Z.eqb_spec c' 0) as [X|_]; [lia|].
    destruct W as [[L [Lo Hi]]|[L E]].
    - destruct (Z.leb_spec (-10) e') as [X|_]; [lia|].
      cbn [Dec.round_up]. f_equal.
      pose proof (pow10_pos (- 10 - e') ltac:(lia)) as Pk.
      symmetry. apply (Z.div_unique_pos c' (10 ^ (- 10 - e')) R
                         (c' - R * 10 ^ (- 10 - e'))); lia.
    - destruct (Z.leb_spec (-10) e') as [_|X]; [|lia].
      f_equal. replace (e' - -10) with (e' + 10) by lia. exact E. }
  unfold Dec.quantize, Scorer1.REWARD_PRECISION.
  replace (negb ((Dec.Etiny <=? -10) && (-10 <=? Dec.Emax))) with false
    by reflexivity.
  destruct (Z.eqb_spec c' 0) as [X|_]; [lia|].
  unfold Dec.adjusted, Dec.Emax, Dec.prec.
  destruct (Z.ltb_spec 999999 (e' + Dec.ndigits c' - 1)) as [X|_]; [lia|].
  destruct (Z.ltb_spec 28 (e' + Dec.ndigits c' - 1 - -10 + 1)) as [X|_];
    [lia|].
  rewrite RS.
  destruct (Z.ltb_spec 999999 (-10 + Dec.ndigits R - 1)) as [X|_]; [lia|].
  destruct (Z.ltb_spec 28 (Dec.ndigits R)) as [X|_]; [lia|].
  apply fix_exact; [|lia].
  split; [lia|]. apply Z.lt_trans with (10 ^ 27); [lia | reflexivity].
Qed.

Lemma normalize_cell (R : Z) :
  0 <= R < 10 ^ 27 ->
  exists r,
    Dec.normalize (Dec.Fin false R (-10)) = Ok r /\
    canonical r /\ amount 10 r /\ units 10 r = R.
Proof.
  intros HR.
  assert (R28 : R < 10 ^ 28)
    by (apply Z.lt_trans with (10 ^ 27); [lia | reflexivity]).
  unfold Dec.normalize. cbn [Dec.fix_t].
  rewrite fix_exact by lia. cbn [bind].
  destruct (Z.eqb_spec R 0) as [->|N].
  - exists (Dec.Fin false 0 0). split; [reflexivity|].
    split; [right; split; reflexivity|]. split; [cbn; lia|]. reflexivity.
  - pose proof (ndigits_spec R ltac:(lia)) as [_ Hi].
    pose proof (ndigits_pos R) as P.
    pose proof (ndigits_le R 27 HR ltac:(lia)) as D.
    pose proof (strip_spec (Z.to_nat (Dec.ndigits R)) R (-10)) as S.
    rewrite Z2Nat.id in S by lia.
    specialize (S ltac:(lia) ltac:(unfold Dec.Emax; lia)). cbv zeta in S.
    destruct (Dec.strip (Z.to_nat (Dec.ndigits R)) R (-10)) as [c e].
    cbn [fst snd] in S. destruct S as [Se [Sc Sm]].
    replace (e - -10) with (e + 10) in Sc by lia.
    pose proof (pow10_pos (e + 10) ltac:(lia)) as Pe.
    assert (Hc : 0 < c).
    { destruct (Z_lt_le_dec 0 c) as [Y|Y]; [exact Y|].
      assert (c * 10 ^ (e + 10) <= 0) by (apply Z.mul_nonpos_nonneg; lia).
      lia. }
    assert (He : e + 10 < 28).
    { apply (pow10_exp_small c); lia. }
    exists (Dec.Fin false c e). split; [reflexivity|].
    split; [left; exact Sm|]. split; [cbn; lia|].
    cbn [units]. symmetry. exact Sc.
Qed.

(** One reward: the quotient of a non-negative product by the positive
    total, cut to the grid of [10^-10] and stripped. *)
Lemma reward_one (a ea T eT : Z) :
  0 <= a -> 0 < T < 10 ^ 28 ->
  -1000 <= ea <= 1000 -> -1000 <= eT <= 1000 ->
  0 <= ea - eT + 10 ->
  a * 10 ^ (ea - eT + 10) < 10 ^ 27 ->
  exists r,
    (q <- Dec.div (Dec.Fin false a ea) (Dec.Fin false T eT) ;;
     z <- Dec.quantize q Scorer1.REWARD_PRECISION Dec.ROUND_DOWN ;;
     Dec.normalize z) = Ok r /\
    canonical r /\ amount 10 r /\
    units 10 r = (a * 10 ^ (ea - eT + 10)) / T.
Proof.
  intros Ha HT Hea HeT Hd HB.
  destruct (Z.eq_dec a 0) as [->|N].
  - exists (Dec.Fin false 0 0).
    rewrite Z.mul_0_l, Z.div_0_l by lia.
    split; [|split; [right; split; reflexivity | split; [cbn; lia | reflexivity]]].
    unfold Dec.div. cbn [xorb].
    destruct (Z.eqb_spec T 0) as [X|_]; [lia|].
    cbn [Z.eqb].
    rewrite fix_exact by (first [lia | split; [lia | reflexivity]]).
    cbn [bind]. reflexivity.
  - pose proof (pow10_pos (ea - eT + 10) Hd) as Pd.
    assert (HR : 0 <= (a * 10 ^ (ea - eT + 10)) / T < 10 ^ 27).
    { split.
      - apply Z.div_pos; [|lia]. apply Z.mul_nonneg_nonneg; lia.
      - apply Z.div_lt_upper_bound; [lia|].
        assert (1 * 10 ^ 27 <= T * 10 ^ 27)
          by (apply Z.mul_le_mono_nonneg_r; [reflexivity || lia | lia]).
        lia. }
    destruct (div_window a ea T eT ltac:(lia) HT Hea HeT Hd HB)
      as [c' [e' [ED [Hc' W]]]].
    rewrite ED. cbn [bind].
    rewrite (quantize_cell c' e' _ Hc' HR W). cbn [bind].
    exact (normalize_cell _ HR).
Qed.

Lemma mapM_Forall2 {A B : Type} (f : A -> result B) (P : A -> B -> Prop)
  (l : list A) :
  (forall a, In a l -> exists b, f a = Ok b /\ P a b) ->
  exists bs, mapM f l = Ok bs /\ Forall2 P l bs.
Proof.
  induction l as [|a l IH]; intros H.
  - exists []. split; [reflexivity | constructor].
  - destruct (H a (or_introl eq_refl)) as [b [Eb Pb]].
    destruct (IH (fun x Hx => H x (or_intror Hx))) as [bs [Ebs Pbs]].
    exists (b :: bs). cbn [mapM]. rewrite Eb. cbn [bind]. rewrite Ebs.
    split; [reflexivity | constructor; assumption].
Qed.

Lemma units_le_total (s : Z) (l : list decimal) (d : decimal) :
  0 <= s -> Forall (amount s) l -> In d l -> units s d <= total_units s l.
Proof.
  intros Hs H. induction H as [|x l Hx Hl IH]; intros I; [contradiction|].
  cbn [total_units fold_right]. fold (total_units s l).
  pose proof (total_units_nonneg s l Hs Hl).
  pose proof (units_amount_nonneg s x Hs Hx).
  destruct I as [->|I]; [lia|]. specialize (IH I). lia.
Qed.

(** The distribution on amounts that the 28-digit arithmetic holds
    exactly. *)
Lemma distribute_core (s : Z) (factors : list decimal) (pool : decimal) :
  0 <= s <= 100 ->
  Forall (amount s) factors -> amount 10 pool ->
  0 < total_units s factors < 10 ^ 28 ->
  units 10 pool * total_units s factors < 10 ^ 27 ->
  exists rewards,
    Scorer1.__distribute factors pool = Ok rewards /\
    Forall2 (fun f r => amount 10 r /\ canonical r /\
                        units 10 r = share_units s pool factors f)
            factors rewards.
Proof.
  intros Hs Hf Hp HT HB.
  destruct (pysum_exact s factors ltac:(lia) Hf HT)
    as [T [eT [ES [HT' [HeT [FA VT]]]]]].
  unfold Scorer1.__distribute. rewrite ES. cbn [bind].
  apply mapM_Forall2. intros f If.
  pose proof (proj1 (Forall_forall _ _) Hf f If) as Af.
  pose proof (proj1 (Forall_forall _ _) FA f If) as Af'.
  pose proof (units_le_total s factors f ltac:(lia) Hf If) as Uf.
  destruct pool as [[|] pc pe| |]; cbn in Hp; try contradiction.
  destruct f as [[|] c e| |]; cbn in Af; try contradiction.
  cbn in Af'. destruct Hp as [Hpc Hpe]. destruct Af as [Hc He].
  cbn [units] in *.
  pose proof (pow10_pos (pe + 10) ltac:(lia)) as Pp.
  pose proof (pow10_pos (e + s) ltac:(lia)) as Pe.
  pose proof (pow10_pos (eT + s) ltac:(lia)) as Pt.
  pose proof (pow10_pos (e - eT) ltac:(lia)) as Pd.
  set (d := pe + e - eT + 10).
  assert (Hd : 0 <= d) by (unfold d; lia).
  assert (E1 : pc * 10 ^ (pe + 10) * (c * 10 ^ (e + s))
               = pc * c * 10 ^ d * 10 ^ (eT + s)).
  { replace (pc * c * 10 ^ d * 10 ^ (eT + s))
      with (pc * c * (10 ^ d * 10 ^ (eT + s))) by ring.
    rewrite <- Z.pow_add_r by lia.
    replace (pc * 10 ^ (pe + 10) * (c * 10 ^ (e + s)))
      with (pc * c * (10 ^ (pe + 10) * 10 ^ (e + s))) by ring.
    rewrite <- Z.pow_add_r by lia. f_equal. f_equal. unfold d. lia. }
  assert (N0 : 0 <= pc * c) by (apply Z.mul_nonneg_nonneg; lia).
  assert (N1 : 0 <= pc * c * 10 ^ d).
  { apply Z.mul_nonneg_nonneg; [lia|]. apply Z.lt_le_incl, pow10_pos. lia. }
  assert (N2 : 0 <= pc * 10 ^ (pe + 10)) by (apply Z.mul_nonneg_nonneg; lia).
  assert (B1 : pc * 10 ^ (pe + 10) * (c * 10 ^ (e + s)) < 10 ^ 27).
  { apply Z.le_lt_trans with (pc * 10 ^ (pe + 10) * total_units s factors);
      [|exact HB].
    apply Z.mul_le_mono_nonneg_l; lia. }
  assert (B2 : pc * c * 10 ^ d < 10 ^ 27).
  { apply Z.le_lt_trans with (pc * c * 10 ^ d * 10 ^ (eT + s)); [|lia].
    replace (pc * c * 10 ^ d) with (pc * c * 10 ^ d * 1) at 1 by ring.
    apply Z.mul_le_mono_nonneg_l; lia. }
  assert (B3 : pc * c < 10 ^ 28).
  { apply Z.le_lt_trans with (pc * c * 10 ^ d).
    - replace (pc * c) with (pc * c * 1) at 1 by ring.
      apply Z.mul_le_mono_nonneg_l; [lia|].
      pose proof (pow10_pos d Hd). lia.
    - apply Z.lt_trans with (10 ^ 27); [lia | reflexivity]. }
  unfold Dec.mul. cbn [xorb]. rewrite fix_exact by lia. cbn [bind].
  destruct (reward_one (pc * c) (pe + e) T eT N0 HT' ltac:(lia) ltac:(lia)
              ltac:(fold d; lia) ltac:(fold d; lia))
    as [r [Er [Cr [Ar Ur]]]].
  exists r. split; [exact Er|]. split; [exact Ar|]. split; [exact Cr|].
  rewrite Ur. unfold share_units. cbn [units]. rewrite <- VT.
  replace (pe + e - eT + 10) with d by (unfold d; lia).
  rewrite E1. symmetry. apply Z.div_mul_cancel_r; lia.
Qed.

Lemma challenge_rewards_unfold (scores : list f64) (pool : decimal) :
  Scorer1.compute_challenge_rewards scores pool
  = (factors <- mapM challenge_factor scores ;;
     Scorer1.__distribute factors pool).
Proof.
  unfold Scorer1.compute_challenge_rewards. f_equal.
  induction scores as [|x l IH]; [reflexivity|].
  cbn [map mapM]. rewrite IH. reflexivity.
Qed.

Lemma competition_rewards_unfold (scores : list f64) (pool : decimal) :
  count_defined scores <> 0 ->
  Scorer1.compute_competition_rewards scores pool
  = (factors <-
       mapM (fun x => competition_factor
                        (normalized_rank (count_defined scores)
                           (masked_rank scores x)))
            scores ;;
     Scorer1.__distribute factors pool).
Proof.
  intros Hn. unfold Scorer1.compute_competition_rewards.
  destruct (Z.eqb_spec (count_defined scores) 0) as [E|_]; [contradiction|].
  rewrite ranks_of_spec, map_map. f_equal.
  set (n := count_defined scores).
  assert (M : forall (l : list f64) (g : f64 -> num),
             mapM (fun rank => d <- Dec.sub (dec rank) (Dec.Fin false 5 (-1)) ;;
                               Dec.pymax d (dec (Int 0))) (map g l)
             = mapM (fun x => competition_factor (g x)) l).
  { intros l g. induction l as [|y l IH]; [reflexivity|].
    cbn [map mapM]. rewrite IH. reflexivity. }
  rewrite M. apply mapM_ext. intros x _.
  unfold normalized_rank, masked_rank.
  destruct (F64.is_nan (if F64.is_finite x then avg_rank scores x
                        else F64.nan)); reflexivity.
Qed.

(** C1, as the code has it: on non-negative factors with at most [s]
    decimal places and a positive sum, and a non-negative pool with at most
    10 decimal places, small enough for the 28-digit arithmetic to be
    exact (the sum of the factors below [10^28] units of [10^-s], the pool
    in units of [10^-10] times that sum below [10^27]), the distribution
    returns one reward per factor, in order, each equal to
    [pool * factor / sum(factors)] truncated to 10 decimal digits and
    with no trailing zero; stake rewards are this distribution of the
    stakes, challenge rewards and (when some score is defined) competition
    rewards are this distribution of their factors. *)
Theorem distribute_truncated_share
  (s : Z) (factors : list decimal) (pool : decimal) :
  0 <= s <= 100 ->
  Forall (amount s) factors -> amount 10 pool ->
  0 < total_units s factors < 10 ^ 28 ->
  units 10 pool * total_units s factors < 10 ^ 27 ->
  exists rewards,
    Scorer1.__distribute factors pool = Ok rewards /\
    Forall2 (fun f r => amount 10 r /\ canonical r /\
                        units 10 r = share_units s pool factors f)
            factors rewards /\
    Scorer1.compute_stake_rewards factors pool = Ok rewards /\
    (forall scores,
       mapM challenge_factor scores = Ok factors ->
       Scorer1.compute_challenge_rewards scores pool = Ok rewards) /\
    (forall scores,
       count_defined scores <> 0 ->
       mapM (fun x => competition_factor
                        (normalized_rank (count_defined scores)
                           (masked_rank scores x)))
            scores = Ok factors ->
       Scorer1.compute_competition_rewards scores pool = Ok rewards).
Proof.
  intros Hs Hf Hp HT HB.
  destruct (distribute_core s factors pool Hs Hf Hp HT HB) as [rs [E F]].
  exists rs. split; [exact E|]. split; [exact F|]. split; [exact E|]. split.
  - intros scores M. rewrite challenge_rewards_unfold, M. exact E.
  - intros scores Hn M. rewrite competition_rewards_unfold, M by exact Hn.
    exact E.
Qed.

Lemma distribute_truncated_share_witness :
  exists rewards,
    Scorer1.__distribute
      [Dec.Fin false 25 (-2); Dec.Fin false 5 (-1); dec (Int 1)]
      (Dec.Fin false 400 (-1)) = Ok rewards /\
    Forall2 (fun f r => amount 10 r /\ canonical r /\
                        units 10 r
                        = share_units 2 (Dec.Fin false 400 (-1))
                            [Dec.Fin false 25 (-2); Dec.Fin false 5 (-1);
                             dec (Int 1)] f)
            [Dec.Fin false 25 (-2); Dec.Fin false 5 (-1); dec (Int 1)]
            rewards.
Proof.
  destruct (distribute_truncated_share 2
              [Dec.Fin false 25 (-2); Dec.Fin false 5 (-1); dec (Int 1)]
              (Dec.Fin false 400 (-1)))
    as [rs [E [F _]]].
  - lia.
  - repeat constructor; cbn; lia.
  - cbn; lia.
  - vm_compute. split; reflexivity.
  - vm_compute. reflexivity.
  - exists rs. split; assumption.
Defined.

(** C1 fails as stated: the quotient is rounded to 28 significant digits
    before it is cut to 10 decimal places.  A pool of
    300000000000000000.0000000002 over three equal factors gives each
    100000000000000000.0000000001, while the truncated share is
    100000000000000000.0000000000. *)
Lemma distribute_rounds_before_truncating :
  let pool := Dec.Fin false 3000000000000000000000000002 (-10) in
  let factors := [dec (Int 1); dec (Int 1); dec (Int 1)] in
  exists r,
    Scorer1.__distribute factors pool = Ok [r; r; r] /\
    units 10 r = 1000000000000000000000000001 /\
    share_units 0 pool factors (dec (Int 1)) = 1000000000000000000000000000.
Proof.
  exists (Dec.Fin false 1000000000000000000000000001 (-10)).
  split; [vm_compute; reflexivity|]. split; vm_compute; reflexivity.
Qed.

(** ** Relative error of the decimal operations *)

(** [_fix] either keeps a coefficient of at most 28 digits or rounds a
    longer one to 28 digits, dropping [k] digits. *)
Lemma fix_cases (s : bool) (c e : Z) :
  0 < c < 10 ^ 1000 -> -10000 <= e <= 10000 ->
  (c < 10 ^ 28 /\ Dec._fix s c e = Ok (Dec.Fin s c e)) \/
  (exists k c' e',
     0 < k /\ 10 ^ 27 * 10 ^ k <= c /\ 10 ^ 27 <= c' < 10 ^ 28 /\
     Dec._fix s c e = Ok (Dec.Fin s c' e') /\ e + k <= e' /\
     (c / 10 ^ k) * 10 ^ k <= c' * 10 ^ (e' - e) /\
     2 * (c' * 10 ^ (e' - e)) <= 2 * c + 10 ^ k).
Proof.
  intros Hc He.
  pose proof (ndigits_spec c ltac:(lia)) as [Lo Hi].
  pose proof (ndigits_pos c) as P.
  pose proof (ndigits_le c 1000 ltac:(lia) ltac:(lia)) as D.
  destruct (Z_le_gt_dec (Dec.ndigits c) 28) as [S|L].
  - left.
    assert (C28 : c < 10 ^ 28).
    { pose proof (pow10_le (Dec.ndigits c) 28 ltac:(lia)). lia. }
    split; [exact C28|]. apply fix_exact; lia.
  - right. set (k := Dec.ndigits c - 28).
    assert (Kp : 0 < k) by (unfold k; lia).
    pose proof (pow10_pos k ltac:(lia)) as Pk.
    pose proof (round_up_half_even_bound c k ltac:(lia) ltac:(lia)) as RB.
    cbv zeta in RB.
    assert (C27 : 10 ^ 27 * 10 ^ k <= c).
    { rewrite <- Z.pow_add_r by lia.
      replace (27 + k) with (Dec.ndigits c - 1) by (unfold k; lia). exact Lo. }
    assert (Q : 10 ^ 27 <= c / 10 ^ k < 10 ^ 28).
    { split.
      - apply Z.div_le_lower_bound; [exact Pk|]. lia.
      - apply Z.div_lt_upper_bound; [exact Pk|].
        rewrite <- Z.pow_add_r by lia.
        replace (k + 28) with (Dec.ndigits c) by (unfold k; lia). exact Hi. }
    assert (F : Dec._fix s c e
                = if Dec.round_up Dec.ROUND_HALF_EVEN c k then
                    if 28 <? Dec.ndigits (c / 10 ^ k + 1)
                    then Ok (Dec.Fin s ((c / 10 ^ k + 1) / 10) (e + k + 1))
                    else Ok (Dec.Fin s (c / 10 ^ k + 1) (e + k))
                  else Ok (Dec.Fin s (c / 10 ^ k) (e + k))).
    { unfold Dec._fix, Dec.Etiny, Dec.Etop, Dec.Emin, Dec.Emax, Dec.prec.
      destruct (Z.eqb_spec c 0) as [Z0|_]; [lia|].
      destruct (Z.ltb_spec (999999 - 28 + 1) (Dec.ndigits c + e - 28)); [lia|].
      rewrite Z.max_l by lia.
      destruct (Z.ltb_spec e (Dec.ndigits c + e - 28)); [|lia].
      replace (Dec.ndigits c + e - 28 - e) with k by (unfold k; lia).
      replace (Dec.ndigits c + e - 28) with (e + k) by (unfold k; lia).
      destruct (Z.ltb_spec (999999 - 28 + 1) (e + k + 1)); [lia|].
      reflexivity. }
    set (q := c / 10 ^ k) in *.
    destruct (Dec.round_up Dec.ROUND_HALF_EVEN c k).
    + destruct (Z.ltb_spec 28 (Dec.ndigits (q + 1))) as [B|B].
      * assert (E : q + 1 = 10 ^ 28).
        { destruct (Z.eq_dec (q + 1) (10 ^ 28)) as [X|X]; [exact X|].
          pose proof (ndigits_le (q + 1) 28 ltac:(lia) ltac:(lia)). lia. }
        exists k, ((q + 1) / 10), (e + k + 1).
        rewrite E in *.
        replace (10 ^ 28 / 10) with (10 ^ 27) by reflexivity.
        replace (e + k + 1 - e) with (1 + k) by lia.
        rewrite Z.pow_add_r by lia.
        replace (10 ^ 27 * (10 ^ 1 * 10 ^ k)) with (10 ^ 28 * 10 ^ k)
          by (change (10 ^ 28) with (10 ^ 27 * 10 ^ 1); ring).
        repeat split; try lia; try assumption; reflexivity.
      * exists k, (q + 1), (e + k).
        replace (e + k - e) with k by lia.
        assert (q + 1 < 10 ^ 28).
        { destruct (Z.eq_dec (q + 1) (10 ^ 28)) as [X|X]; [|lia].
          rewrite X in B. vm_compute in B. exfalso. apply B. reflexivity. }
        repeat split; try lia; assumption.
    + exists k, q, (e + k).
      replace (e + k - e) with k by lia.
      repeat split; try lia; assumption.
Qed.

(** The value [_fix] returns is within [10^-27] of the exact one. *)
Lemma fix_rel (s : bool) (c e : Z) :
  0 < c < 10 ^ 1000 -> -10000 <= e <= 10000 ->
  exists c' e',
    Dec._fix s c e = Ok (Dec.Fin s c' e') /\
    e <= e' /\ 0 < c' < 10 ^ 28 /\
    (e < e' -> 10 ^ 27 <= c') /\
    10 ^ 27 * (c' * 10 ^ (e' - e)) <= (10 ^ 27 + 1) * c /\
    (10 ^ 27 - 1) * c <= 10 ^ 27 * (c' * 10 ^ (e' - e)).
Proof.
  intros Hc He.
  destruct (fix_cases s c e Hc He)
    as [[C28 F]|(k & c' & e' & Hk & C27 & Hc' & F & He' & Lo & Hi)].
  - exists c, e. rewrite Z.sub_diag. change (10 ^ 0) with 1.
    rewrite Z.mul_1_r. repeat split; try lia; exact F.
  - exists c', e'. pose proof (pow10_pos k ltac:(lia)) as Pk.
    pose proof (Z.div_mod c (10 ^ k) ltac:(lia)) as DM.
    pose proof (Z.mod_pos_bound c (10 ^ k) Pk) as MB.
    set (V := c' * 10 ^ (e' - e)) in *.
    set (T27 := 10 ^ 27) in *. set (p := 10 ^ k) in *.
    assert (T27 = 1000000000000000000000000000) by reflexivity.
    split; [exact F|]. split; [lia|]. split; [lia|]. split; [lia|].
    split; nia.
Qed.

Lemma pow10_lt_1000 (k : Z) : 0 <= k < 1000 -> 10 ^ k < 10 ^ 1000.
Proof. intros H. apply pow10_lt. lia. Qed.

Lemma coefficient_below (c : Z) : 0 < c -> c < 10 ^ Dec.ndigits c.
Proof. intros H. apply ndigits_spec. exact H. Qed.

(** The operand of the larger exponent and the other operand, brought to
    a common exponent as [_normalize] does: their sum there is the exact
    sum, or exceeds it by less than [10^-29] of it when the smaller
    operand is replaced by a unit. *)
Lemma align_pair (s cb eb cs es : Z) :
  0 <= s <= 1000 ->
  0 < cb < 10 ^ 28 -> 0 < cs < 10 ^ 28 ->
  - s <= es -> es <= eb -> eb <= 1000 ->
  let exp := eb + Z.min (-1) (Dec.ndigits cb - 28 - 2) in
  let o := if Dec.ndigits cs + es - 1 <? exp then (1, exp) else (cs, es) in
  let X := cb * 10 ^ (eb + s) + cs * 10 ^ (es + s) in
  let Sw := (fst o + cb * 10 ^ (eb - snd o)) * 10 ^ (snd o + s) in
  - s <= snd o <= eb /\ 0 < fst o /\
  0 < fst o + cb * 10 ^ (eb - snd o) < 10 ^ 1000 /\
  X <= Sw /\ 10 ^ 29 * (Sw - X) <= X.
Proof.
  intros Hs Hb Hsm Hes Heb Hmax exp o X Sw.
  pose proof (ndigits_pos cb) as Pb. pose proof (ndigits_pos cs) as Ps.
  pose proof (ndigits_le cb 28 ltac:(lia) ltac:(lia)) as Db.
  pose proof (ndigits_le cs 28 ltac:(lia) ltac:(lia)) as Ds.
  pose proof (ndigits_spec cb ltac:(lia)) as [Lb Ub].
  pose proof (ndigits_spec cs ltac:(lia)) as [Ls Us].
  assert (Ex : exp = eb + Dec.ndigits cb - 30) by (unfold exp; lia).
  pose proof (pow10_pos (eb + s) ltac:(lia)) as Pbs.
  pose proof (pow10_pos (es + s) ltac:(lia)) as Pss.
  unfold Sw, X, o. clear Sw X o.
  destruct (Z.ltb_spec (Dec.ndigits cs + es - 1) exp) as [R|R]; cbn [fst snd].
  - assert (Hexp : - s < exp <= eb) by lia.
    pose proof (pow10_pos (exp + s) ltac:(lia)) as Pe.
    assert (A1 : cb * 10 ^ (eb - exp) < 10 ^ 30).
    { replace (eb - exp) with (30 - Dec.ndigits cb) by lia.
      apply Z.lt_le_trans
        with (10 ^ Dec.ndigits cb * 10 ^ (30 - Dec.ndigits cb)).
      - apply Z.mul_lt_mono_pos_r; [apply pow10_pos; lia | exact Ub].
      - rewrite <- Z.pow_add_r by lia.
        replace (Dec.ndigits cb + (30 - Dec.ndigits cb)) with 30 by lia. lia. }
    assert (A0 : 0 < cb * 10 ^ (eb - exp)).
    { apply Z.mul_pos_pos; [lia | apply pow10_pos; lia]. }
    assert (B : cb * 10 ^ (eb - exp) * 10 ^ (exp + s) = cb * 10 ^ (eb + s)).
    { rewrite <- Z.mul_assoc, <- Z.pow_add_r by lia. f_equal. f_equal. lia. }
    assert (Cs : cs * 10 ^ (es + s) <= 10 ^ (exp + s)).
    { apply Z.le_trans with (10 ^ Dec.ndigits cs * 10 ^ (es + s)).
      - apply Z.mul_le_mono_nonneg_r; lia.
      - rewrite <- Z.pow_add_r by lia. apply pow10_le. lia. }
    assert (Cb : 10 ^ 29 * 10 ^ (exp + s) <= cb * 10 ^ (eb + s)).
    { apply Z.le_trans with (10 ^ (Dec.ndigits cb - 1) * 10 ^ (eb + s)).
      - rewrite <- !Z.pow_add_r by lia. apply pow10_le. lia.
      - apply Z.mul_le_mono_nonneg_r; lia. }
    assert (N : 0 <= cs * 10 ^ (es + s)) by (apply Z.mul_nonneg_nonneg; lia).
    split; [lia|]. split; [lia|]. split.
    { split; [lia|]. apply Z.lt_trans with (10 ^ 30 + 1); [lia | reflexivity]. }
    rewrite Z.mul_add_distr_r, B, Z.mul_1_l.
    split; lia.
  - assert (G : eb - es <= 56) by lia.
    assert (A1 : cb * 10 ^ (eb - es) < 10 ^ 28 * 10 ^ 56).
    { apply Z.lt_le_trans with (10 ^ 28 * 10 ^ (eb - es)).
      - apply Z.mul_lt_mono_pos_r; [apply pow10_pos; lia | lia].
      - apply Z.mul_le_mono_nonneg_l; [lia|]. apply pow10_le. lia. }
    assert (A0 : 0 < cb * 10 ^ (eb - es)).
    { apply Z.mul_pos_pos; [lia | apply pow10_pos; lia]. }
    assert (B : cb * 10 ^ (eb - es) * 10 ^ (es + s) = cb * 10 ^ (eb + s)).
    { rewrite <- Z.mul_assoc, <- Z.pow_add_r by lia. f_equal. f_equal. lia. }
    assert (N : 0 <= cs * 10 ^ (es + s)) by (apply Z.mul_nonneg_nonneg; lia).
    assert (Nb : 0 <= cb * 10 ^ (eb + s)) by (apply Z.mul_nonneg_nonneg; lia).
    split; [lia|]. split; [lia|]. split.
    { split; [lia|].
      apply Z.lt_trans with (10 ^ 28 + 10 ^ 28 * 10 ^ 56); [lia | reflexivity]. }
    rewrite Z.mul_add_distr_r, B.
    split; lia.
Qed.

Lemma fix_rel_units (sg : bool) (s C ew : Z) :
  0 <= s <= 1000 -> 0 < C < 10 ^ 1000 -> - s <= ew <= 2000 ->
  exists c e,
    Dec._fix sg C ew = Ok (Dec.Fin sg c e) /\
    ew <= e /\ 0 < c < 10 ^ 28 /\
    (ew < e -> 10 ^ 27 <= c) /\
    10 ^ 27 * (c * 10 ^ (e + s)) <= (10 ^ 27 + 1) * (C * 10 ^ (ew + s)) /\
    (10 ^ 27 - 1) * (C * 10 ^ (ew + s)) <= 10 ^ 27 * (c * 10 ^ (e + s)).
Proof.
  intros Hs HC He.
  destruct (fix_rel sg C ew HC ltac:(lia))
    as (c & e & F & Le & Hc & Sh & Up & Lo).
  exists c, e. split; [exact F|]. split; [exact Le|]. split; [exact Hc|].
  split; [exact Sh|].
  pose proof (pow10_pos (ew + s) ltac:(lia)) as P.
  assert (E : c * 10 ^ (e + s) = c * 10 ^ (e - ew) * 10 ^ (ew + s)).
  { rewrite <- Z.mul_assoc, <- Z.pow_add_r by lia. f_equal. f_equal. lia. }
  rewrite E. set (V := c * 10 ^ (e - ew)) in *. set (p := 10 ^ (ew + s)) in *.
  split.
  - replace (10 ^ 27 * (V * p)) with (10 ^ 27 * V * p) by ring.
    replace ((10 ^ 27 + 1) * (C * p)) with ((10 ^ 27 + 1) * C * p) by ring.
    apply Z.mul_le_mono_nonneg_r; lia.
  - replace (10 ^ 27 * (V * p)) with (10 ^ 27 * V * p) by ring.
    replace ((10 ^ 27 - 1) * (C * p)) with ((10 ^ 27 - 1) * C * p) by ring.
    apply Z.mul_le_mono_nonneg_r; lia.
Qed.

Lemma rel_weaken (X S Z : Z) :
  0 <= X -> X <= S -> 10 ^ 29 * (S - X) <= X ->
  10 ^ 27 * Z <= (10 ^ 27 + 1) * S ->
  (10 ^ 27 - 1) * S <= 10 ^ 27 * Z ->
  10 ^ 26 * Z <= (10 ^ 26 + 1) * X /\ (10 ^ 26 - 1) * X <= 10 ^ 26 * Z.
Proof. intros. split; lia. Qed.

(** Adding two non-negative decimals of at most 28 digits: the result
    is within [10^-26] of the exact sum. *)
Lemma add_rel (s c1 e1 c2 e2 : Z) :
  0 <= s <= 1000 ->
  0 <= c1 < 10 ^ 28 -> - s <= e1 <= 1000 ->
  0 <= c2 < 10 ^ 28 -> - s <= e2 <= 1000 ->
  exists c e,
    Dec.add (Dec.Fin false c1 e1) (Dec.Fin false c2 e2)
    = Ok (Dec.Fin false c e) /\
    0 <= c < 10 ^ 28 /\ - s <= e /\
    (e <= Z.max e1 e2 \/ 10 ^ 27 <= c) /\
    10 ^ 26 * (c * 10 ^ (e + s))
    <= (10 ^ 26 + 1) * (c1 * 10 ^ (e1 + s) + c2 * 10 ^ (e2 + s)) /\
    (10 ^ 26 - 1) * (c1 * 10 ^ (e1 + s) + c2 * 10 ^ (e2 + s))
    <= 10 ^ 26 * (c * 10 ^ (e + s)).
Proof.
  intros Hs H1 He1 H2 He2.
  pose proof (pow10_pos (e1 + s) ltac:(lia)) as P1.
  pose proof (pow10_pos (e2 + s) ltac:(lia)) as P2.
  unfold Dec.add. cbn [andb xorb].
  destruct (Z.eqb_spec c1 0) as [Z1|Z1]; destruct (Z.eqb_spec c2 0) as [Z2|Z2];
    cbn [andb].
  - exists 0, (Z.min e1 e2). subst c1 c2.
    rewrite fix_exact by (first [lia | split; [lia | reflexivity]]).
    rewrite !Z.mul_0_l. repeat split; try lia; try reflexivity.
  - subst c1. rewrite Z.mul_0_l, Z.add_0_l.
    set (t := Z.max (Z.min e1 e2) (e2 - Dec.prec - 1)).
    assert (Ht : - s <= t <= e2 /\ e2 - t <= 29)
      by (unfold t, Dec.prec; lia).
    unfold Dec._rescale.
    destruct (Z.eqb_spec c2 0) as [X|_]; [lia|].
    destruct (Z.leb_spec t e2) as [_|X]; [|lia].
    cbn [Dec.fix_t].
    pose proof (pow10_pos (e2 - t) ltac:(lia)) as Pt.
    assert (C : 0 < c2 * 10 ^ (e2 - t) < 10 ^ 1000).
    { split; [apply Z.mul_pos_pos; lia|].
      apply Z.lt_le_trans with (10 ^ 28 * 10 ^ (e2 - t)).
      - apply Z.mul_lt_mono_pos_r; lia.
      - apply Z.le_trans with (10 ^ 28 * 10 ^ 29); [|].
        + apply Z.mul_le_mono_nonneg_l; [lia|]. apply pow10_le. lia.
        + rewrite <- Z.pow_add_r by lia. apply pow10_le. lia. }
    destruct (fix_rel_units false s (c2 * 10 ^ (e2 - t)) t Hs C ltac:(lia))
      as (c & e & F & Le & Hc & Sh & Up & Lo).
    exists c, e. split; [exact F|]. split; [lia|]. split; [lia|].
    split; [destruct (Z.eq_dec e t); [left; lia | right; apply Sh; lia]|].
    assert (B : c2 * 10 ^ (e2 - t) * 10 ^ (t + s) = c2 * 10 ^ (e2 + s)).
    { rewrite <- Z.mul_assoc, <- Z.pow_add_r by lia. f_equal. f_equal. lia. }
    rewrite B in Up, Lo.
    assert (N : 0 <= c2 * 10 ^ (e2 + s)) by (apply Z.mul_nonneg_nonneg; lia).
    apply (rel_weaken _ (c2 * 10 ^ (e2 + s))); lia.
  - subst c2. rewrite Z.mul_0_l, Z.add_0_r.
    set (t := Z.max (Z.min e1 e2) (e1 - Dec.prec - 1)).
    assert (Ht : - s <= t <= e1 /\ e1 - t <= 29)
      by (unfold t, Dec.prec; lia).
    unfold Dec._rescale.
    destruct (Z.eqb_spec c1 0) as [X|_]; [lia|].
    destruct (Z.leb_spec t e1) as [_|X]; [|lia].
    cbn [Dec.fix_t].
    pose proof (pow10_pos (e1 - t) ltac:(lia)) as Pt.
    assert (C : 0 < c1 * 10 ^ (e1 - t) < 10 ^ 1000).
    { split; [apply Z.mul_pos_pos; lia|].
      apply Z.lt_le_trans with (10 ^ 28 * 10 ^ (e1 - t)).
      - apply Z.mul_lt_mono_pos_r; lia.
      - apply Z.le_trans with (10 ^ 28 * 10 ^ 29); [|].
        + apply Z.mul_le_mono_nonneg_l; [lia|]. apply pow10_le. lia.
        + rewrite <- Z.pow_add_r by lia. apply pow10_le. lia. }
    destruct (fix_rel_units false s (c1 * 10 ^ (e1 - t)) t Hs C ltac:(lia))
      as (c & e & F & Le & Hc & Sh & Up & Lo).
    exists c, e. split; [exact F|]. split; [lia|]. split; [lia|].
    split; [destruct (Z.eq_dec e t); [left; lia | right; apply Sh; lia]|].
    assert (B : c1 * 10 ^ (e1 - t) * 10 ^ (t + s) = c1 * 10 ^ (e1 + s)).
    { rewrite <- Z.mul_assoc, <- Z.pow_add_r by lia. f_equal. f_equal. lia. }
    rewrite B in Up, Lo.
    assert (N : 0 <= c1 * 10 ^ (e1 + s)) by (apply Z.mul_nonneg_nonneg; lia).
    apply (rel_weaken _ (c1 * 10 ^ (e1 + s))); lia.
  - unfold Dec._normalize.
    destruct (Z.ltb_spec e1 e2) as [L|L].
    + pose proof (align_pair s c2 e2 c1 e1 Hs ltac:(lia) ltac:(lia) ltac:(lia)
                    ltac:(lia) ltac:(lia)) as A.
      cbv zeta in A.
      destruct (Dec.ndigits c1 + e1 - 1
                <? e2 + Z.min (-1) (Dec.ndigits c2 - Dec.prec - 2))
        eqn:R; unfold Dec.prec in R; rewrite R in A; cbn [fst snd] in A;
        destruct A as (Ho & Hoc & HC & XS & SX).
      * set (oe := e2 + Z.min (-1) (Dec.ndigits c2 - 28 - 2)) in *.
        destruct (fix_rel_units false s (1 + c2 * 10 ^ (e2 - oe)) oe Hs HC
                    ltac:(lia)) as (c & e & F & Le & Hc & Sh & Up & Lo).
        exists c, e. split; [exact F|]. split; [lia|]. split; [lia|].
        split; [destruct (Z.eq_dec e oe); [left; lia | right; apply Sh; lia]|].
        assert (N : 0 <= c1 * 10 ^ (e1 + s) + c2 * 10 ^ (e2 + s)).
        { apply Z.add_nonneg_nonneg; apply Z.mul_nonneg_nonneg; lia. }
        apply (rel_weaken _ ((1 + c2 * 10 ^ (e2 - oe)) * 10 ^ (oe + s))); lia.
      * destruct (fix_rel_units false s (c1 + c2 * 10 ^ (e2 - e1)) e1 Hs HC
                    ltac:(lia)) as (c & e & F & Le & Hc & Sh & Up & Lo).
        exists c, e. split; [exact F|]. split; [lia|]. split; [lia|].
        split; [destruct (Z.eq_dec e e1); [left; lia | right; apply Sh; lia]|].
        assert (N : 0 <= c1 * 10 ^ (e1 + s) + c2 * 10 ^ (e2 + s)).
        { apply Z.add_nonneg_nonneg; apply Z.mul_nonneg_nonneg; lia. }
        apply (rel_weaken _ ((c1 + c2 * 10 ^ (e2 - e1)) * 10 ^ (e1 + s))); lia.
    + pose proof (align_pair s c1 e1 c2 e2 Hs ltac:(lia) ltac:(lia) ltac:(lia)
                    ltac:(lia) ltac:(lia)) as A.
      cbv zeta in A.
      destruct (Dec.ndigits c2 + e2 - 1
                <? e1 + Z.min (-1) (Dec.ndigits c1 - Dec.prec - 2))
        eqn:R; unfold Dec.prec in R; rewrite R in A; cbn [fst snd] in A;
        destruct A as (Ho & Hoc & HC & XS & SX).
      * set (oe := e1 + Z.min (-1) (Dec.ndigits c1 - 28 - 2)) in *.
        rewrite (Z.add_comm 1) in HC, XS, SX.
        destruct (fix_rel_units false s (c1 * 10 ^ (e1 - oe) + 1) oe Hs HC
                    ltac:(lia)) as (c & e & F & Le & Hc & Sh & Up & Lo).
        exists c, e. split; [exact F|]. split; [lia|]. split; [lia|].
        split; [destruct (Z.eq_dec e oe); [left; lia | right; apply Sh; lia]|].
        assert (N : 0 <= c1 * 10 ^ (e1 + s) + c2 * 10 ^ (e2 + s)).
        { apply Z.add_nonneg_nonneg; apply Z.mul_nonneg_nonneg; lia. }
        apply (rel_weaken _ ((c1 * 10 ^ (e1 - oe) + 1) * 10 ^ (oe + s))); lia.
      * rewrite (Z.add_comm c2) in HC, XS, SX.
        destruct (fix_rel_units false s (c1 * 10 ^ (e1 - e2) + c2) e2 Hs HC
                    ltac:(lia)) as (c & e & F & Le & Hc & Sh & Up & Lo).
        exists c, e. split; [exact F|]. split; [lia|]. split; [lia|].
        split; [destruct (Z.eq_dec e e2); [left; lia | right; apply Sh; lia]|].
        assert (N : 0 <= c1 * 10 ^ (e1 + s) + c2 * 10 ^ (e2 + s)).
        { apply Z.add_nonneg_nonneg; apply Z.mul_nonneg_nonneg; lia. }
        apply (rel_weaken _ ((c1 * 10 ^ (e1 - e2) + c2) * 10 ^ (e2 + s))); lia.
Qed.

Lemma context_amount_amount (s : Z) (d : decimal) :
  context_amount s d -> amount s d.
Proof.
  destruct d as [[|] c e| |]; cbn [context_amount amount]; try contradiction.
  lia.
Qed.

Lemma rel_step_up (W j S F A Z : Z) :
  0 < W -> 0 <= j -> 2 * j <= W -> 0 <= S -> 0 <= F ->
  W * A <= (W + 2 * j) * S ->
  W * Z <= (W + 1) * (A + F) ->
  W * Z <= (W + 2 * (j + 1)) * (S + F).
Proof.
  intros HW Hj HjW HS HF HA HZ.
  assert (S1 : W * (A + F) <= (W + 2 * j) * (S + F)) by nia.
  assert (S2 : W * (W * Z) <= (W + 1) * ((W + 2 * j) * (S + F))).
  { apply Z.le_trans with ((W + 1) * (W * (A + F))).
    - replace (W * (W * Z)) with (W * Z * W) by ring.
      replace ((W + 1) * (W * (A + F))) with ((W + 1) * (A + F) * W) by ring.
      apply Z.mul_le_mono_nonneg_r; lia.
    - apply Z.mul_le_mono_nonneg_l; lia. }
  assert (S3 : (W + 1) * ((W + 2 * j) * (S + F))
               <= W * ((W + 2 * (j + 1)) * (S + F))).
  { replace ((W + 1) * ((W + 2 * j) * (S + F)))
      with ((W + 1) * (W + 2 * j) * (S + F)) by ring.
    replace (W * ((W + 2 * (j + 1)) * (S + F)))
      with (W * (W + 2 * (j + 1)) * (S + F)) by ring.
    apply Z.mul_le_mono_nonneg_r; [lia|]. nia. }
  apply (Z.mul_le_mono_pos_l _ _ W HW). lia.
Qed.

Lemma rel_step_down (W j S F A Z : Z) :
  0 < W -> 0 <= j -> j + 1 <= W -> 0 <= S -> 0 <= F ->
  (W - j) * S <= W * A ->
  (W - 1) * (A + F) <= W * Z ->
  (W - (j + 1)) * (S + F) <= W * Z.
Proof.
  intros HW Hj HjW HS HF HA HZ.
  assert (S1 : (W - j) * (S + F) <= W * (A + F)) by nia.
  assert (S2 : (W - 1) * ((W - j) * (S + F)) <= W * (W * Z)).
  { apply Z.le_trans with ((W - 1) * (W * (A + F))).
    - apply Z.mul_le_mono_nonneg_l; lia.
    - replace (W * (W * Z)) with (W * Z * W) by ring.
      replace ((W - 1) * (W * (A + F))) with ((W - 1) * (A + F) * W) by ring.
      apply Z.mul_le_mono_nonneg_r; lia. }
  assert (S3 : W * ((W - (j + 1)) * (S + F))
               <= (W - 1) * ((W - j) * (S + F))).
  { replace ((W - 1) * ((W - j) * (S + F)))
      with ((W - 1) * (W - j) * (S + F)) by ring.
    replace (W * ((W - (j + 1)) * (S + F)))
      with (W * (W - (j + 1)) * (S + F)) by ring.
    apply Z.mul_le_mono_nonneg_r; [lia|]. nia. }
  apply (Z.mul_le_mono_pos_l _ _ W HW). lia.
Qed.

Lemma exponent_capped (s c e Z B : Z) :
  0 <= s -> - s <= e -> Z = c * 10 ^ (e + s) ->
  10 ^ 27 <= c -> Z <= B -> 2 * B <= 10 ^ (s + 227) -> e <= 200.
Proof.
  intros Hs He HZ Hc HB Hcap.
  destruct (Z_le_gt_dec e 200) as [L|G]; [exact L|]. exfalso.
  pose proof (pow10_le (s + 200) (e + s) ltac:(lia)) as P.
  pose proof (pow10_pos (s + 200) ltac:(lia)) as P0.
  assert (E : 10 ^ (s + 227) = 10 ^ 27 * 10 ^ (s + 200)).
  { rewrite <- Z.pow_add_r by lia. f_equal. lia. }
  assert (10 ^ 27 * 10 ^ (s + 200) <= c * 10 ^ (e + s)).
  { apply Z.mul_le_mono_nonneg; lia. }
  lia.
Qed.

(** The running total of Python's [sum] over non-negative decimals of at
    most 28 digits: after [j] additions it is within [2 j * 10^-26] of
    the exact total. *)
Lemma sum_from_rel (s : Z) (l : list decimal) :
  0 <= s <= 1000 -> Forall (context_amount s) l ->
  forall A eA S j,
    0 <= A < 10 ^ 28 -> - s <= eA <= 200 -> 0 <= S -> 0 <= j ->
    2 * (j + Z.of_nat (length l)) <= 10 ^ 26 ->
    4 * (S + total_units s l) <= 10 ^ (s + 227) ->
    10 ^ 26 * (A * 10 ^ (eA + s)) <= (10 ^ 26 + 2 * j) * S ->
    (10 ^ 26 - j) * S <= 10 ^ 26 * (A * 10 ^ (eA + s)) ->
    exists T eT,
      Dec.sum_from (Dec.Fin false A eA) l = Ok (Dec.Fin false T eT) /\
      0 <= T < 10 ^ 28 /\ - s <= eT <= 200 /\
      10 ^ 26 * (T * 10 ^ (eT + s))
      <= (10 ^ 26 + 2 * (j + Z.of_nat (length l))) * (S + total_units s l) /\
      (10 ^ 26 - (j + Z.of_nat (length l))) * (S + total_units s l)
      <= 10 ^ 26 * (T * 10 ^ (eT + s)).
Proof.
  intros Hs Hl. induction Hl as [|x l Hx Hl IH];
    intros A eA S j HA HeA HS Hj Hn Hcap Up Lo.
  - exists A, eA. cbn [Dec.sum_from total_units fold_right length].
    rewrite !Z.add_0_r. repeat split; try lia.
  - cbn [total_units fold_right length] in *. fold (total_units s l) in *.
    rewrite Nat2Z.inj_succ in *.
    pose proof (total_units_nonneg s l ltac:(lia)
                  (Forall_impl _ (context_amount_amount s) Hl)) as TN.
    destruct x as [[|] c e| |]; cbn [context_amount] in Hx; try contradiction.
    destruct Hx as [Hc He]. cbn [units] in *.
    pose proof (pow10_pos (e + s) ltac:(lia)) as Pe.
    assert (F0 : 0 <= c * 10 ^ (e + s)) by (apply Z.mul_nonneg_nonneg; lia).
    set (F := c * 10 ^ (e + s)) in *.
    destruct (add_rel s A eA c e Hs HA ltac:(lia) Hc ltac:(lia))
      as (c' & e' & EA & Hc' & He' & Sh & Up' & Lo').
    fold F in Up', Lo'.
    set (Au := A * 10 ^ (eA + s)) in *. set (Z := c' * 10 ^ (e' + s)) in *.
    assert (UpZ : 10 ^ 26 * Z <= (10 ^ 26 + 2 * (j + 1)) * (S + F)).
    { apply (rel_step_up (10 ^ 26) j S F Au Z); lia. }
    assert (LoZ : (10 ^ 26 - (j + 1)) * (S + F) <= 10 ^ 26 * Z).
    { apply (rel_step_down (10 ^ 26) j S F Au Z); lia. }
    assert (ZB : Z <= 2 * (S + F)).
    { assert (10 ^ 26 * Z <= 10 ^ 26 * (2 * (S + F))); [|lia].
      apply Z.le_trans with ((10 ^ 26 + 2 * (j + 1)) * (S + F)); [exact UpZ|].
      replace (10 ^ 26 * (2 * (S + F))) with (2 * 10 ^ 26 * (S + F)) by ring.
      apply Z.mul_le_mono_nonneg_r; lia. }
    assert (E200 : e' <= 200).
    { destruct Sh as [Sh|Sh]; [lia|].
      apply (exponent_capped s c' e' Z (2 * (S + F))); try lia; reflexivity. }
    destruct (IH c' e' (S + F) (j + 1) Hc' ltac:(lia) ltac:(lia) ltac:(lia)
                ltac:(lia) ltac:(lia) UpZ LoZ)
      as (T & eT & ES & HT & HeT & UpT & LoT).
    exists T, eT. cbn [Dec.sum_from]. rewrite EA. cbn [bind].
    split; [exact ES|]. split; [exact HT|]. split; [exact HeT|].
    replace (j + Z.succ (Z.of_nat (length l)))
      with (j + 1 + Z.of_nat (length l)) by lia.
    replace (S + (F + total_units s l)) with (S + F + total_units s l) by lia.
    split; assumption.
Qed.

Lemma pysum_rel (s : Z) (l : list decimal) :
  0 <= s <= 1000 -> Forall (context_amount s) l ->
  0 < total_units s l ->
  2 * Z.of_nat (length l) <= 10 ^ 26 ->
  4 * total_units s l <= 10 ^ (s + 227) ->
  exists T eT,
    Dec.pysum l = Ok (Dec.Fin false T eT) /\
    0 < T < 10 ^ 28 /\ - s <= eT <= 200 /\
    10 ^ 26 * (T * 10 ^ (eT + s))
    <= (10 ^ 26 + 2 * Z.of_nat (length l)) * total_units s l /\
    (10 ^ 26 - Z.of_nat (length l)) * total_units s l
    <= 10 ^ 26 * (T * 10 ^ (eT + s)).
Proof.
  intros Hs Hl Hpos Hn Hcap. destruct l as [|x l].
  - cbn [total_units fold_right] in Hpos. lia.
  - inversion Hl as [|x' l' Hx Hl']; subst x' l'.
    cbn [total_units fold_right length] in *. fold (total_units s l) in *.
    rewrite Nat2Z.inj_succ in *.
    pose proof (total_units_nonneg s l ltac:(lia)
                  (Forall_impl _ (context_amount_amount s) Hl')) as TN.
    destruct x as [[|] c e| |]; cbn [context_amount] in Hx; try contradiction.
    destruct Hx as [Hc He]. cbn [units] in *.
    pose proof (pow10_pos (e + s) ltac:(lia)) as Pe.
    assert (F0 : 0 <= c * 10 ^ (e + s)) by (apply Z.mul_nonneg_nonneg; lia).
    set (F := c * 10 ^ (e + s)) in *.
    destruct (add_rel s c e 0 0 Hs Hc ltac:(lia) ltac:(lia) ltac:(lia))
      as (c' & e' & EA & Hc' & He' & Sh & Up' & Lo').
    rewrite Z.mul_0_l, Z.add_0_r in Up', Lo'. fold F in Up', Lo'.
    set (Z := c' * 10 ^ (e' + s)) in *.
    assert (ZB : Z <= 2 * F) by lia.
    assert (E200 : e' <= 200).
    { destruct Sh as [Sh|Sh]; [lia|].
      apply (exponent_capped s c' e' Z (2 * F)); try lia; reflexivity. }
    destruct (sum_from_rel s l Hs Hl' c' e' F 1 Hc' ltac:(lia) F0 ltac:(lia)
                ltac:(lia) ltac:(lia) ltac:(fold Z; lia) ltac:(fold Z; lia))
      as (T & eT & ES & HT & HeT & UpT & LoT).
    exists T, eT. unfold Dec.pysum.
    change Dec.zero with (Dec.Fin false 0 0). rewrite EA. cbn [bind].
    split; [exact ES|].
    replace (1 + Z.of_nat (length l)) with (Z.succ (Z.of_nat (length l)))
      in UpT, LoT by lia.
    split.
    { split; [|lia].
      destruct (Z.eq_dec T 0) as [->|N]; [|lia].
      rewrite Z.mul_0_l, Z.mul_0_r in LoT.
      assert (0 < (10 ^ 26 - Z.succ (Z.of_nat (length l)))
                  * (F + total_units s l)); [|lia].
      apply Z.mul_pos_pos; lia. }
    split; [exact HeT|]. split; assumption.
Qed.

(** An inequality between two scaled integers is kept when both
    exponents move by the same amount. *)
Lemma pow10_shift_le (X Y p q p' q' : Z) :
  0 <= p -> 0 <= q -> 0 <= p' -> 0 <= q' -> p' - p = q' - q ->
  X * 10 ^ p <= Y * 10 ^ q -> X * 10 ^ p' <= Y * 10 ^ q'.
Proof.
  intros Hp Hq Hp' Hq' E H.
  destruct (Z_le_gt_dec p p') as [L|G].
  - pose proof (pow10_pos (p' - p) ltac:(lia)) as Pm.
    replace p' with (p + (p' - p)) by lia.
    replace q' with (q + (p' - p)) by lia.
    rewrite !Z.pow_add_r, !Z.mul_assoc by lia.
    apply Z.mul_le_mono_nonneg_r; lia.
  - pose proof (pow10_pos (p - p') ltac:(lia)) as Pm.
    replace p with (p' + (p - p')) in H by lia.
    replace q with (q' + (p - p')) in H by lia.
    rewrite !Z.pow_add_r, !Z.mul_assoc in H by lia.
    apply Z.mul_le_mono_pos_r in H; [exact H | exact Pm].
Qed.

Lemma exponent_rounded (a k C : Z) :
  0 <= k -> 10 ^ 27 <= a -> 0 <= C < 10 ^ 56 ->
  10 ^ 27 * (a * 10 ^ k) <= (10 ^ 27 + 1) * C -> k < 30.
Proof.
  intros Hk Ha HC H.
  destruct (Z_lt_le_dec k 30) as [L|G]; [exact L|]. exfalso.
  pose proof (pow10_le 30 k ltac:(lia)) as P.
  assert (10 ^ 27 * 10 ^ 30 <= a * 10 ^ k)
    by (apply Z.mul_le_mono_nonneg; lia).
  lia.
Qed.

(** The product of the pool and a factor, rounded to 28 digits, in units
    of [10^-(10+s)]. *)
Lemma mul_rel (s pc pe c e : Z) :
  0 <= s <= 900 -> 0 < pc < 10 ^ 28 -> -10 <= pe <= 100 ->
  0 < c < 10 ^ 28 -> - s <= e <= 100 ->
  exists a ea,
    Dec.mul (Dec.Fin false pc pe) (Dec.Fin false c e)
    = Ok (Dec.Fin false a ea) /\
    0 < a < 10 ^ 28 /\ pe + e <= ea < pe + e + 30 /\
    10 ^ 27 * (a * 10 ^ (ea + 10 + s))
    <= (10 ^ 27 + 1) * (pc * 10 ^ (pe + 10) * (c * 10 ^ (e + s))) /\
    (10 ^ 27 - 1) * (pc * 10 ^ (pe + 10) * (c * 10 ^ (e + s)))
    <= 10 ^ 27 * (a * 10 ^ (ea + 10 + s)).
Proof.
  intros Hs Hpc Hpe Hc He.
  assert (C0 : 0 < pc * c) by (apply Z.mul_pos_pos; lia).
  assert (C56 : pc * c < 10 ^ 56).
  { change (10 ^ 56) with (10 ^ 28 * 10 ^ 28).
    apply Z.mul_lt_mono_nonneg; lia. }
  destruct (fix_rel false (pc * c) (pe + e))
    as (a & ea & F & Le & Ha & Sh & Up & Lo).
  { split; [lia|]. apply Z.lt_trans with (10 ^ 56); [lia | reflexivity]. }
  { lia. }
  exists a, ea. unfold Dec.mul. cbn [xorb].
  split; [exact F|]. split; [exact Ha|].
  assert (Hk : ea - (pe + e) < 30).
  { destruct (Z.eq_dec ea (pe + e)) as [->|N]; [lia|].
    apply (exponent_rounded a (ea - (pe + e)) (pc * c)); try lia. }
  split; [lia|].
  assert (E : pc * 10 ^ (pe + 10) * (c * 10 ^ (e + s))
              = pc * c * 10 ^ (pe + e + 10 + s)).
  { replace (pe + e + 10 + s) with ((pe + 10) + (e + s)) by lia.
    rewrite (Z.pow_add_r 10 (pe + 10) (e + s)) by lia. ring. }
  rewrite E.
  pose proof (pow10_shift_le (10 ^ 27 * a) ((10 ^ 27 + 1) * (pc * c))
                (ea - (pe + e)) 0 (ea + 10 + s) (pe + e + 10 + s)
                ltac:(lia) ltac:(lia) ltac:(lia) ltac:(lia) ltac:(lia)) as U.
  pose proof (pow10_shift_le ((10 ^ 27 - 1) * (pc * c)) (10 ^ 27 * a)
                0 (ea - (pe + e)) (pe + e + 10 + s) (ea + 10 + s)
                ltac:(lia) ltac:(lia) ltac:(lia) ltac:(lia) ltac:(lia)) as L.
  change (10 ^ 0) with 1 in U, L. rewrite Z.mul_1_r in U, L.
  rewrite <- !Z.mul_assoc in U, L. rewrite <- !Z.mul_assoc.
  split; [apply U; exact Up | apply L; exact Lo].
Qed.

Lemma quotient_rel (x y z T N : Z) :
  0 < T -> 10 ^ 28 * T <= z -> z <= N -> N < z + T ->
  z <= y -> y <= z + T ->
  10 ^ 27 * x <= (10 ^ 27 + 1) * y -> (10 ^ 27 - 1) * y <= 10 ^ 27 * x ->
  10 ^ 26 * x <= (10 ^ 26 + 1) * N /\ (10 ^ 26 - 1) * N <= 10 ^ 26 * x.
Proof. intros. split; lia. Qed.

(** The quotient of two positive decimals of at most 28 digits is within
    [10^-26] of the exact quotient; [shift] is the number of digits by
    which the dividend is extended. *)
Lemma div_rel (a ea T eT : Z) :
  0 < a < 10 ^ 28 -> 0 < T < 10 ^ 28 ->
  -2000 <= ea <= 2000 -> -2000 <= eT <= 2000 ->
  exists shift c' e',
    Dec.div (Dec.Fin false a ea) (Dec.Fin false T eT)
    = Ok (Dec.Fin false c' e') /\
    0 <= shift /\ ea - eT - shift <= e' /\ 0 < c' < 10 ^ 28 /\
    10 ^ 26 * (c' * 10 ^ (e' - (ea - eT - shift)) * T)
    <= (10 ^ 26 + 1) * (a * 10 ^ shift) /\
    (10 ^ 26 - 1) * (a * 10 ^ shift)
    <= 10 ^ 26 * (c' * 10 ^ (e' - (ea - eT - shift)) * T).
Proof.
  intros Ha HT Hea HeT.
  pose proof (ndigits_spec a ltac:(lia)) as [La Ua].
  pose proof (ndigits_spec T ltac:(lia)) as [Lt Ut].
  pose proof (ndigits_pos a) as Pa. pose proof (ndigits_pos T) as Pt.
  pose proof (ndigits_le a 28 ltac:(lia) ltac:(lia)) as Da.
  pose proof (ndigits_le T 28 ltac:(lia) ltac:(lia)) as Dt.
  set (na := Dec.ndigits a) in *. set (nt := Dec.ndigits T) in *.
  set (shift := nt - na + 28 + 1).
  assert (Hshift : 2 <= shift <= 56) by (unfold shift; lia).
  pose proof (pow10_pos shift ltac:(lia)) as Ps.
  set (N := a * 10 ^ shift).
  assert (HN : 0 < N) by (unfold N; apply Z.mul_pos_pos; lia).
  set (coeff := N / T).
  assert (C28 : 10 ^ 28 <= coeff).
  { unfold coeff, N. apply Z.div_le_lower_bound; [lia|].
    apply Z.le_trans with (10 ^ nt * 10 ^ 28).
    - apply Z.mul_le_mono_nonneg_r; [|lia].
      apply Z.lt_le_incl, pow10_pos. lia.
    - apply Z.le_trans with (10 ^ (na - 1) * 10 ^ shift).
      + rewrite <- !Z.pow_add_r by lia. apply pow10_le. unfold shift. lia.
      + apply Z.mul_le_mono_nonneg_r; [|lia].
        apply Z.lt_le_incl, pow10_pos. lia. }
  assert (C30 : coeff < 10 ^ 30).
  { unfold coeff, N. apply Z.div_lt_upper_bound; [lia|].
    apply Z.lt_le_trans with (10 ^ na * 10 ^ shift).
    - apply Z.mul_lt_mono_pos_r; [apply pow10_pos; lia | lia].
    - apply Z.le_trans with (10 ^ (nt - 1) * 10 ^ 30).
      + rewrite <- !Z.pow_add_r by lia. apply pow10_le. unfold shift. lia.
      + apply Z.mul_le_mono_nonneg_r; [|lia].
        apply Z.lt_le_incl, pow10_pos. lia. }
  pose proof (Z.div_mod N T ltac:(lia)) as DM.
  pose proof (Z.mod_pos_bound N T ltac:(lia)) as MB.
  fold coeff in DM.
  set (exp := ea - eT - shift).
  assert (ZT : 10 ^ 28 * T <= coeff * T)
    by (apply Z.mul_le_mono_nonneg_r; lia).
  exists shift. unfold Dec.div. cbn [xorb].
  destruct (Z.eqb_spec T 0) as [X|_]; [lia|].
  destruct (Z.eqb_spec a 0) as [X|_]; [lia|].
  fold na nt. unfold Dec.prec. fold shift. fold exp.
  destruct (Z.leb_spec 0 shift) as [_|X]; [|lia].
  fold N. fold coeff.
  destruct (Z.eqb_spec (N mod T) 0) as [Rz|Rn]; cbn [negb].
  - pose proof (to_ideal_spec (Z.to_nat (ea - eT - exp)) coeff exp)
      as [j [Hj [Hc He]]].
    destruct (Dec.to_ideal (Z.to_nat (ea - eT - exp)) coeff exp) as [c0 e0].
    cbn [fst snd] in Hc, He.
    pose proof (pow10_pos j ltac:(lia)) as Pj.
    assert (C0 : 0 < c0 < 10 ^ 30).
    { split.
      - destruct (Z_lt_le_dec 0 c0) as [Y|Y]; [exact Y|].
        assert (c0 * 10 ^ j <= 0) by (apply Z.mul_nonpos_nonneg; lia). lia.
      - assert (c0 * 1 <= c0 * 10 ^ j); [|lia].
        destruct (Z_lt_le_dec 0 c0) as [Y|Y].
        + apply Z.mul_le_mono_nonneg_l; lia.
        + assert (c0 * 10 ^ j <= 0) by (apply Z.mul_nonpos_nonneg; lia). lia. }
    destruct (fix_rel false c0 e0) as (c' & e' & EF & He' & Hc' & _ & Up & Lo).
    { split; [lia|]. apply Z.lt_trans with (10 ^ 30); [lia | reflexivity]. }
    { unfold exp in He. lia. }
    exists c', e'. split; [exact EF|]. split; [lia|]. split; [lia|].
    split; [exact Hc'|].
    assert (E : c' * 10 ^ (e' - exp) = c' * 10 ^ (e' - e0) * 10 ^ j).
    { rewrite <- Z.mul_assoc, <- Z.pow_add_r by lia. f_equal. f_equal. lia. }
    rewrite E. set (V := c' * 10 ^ (e' - e0)) in *.
    assert (M0 : 0 <= 10 ^ j * T) by (apply Z.mul_nonneg_nonneg; lia).
    apply (Z.mul_le_mono_nonneg_r _ _ _ M0) in Up.
    apply (Z.mul_le_mono_nonneg_r _ _ _ M0) in Lo.
    replace ((10 ^ 27 + 1) * c0 * (10 ^ j * T))
      with ((10 ^ 27 + 1) * (c0 * 10 ^ j * T)) in Up by ring.
    replace ((10 ^ 27 - 1) * c0 * (10 ^ j * T))
      with ((10 ^ 27 - 1) * (c0 * 10 ^ j * T)) in Lo by ring.
    replace (10 ^ 27 * V * (10 ^ j * T))
      with (10 ^ 27 * (V * 10 ^ j * T)) in Up, Lo by ring.
    rewrite <- Hc in Up, Lo.
    apply (quotient_rel (V * 10 ^ j * T) (coeff * T) (coeff * T) T N);
      try lia.
  - set (c0 := if coeff mod 5 =? 0 then coeff + 1 else coeff).
    assert (C0 : coeff <= c0 <= coeff + 1 /\ c0 < 10 ^ 30).
    { unfold c0. destruct (Z.eqb_spec (coeff mod 5) 0) as [M|M].
      - split; [lia|].
        pose proof (Z.div_mod coeff 5 ltac:(lia)) as DM5. rewrite M in DM5.
        clear - DM5 C30. lia.
      - lia. }
    destruct (fix_rel false c0 exp) as (c' & e' & EF & He' & Hc' & _ & Up & Lo).
    { split; [lia|]. apply Z.lt_trans with (10 ^ 30); [lia | reflexivity]. }
    { unfold exp. lia. }
    exists c', e'. split; [exact EF|]. split; [lia|]. split; [lia|].
    split; [exact Hc'|].
    set (V := c' * 10 ^ (e' - exp)) in *.
    assert (M0 : 0 <= T) by lia.
    apply (Z.mul_le_mono_nonneg_r _ _ _ M0) in Up.
    apply (Z.mul_le_mono_nonneg_r _ _ _ M0) in Lo.
    replace ((10 ^ 27 + 1) * c0 * T) with ((10 ^ 27 + 1) * (c0 * T)) in Up by ring.
    replace ((10 ^ 27 - 1) * c0 * T) with ((10 ^ 27 - 1) * (c0 * T)) in Lo by ring.
    replace (10 ^ 27 * V * T) with (10 ^ 27 * (V * T)) in Up, Lo by ring.
    assert (Y1 : coeff * T <= c0 * T) by (apply Z.mul_le_mono_nonneg_r; lia).
    assert (Y2 : c0 * T <= (coeff + 1) * T) by (apply Z.mul_le_mono_nonneg_r; lia).
    apply (quotient_rel (V * T) (c0 * T) (coeff * T) T N); try lia.
Qed.

(** The quotient cut to the grid of [10^-10]: the number [R] of whole
    units, against the rounded product [a * 10^ea] and the rounded total
    [T * 10^eT], both in units of [10^-s] and [10^-(10+s)]. *)
Lemma grid_floor (s a ea T eT shift c' e' : Z) :
  0 < c' -> 0 < T -> 0 < a -> 0 <= shift ->
  ea - eT - shift <= e' -> - s <= eT -> 0 <= ea + 10 + s ->
  10 ^ 26 * (c' * 10 ^ (e' - (ea - eT - shift)) * T)
  <= (10 ^ 26 + 1) * (a * 10 ^ shift) ->
  (10 ^ 26 - 1) * (a * 10 ^ shift)
  <= 10 ^ 26 * (c' * 10 ^ (e' - (ea - eT - shift)) * T) ->
  exists R,
    0 <= R /\
    ((e' < -10 /\ R * 10 ^ (- 10 - e') <= c' < (R + 1) * 10 ^ (- 10 - e')) \/
     (-10 <= e' /\ c' * 10 ^ (e' + 10) = R)) /\
    10 ^ 26 * (R * (T * 10 ^ (eT + s)))
    <= (10 ^ 26 + 1) * (a * 10 ^ (ea + 10 + s)) /\
    (10 ^ 26 - 1) * (a * 10 ^ (ea + 10 + s))
    <= 10 ^ 26 * ((R + 1) * (T * 10 ^ (eT + s))).
Proof.
  intros Hc HT Ha Hsh Hexp HeT Hq U L.
  set (exp := ea - eT - shift) in *.
  pose proof (pow10_pos (eT + s) ltac:(lia)) as Pt.
  assert (Tu0 : 0 < T * 10 ^ (eT + s)) by (apply Z.mul_pos_pos; lia).
  destruct (Z_lt_le_dec e' (-10)) as [Lt|Ge].
  - set (D := 10 ^ (- 10 - e')).
    pose proof (pow10_pos (- 10 - e') ltac:(lia)) as PD. fold D in PD.
    pose proof (Z.div_mod c' D ltac:(lia)) as DM.
    pose proof (Z.mod_pos_bound c' D PD) as MB.
    set (R := c' / D) in *.
    assert (R0 : 0 <= R) by (unfold R; apply Z.div_pos; lia).
    exists R. split; [exact R0|].
    split; [left; split; [exact Lt|]; fold D; lia|].
    pose proof (pow10_pos (e' - exp) ltac:(lia)) as Pe.
    assert (G : D * 10 ^ (e' - exp) = 10 ^ (- 10 - exp)).
    { unfold D. rewrite <- Z.pow_add_r by lia. f_equal. lia. }
    assert (M0 : 0 <= 10 ^ (e' - exp) * T) by (apply Z.mul_nonneg_nonneg; lia).
    assert (A1 : R * D * (10 ^ (e' - exp) * T) <= c' * (10 ^ (e' - exp) * T))
      by (apply Z.mul_le_mono_nonneg_r; lia).
    assert (A2 : c' * (10 ^ (e' - exp) * T)
                 <= (R + 1) * D * (10 ^ (e' - exp) * T))
      by (apply Z.mul_le_mono_nonneg_r; lia).
    replace (R * D * (10 ^ (e' - exp) * T))
      with (R * T * (D * 10 ^ (e' - exp))) in A1 by ring.
    replace ((R + 1) * D * (10 ^ (e' - exp) * T))
      with ((R + 1) * T * (D * 10 ^ (e' - exp))) in A2 by ring.
    rewrite G in A1, A2.
    replace (c' * (10 ^ (e' - exp) * T)) with (c' * 10 ^ (e' - exp) * T)
      in A1, A2 by ring.
    pose proof (pow10_shift_le (10 ^ 26 * (R * T)) ((10 ^ 26 + 1) * a)
                  (- 10 - exp) shift (eT + s) (ea + 10 + s)
                  ltac:(lia) ltac:(lia) ltac:(lia) ltac:(lia)
                  ltac:(unfold exp; lia)) as KU.
    pose proof (pow10_shift_le ((10 ^ 26 - 1) * a) (10 ^ 26 * ((R + 1) * T))
                  shift (- 10 - exp) (ea + 10 + s) (eT + s)
                  ltac:(lia) ltac:(lia) ltac:(lia) ltac:(lia)
                  ltac:(unfold exp; lia)) as KL.
    clear DM MB G M0.
    set (X1 := 10 ^ (eT + s)) in *. set (X2 := 10 ^ (ea + 10 + s)) in *.
    set (X3 := 10 ^ (- 10 - exp)) in *. set (X4 := 10 ^ shift) in *.
    set (X5 := 10 ^ (e' - exp)) in *.
    split.
    + assert (Q : 10 ^ 26 * (R * T) * X3 <= (10 ^ 26 + 1) * a * X4) by lia.
      specialize (KU Q). lia.
    + assert (Q : (10 ^ 26 - 1) * a * X4 <= 10 ^ 26 * ((R + 1) * T) * X3)
        by lia.
      specialize (KL Q). lia.
  - pose proof (pow10_pos (e' + 10) ltac:(lia)) as PD.
    set (R := c' * 10 ^ (e' + 10)).
    assert (R0 : 0 < R) by (unfold R; apply Z.mul_pos_pos; lia).
    exists R. split; [lia|].
    split; [right; split; [exact Ge | reflexivity]|].
    pose proof (pow10_shift_le (10 ^ 26 * (c' * T)) ((10 ^ 26 + 1) * a)
                  (e' - exp) shift (e' + 10 + (eT + s)) (ea + 10 + s)
                  ltac:(lia) ltac:(lia) ltac:(lia) ltac:(lia)
                  ltac:(unfold exp; lia)) as KU.
    pose proof (pow10_shift_le ((10 ^ 26 - 1) * a) (10 ^ 26 * (c' * T))
                  shift (e' - exp) (ea + 10 + s) (e' + 10 + (eT + s))
                  ltac:(lia) ltac:(lia) ltac:(lia) ltac:(lia)
                  ltac:(unfold exp; lia)) as KL.
    rewrite (Z.pow_add_r 10 (e' + 10) (eT + s)) in KU, KL by lia.
    fold R in R0. unfold R in *. clear R.
    set (X1 := 10 ^ (eT + s)) in *. set (X2 := 10 ^ (ea + 10 + s)) in *.
    set (X3 := 10 ^ (e' + 10)) in *. set (X4 := 10 ^ shift) in *.
    set (X5 := 10 ^ (e' - exp)) in *.
    assert (Q1 : 10 ^ 26 * (c' * T) * X5 <= (10 ^ 26 + 1) * a * X4) by lia.
    assert (Q2 : (10 ^ 26 - 1) * a * X4 <= 10 ^ 26 * (c' * T) * X5) by lia.
    specialize (KU Q1). specialize (KL Q2).
    split; [lia|].
    replace ((c' * X3 + 1) * (T * X1)) with (c' * X3 * (T * X1) + T * X1)
      by ring.
    lia.
Qed.

Lemma reward_below (R Tu pu PF PT : Z) :
  0 < Tu -> 0 <= R ->
  10 ^ 26 * (R * Tu) <= (10 ^ 26 + 1) * pu ->
  10 ^ 27 * pu <= (10 ^ 27 + 1) * PF ->
  PF <= 2 * PT -> PT <= 10 ^ 26 * Tu ->
  R * Tu < 10 ^ 27 * Tu.
Proof. intros. lia. Qed.

Lemma reward_rel_compose (RT RT1 pu PF : Z) :
  10 ^ 26 * RT <= (10 ^ 26 + 1) * pu ->
  (10 ^ 26 - 1) * pu <= 10 ^ 26 * RT1 ->
  10 ^ 27 * pu <= (10 ^ 27 + 1) * PF ->
  (10 ^ 27 - 1) * PF <= 10 ^ 27 * pu ->
  10 ^ 52 * RT <= (10 ^ 26 + 1) * (10 ^ 26 + 1) * PF /\
  (10 ^ 26 - 1) * (10 ^ 26 - 1) * PF <= 10 ^ 52 * RT1.
Proof. intros. split; lia. Qed.

(** One reward of the distribution, in units of [10^-10], against the
    exact share [pool * factor / total]: the three roundings (product,
    total, quotient) move it by a relative [2 * 10^-26] at most before
    the cut to the grid. *)
Lemma reward_rel (s pc pe c e T eT : Z) :
  0 <= s <= 900 -> 0 <= pc -> -10 <= pe <= 100 ->
  0 <= c < 10 ^ 28 -> - s <= e <= 100 ->
  0 < T < 10 ^ 28 -> - s <= eT <= 200 ->
  pc * 10 ^ (pe + 10) < 10 ^ 26 ->
  c * 10 ^ (e + s) <= 2 * (T * 10 ^ (eT + s)) ->
  exists r,
    (p <- Dec.mul (Dec.Fin false pc pe) (Dec.Fin false c e) ;;
     q <- Dec.div p (Dec.Fin false T eT) ;;
     z <- Dec.quantize q Scorer1.REWARD_PRECISION Dec.ROUND_DOWN ;;
     Dec.normalize z) = Ok r /\
    canonical r /\ amount 10 r /\
    10 ^ 52 * (units 10 r * (T * 10 ^ (eT + s)))
    <= (10 ^ 26 + 1) * (10 ^ 26 + 1)
       * (pc * 10 ^ (pe + 10) * (c * 10 ^ (e + s))) /\
    (10 ^ 26 - 1) * (10 ^ 26 - 1) * (pc * 10 ^ (pe + 10) * (c * 10 ^ (e + s)))
    <= 10 ^ 52 * ((units 10 r + 1) * (T * 10 ^ (eT + s))).
Proof.
  intros Hs Hpc Hpe Hc He HT HeT HP HF.
  pose proof (pow10_pos (pe + 10) ltac:(lia)) as Pp.
  pose proof (pow10_pos (e + s) ltac:(lia)) as Pe.
  pose proof (pow10_pos (eT + s) ltac:(lia)) as Pt.
  assert (Tu0 : 0 < T * 10 ^ (eT + s)) by (apply Z.mul_pos_pos; lia).
  destruct (Z.eq_dec (pc * c) 0) as [E0|N0].
  - exists (Dec.Fin false 0 0).
    split.
    { unfold Dec.mul. cbn [xorb]. rewrite E0.
      rewrite fix_exact by (first [lia | split; [lia | reflexivity]]).
      cbn [bind]. unfold Dec.div. cbn [xorb].
      destruct (Z.eqb_spec T 0) as [X|_]; [lia|].
      cbn [Z.eqb].
      rewrite fix_exact by (first [lia | split; [lia | reflexivity]]).
      cbn [bind]. reflexivity. }
    split; [right; split; reflexivity|]. split; [cbn [amount]; lia|].
    cbn [units]. rewrite Z.mul_0_l, Z.mul_0_l, Z.mul_0_r.
    replace (pc * 10 ^ (pe + 10) * (c * 10 ^ (e + s)))
      with (pc * c * (10 ^ (pe + 10) * 10 ^ (e + s))) by ring.
    rewrite E0, Z.mul_0_l, !Z.mul_0_r. split; [lia|].
    rewrite Z.add_0_l, Z.mul_1_l.
    apply Z.mul_nonneg_nonneg; [reflexivity || lia | lia].
  - assert (Hpc' : 0 < pc) by (destruct (Z.eq_dec pc 0); subst; lia).
    assert (Hc' : 0 < c) by (destruct (Z.eq_dec c 0); subst; lia).
    assert (P28 : pc < 10 ^ 28).
    { assert (pc * 1 <= pc * 10 ^ (pe + 10))
        by (apply Z.mul_le_mono_nonneg_l; lia).
      lia. }
    destruct (mul_rel s pc pe c e Hs ltac:(lia) Hpe ltac:(lia) He)
      as (a & ea & EM & Ha & Hea & U1 & L1).
    destruct (div_rel a ea T eT Ha HT ltac:(lia) ltac:(lia))
      as (shift & c' & e' & ED & Hsh & Hexp & Hc'' & U2 & L2).
    destruct (grid_floor s a ea T eT shift c' e' ltac:(lia) ltac:(lia)
                ltac:(lia) Hsh Hexp ltac:(lia) ltac:(lia) U2 L2)
      as (R & R0 & Cell & U3 & L3).
    set (P := pc * 10 ^ (pe + 10)) in *. set (F := c * 10 ^ (e + s)) in *.
    set (Tu := T * 10 ^ (eT + s)) in *. set (pu := a * 10 ^ (ea + 10 + s)) in *.
    assert (P0 : 0 <= P) by (unfold P; apply Z.mul_nonneg_nonneg; lia).
    assert (PFT : P * F <= 2 * (P * Tu)).
    { replace (2 * (P * Tu)) with (P * (2 * Tu)) by ring.
      apply Z.mul_le_mono_nonneg_l; lia. }
    assert (PT : P * Tu <= 10 ^ 26 * Tu)
      by (apply Z.mul_le_mono_nonneg_r; lia).
    pose proof (reward_below R Tu pu (P * F) (P * Tu) Tu0 R0 U3 U1 PFT PT) as RB.
    apply Z.mul_lt_mono_pos_r in RB; [|exact Tu0].
    destruct (normalize_cell R ltac:(lia)) as (r & EN & Cr & Ar & Ur).
    exists r. rewrite EM. cbn [bind]. rewrite ED. cbn [bind].
    rewrite (quantize_cell c' e' R Hc'' ltac:(lia) Cell). cbn [bind].
    split; [exact EN|]. split; [exact Cr|]. split; [exact Ar|].
    rewrite Ur.
    exact (reward_rel_compose (R * Tu) ((R + 1) * Tu) pu (P * F) U3 L3 U1 L1).
Qed.

Lemma total_units_cap (s : Z) (l : list decimal) :
  0 <= s -> Forall (context_amount s) l ->
  total_units s l <= Z.of_nat (length l) * 10 ^ (128 + s).
Proof.
  intros Hs H. induction H as [|d l Hd Hl IH].
  - cbn [total_units fold_right length]. lia.
  - cbn [total_units fold_right length]. fold (total_units s l).
    rewrite Nat2Z.inj_succ.
    destruct d as [[|] c e| |]; cbn [context_amount] in Hd; try contradiction.
    destruct Hd as [Hc He]. cbn [units].
    pose proof (pow10_le (e + s) (100 + s) ltac:(lia)) as P.
    pose proof (pow10_pos (e + s) ltac:(lia)) as P0.
    assert (c * 10 ^ (e + s) <= 10 ^ 28 * 10 ^ (100 + s))
      by (apply Z.mul_le_mono_nonneg; lia).
    assert (E : 10 ^ (128 + s) = 10 ^ 28 * 10 ^ (100 + s)).
    { rewrite <- Z.pow_add_r by lia. f_equal. lia. }
    rewrite E in *.
    set (X := 10 ^ 28 * 10 ^ (100 + s)) in *. lia.
Qed.

(** The bounds of the single rewards, added up. *)
Lemma rel_shares (s P Tu C1 C2 : Z) (l rs : list decimal) :
  Forall2 (fun f r =>
             10 ^ 52 * (units 10 r * Tu) <= C1 * (P * units s f) /\
             C2 * (P * units s f) <= 10 ^ 52 * ((units 10 r + 1) * Tu)) l rs ->
  10 ^ 52 * (total_units 10 rs * Tu) <= C1 * (P * total_units s l) /\
  C2 * (P * total_units s l)
  <= 10 ^ 52 * ((total_units 10 rs + Z.of_nat (length l)) * Tu).
Proof.
  intros H. induction H as [|f r l rs [U L] H [IU IL]].
  - cbn [total_units fold_right length]. lia.
  - cbn [total_units fold_right length].
    fold (total_units s l). fold (total_units 10 rs).
    rewrite Nat2Z.inj_succ.
    set (A := total_units 10 rs) in *. set (B := total_units s l) in *.
    set (n := Z.of_nat (length l)) in *. set (u := units 10 r) in *.
    set (F := units s f) in *.
    set (X := 10 ^ 52) in *.
    split; lia.
Qed.

Lemma conservation_upper (A P n S Tu : Z) :
  0 <= A -> 0 <= P -> 1 <= n -> 0 < S -> 0 < Tu ->
  2 * (n + 2) * (P + 1) <= 10 ^ 26 ->
  10 ^ 52 * (A * Tu) <= (10 ^ 26 + 1) * (10 ^ 26 + 1) * (P * S) ->
  (10 ^ 26 - n) * S <= 10 ^ 26 * Tu ->
  A <= P.
Proof.
  intros HA HP Hn HS HT H SU B.
  assert (PN : 0 <= P * n) by (apply Z.mul_nonneg_nonneg; lia).
  assert (Hn' : n < 10 ^ 26) by lia.
  assert (K : 10 ^ 26 * A * (10 ^ 26 - n) * S
              <= (10 ^ 26 + 1) * (10 ^ 26 + 1) * P * S).
  { apply Z.le_trans with (10 ^ 26 * A * (10 ^ 26 * Tu)).
    - rewrite <- Z.mul_assoc. apply Z.mul_le_mono_nonneg_l; lia.
    - lia. }
  apply Z.mul_le_mono_pos_r in K; [|exact HS].
  destruct (Z_le_gt_dec A P) as [L|G]; [exact L|]. exfalso.
  assert (M : (P + 1) * (10 ^ 26 - n) <= A * (10 ^ 26 - n))
    by (apply Z.mul_le_mono_nonneg_r; lia).
  lia.
Qed.

Lemma conservation_lower (A P n S Tu : Z) :
  0 <= A -> 0 <= P -> 1 <= n -> 0 < S -> 0 < Tu ->
  2 * (n + 2) * (P + 1) <= 10 ^ 26 ->
  (10 ^ 26 - 1) * (10 ^ 26 - 1) * (P * S) <= 10 ^ 52 * ((A + n) * Tu) ->
  10 ^ 26 * Tu <= (10 ^ 26 + 2 * n) * S ->
  P - A <= n.
Proof.
  intros HA HP Hn HS HT H SL B.
  assert (PN : 0 <= P * n) by (apply Z.mul_nonneg_nonneg; lia).
  assert (K : (10 ^ 26 - 1) * (10 ^ 26 - 1) * P * S
              <= 10 ^ 26 * (A + n) * (10 ^ 26 + 2 * n) * S).
  { apply Z.le_trans with (10 ^ 26 * (A + n) * (10 ^ 26 * Tu)).
    - lia.
    - rewrite <- (Z.mul_assoc (10 ^ 26 * (A + n))).
      apply Z.mul_le_mono_nonneg_l; lia. }
  apply Z.mul_le_mono_pos_r in K; [|exact HS].
  destruct (Z_le_gt_dec (P - A) n) as [L|G]; [exact L|]. exfalso.
  assert (M : (A + n) * (10 ^ 26 + 2 * n) <= (P - 1) * (10 ^ 26 + 2 * n))
    by (apply Z.mul_le_mono_nonneg_r; lia).
  lia.
Qed.

Lemma total_within_twice (n S Tu : Z) :
  0 <= S -> 0 <= n -> 2 * n <= 10 ^ 26 ->
  (10 ^ 26 - n) * S <= 10 ^ 26 * Tu -> S <= 2 * Tu.
Proof.
  intros HS Hn H B.
  assert (2 * n * S <= 10 ^ 26 * S) by (apply Z.mul_le_mono_nonneg_r; lia).
  lia.
Qed.

(** The distribution on factors of at most 28 digits and a pool on the
    grid of [10^-10]: every reward is the exact share, moved by the
    roundings of the product, the total and the quotient and cut to the
    grid. *)
Lemma distribute_rel (s : Z) (factors : list decimal) (pool : decimal) :
  0 <= s <= 900 ->
  Forall (context_amount s) factors -> amount 10 pool ->
  0 < total_units s factors ->
  2 * Z.of_nat (length factors) <= 10 ^ 26 ->
  units 10 pool < 10 ^ 26 ->
  exists Tu rewards,
    Scorer1.__distribute factors pool = Ok rewards /\
    0 < Tu /\
    10 ^ 26 * Tu
    <= (10 ^ 26 + 2 * Z.of_nat (length factors)) * total_units s factors /\
    (10 ^ 26 - Z.of_nat (length factors)) * total_units s factors
    <= 10 ^ 26 * Tu /\
    Forall2 (fun f r =>
               (amount 10 r /\ canonical r) /\
               10 ^ 52 * (units 10 r * Tu)
               <= (10 ^ 26 + 1) * (10 ^ 26 + 1)
                  * (units 10 pool * units s f) /\
               (10 ^ 26 - 1) * (10 ^ 26 - 1) * (units 10 pool * units s f)
               <= 10 ^ 52 * ((units 10 r + 1) * Tu))
            factors rewards.
Proof.
  intros Hs Hf Hp HT Hn HP.
  pose proof (Forall_impl _ (context_amount_amount s) Hf) as Af.
  pose proof (total_units_cap s factors ltac:(lia) Hf) as Cap.
  assert (Cap' : 4 * total_units s factors <= 10 ^ (s + 227)).
  { assert (E : 10 ^ (s + 227) = 10 ^ 99 * 10 ^ (128 + s)).
    { rewrite <- Z.pow_add_r by lia. f_equal. lia. }
    rewrite E.
    pose proof (pow10_pos (128 + s) ltac:(lia)) as Px.
    assert (4 * Z.of_nat (length factors) * 10 ^ (128 + s)
            <= 10 ^ 99 * 10 ^ (128 + s))
      by (apply Z.mul_le_mono_nonneg_r; lia).
    lia. }
  destruct (pysum_rel s factors ltac:(lia) Hf HT Hn Cap')
    as (T & eT & ES & HT' & HeT & Up & Lo).
  pose proof (pow10_pos (eT + s) ltac:(lia)) as Pt.
  assert (Tu0 : 0 < T * 10 ^ (eT + s)) by (apply Z.mul_pos_pos; lia).
  assert (S2 : total_units s factors <= 2 * (T * 10 ^ (eT + s))).
  { apply (total_within_twice (Z.of_nat (length factors))); try lia. }
  exists (T * 10 ^ (eT + s)).
  unfold Scorer1.__distribute. rewrite ES. cbn [bind].
  destruct (mapM_Forall2
              (fun factor =>
                 p <- Dec.mul pool factor ;;
                 q <- Dec.div p (Dec.Fin false T eT) ;;
                 z <- Dec.quantize q Scorer1.REWARD_PRECISION Dec.ROUND_DOWN ;;
                 Dec.normalize z)
              (fun f r =>
                 (amount 10 r /\ canonical r) /\
                 10 ^ 52 * (units 10 r * (T * 10 ^ (eT + s)))
                 <= (10 ^ 26 + 1) * (10 ^ 26 + 1)
                    * (units 10 pool * units s f) /\
                 (10 ^ 26 - 1) * (10 ^ 26 - 1)
                 * (units 10 pool * units s f)
                 <= 10 ^ 52 * ((units 10 r + 1) * (T * 10 ^ (eT + s))))
              factors) as (rs & EM & F2).
  { intros f If.
    pose proof (proj1 (Forall_forall _ _) Hf f If) as Cf.
    pose proof (units_le_total s factors f ltac:(lia) Af If) as Uf.
    destruct pool as [[|] pc pe| |]; cbn [amount] in Hp; try contradiction.
    destruct f as [[|] c e| |]; cbn [context_amount] in Cf; try contradiction.
    destruct Hp as [Hpc Hpe]. destruct Cf as [Hc He].
    cbn [units] in *.
    destruct (reward_rel s pc pe c e T eT Hs Hpc ltac:(lia) Hc ltac:(lia)
                ltac:(lia) HeT HP ltac:(lia))
      as (r & Er & Cr & Ar & U & L).
    exists r. split; [exact Er|]. split; [split; assumption|].
    split; assumption. }
  exists rs. split; [exact EM|]. split; [exact Tu0|].
  split; [exact Up|]. split; [exact Lo | exact F2].
Qed.

(** C2, as the code has it: for non-negative factors of at most 28
    significant digits (what the context's arithmetic returns, as in
    [max(dec(score) - dec("0.25"), dec(0))]) with at most [s] decimal
    places, an exponent of at most 100 and a positive sum, and a
    non-negative pool with at most 10 decimal places whose size in units
    of [10^-10], plus one, times the number of factors plus two is at most
    [5 * 10^25], the distribution returns, every reward is non-negative,
    the rewards sum to at most the pool, and the pool exceeds their sum by
    at most one unit of [10^-10] per factor.  The sum of the factors,
    every product and every quotient may be rounded to 28 digits on the
    way. *)
Theorem distribute_conservation
  (s : Z) (factors : list decimal) (pool : decimal) :
  0 <= s <= 900 ->
  Forall (context_amount s) factors -> amount 10 pool ->
  0 < total_units s factors ->
  2 * (Z.of_nat (length factors) + 2) * (units 10 pool + 1) <= 10 ^ 26 ->
  exists rewards,
    Scorer1.__distribute factors pool = Ok rewards /\
    length rewards = length factors /\
    Forall (fun r => amount 10 r /\ 0 <= units 10 r) rewards /\
    total_units 10 rewards <= units 10 pool /\
    units 10 pool - total_units 10 rewards <= Z.of_nat (length factors).
Proof.
  intros Hs Hf Hp HT HB.
  pose proof (units_amount_nonneg 10 pool ltac:(lia) Hp) as HP.
  assert (Hn : 1 <= Z.of_nat (length factors)).
  { destruct factors; [cbn [total_units fold_right] in HT; lia|].
    cbn [length]. lia. }
  set (n := Z.of_nat (length factors)) in *. set (P := units 10 pool) in *.
  assert (B1 : (n + 2) * 1 <= (n + 2) * (P + 1))
    by (apply Z.mul_le_mono_nonneg_l; lia).
  assert (B2 : 3 * (P + 1) <= (n + 2) * (P + 1))
    by (apply Z.mul_le_mono_nonneg_r; lia).
  destruct (distribute_rel s factors pool Hs Hf Hp HT ltac:(fold n; lia)
              ltac:(fold P; lia))
    as (Tu & rs & E & Tu0 & Up & Lo & F).
  fold n in Up, Lo. fold P in F.
  exists rs. split; [exact E|].
  split; [symmetry; exact (Forall2_length F)|].
  assert (G : Forall (fun r => amount 10 r /\ 0 <= units 10 r) rs).
  { assert (G : Forall2 (fun (_ r : decimal) => amount 10 r /\ 0 <= units 10 r)
                        factors rs).
    { revert F. apply Forall2_impl. intros f r [[A _] _].
      split; [exact A|]. apply units_amount_nonneg; [lia | exact A]. }
    clear - G. induction G; constructor; assumption. }
  split; [exact G|].
  assert (A0 : 0 <= total_units 10 rs).
  { apply total_units_nonneg; [lia|].
    revert G. apply Forall_impl. intros r [A _]. exact A. }
  assert (F' : Forall2 (fun f r =>
                 10 ^ 52 * (units 10 r * Tu)
                 <= (10 ^ 26 + 1) * (10 ^ 26 + 1) * (P * units s f) /\
                 (10 ^ 26 - 1) * (10 ^ 26 - 1) * (P * units s f)
                 <= 10 ^ 52 * ((units 10 r + 1) * Tu)) factors rs).
  { revert F. apply Forall2_impl. intros f r [_ U]. exact U. }
  destruct (rel_shares s P Tu _ _ factors rs F') as [SU SL].
  fold n in SL.
  split.
  - exact (conservation_upper _ P n _ Tu A0 HP Hn HT Tu0 HB SU Lo).
  - exact (conservation_lower _ P n _ Tu A0 HP Hn HT Tu0 HB SL Up).
Qed.

Lemma distribute_conservation_witness :
  exists rewards,
    Scorer1.__distribute
      [Dec.Fin false 75 (-2);
       Dec.Fin false 4166666666666666296592325125 (-28);
       Dec.Fin false 8333333333333331482961625625 (-29);
       Dec.Fin false 0 0]
      (dec (Int 160)) = Ok rewards /\
    total_units 10 rewards <= units 10 (dec (Int 160)) /\
    units 10 (dec (Int 160)) - total_units 10 rewards <= 4.
Proof.
  destruct (distribute_conservation 29
              [Dec.Fin false 75 (-2);
               Dec.Fin false 4166666666666666296592325125 (-28);
               Dec.Fin false 8333333333333331482961625625 (-29);
               Dec.Fin false 0 0] (dec (Int 160)))
    as [rs [E [_ [_ [A B]]]]].
  - lia.
  - repeat constructor; cbn [context_amount]; lia.
  - cbn; lia.
  - vm_compute. reflexivity.
  - vm_compute. discriminate.
  - exists rs. split; [exact E|]. split; [exact A | exact B].
Defined.

(** C2 fails as stated: with a pool of 300000000000000000.0000000002 and
    three equal factors the three rewards sum to
    300000000000000000.0000000003, more than the pool. *)
Lemma distribute_exceeds_pool :
  exists rewards,
    Scorer1.__distribute [dec (Int 1); dec (Int 1); dec (Int 1)]
      (Dec.Fin false 3000000000000000000000000002 (-10)) = Ok rewards /\
    units 10 (Dec.Fin false 3000000000000000000000000002 (-10))
    < total_units 10 rewards.
Proof.
  exists [Dec.Fin false 1000000000000000000000000001 (-10);
          Dec.Fin false 1000000000000000000000000001 (-10);
          Dec.Fin false 1000000000000000000000000001 (-10)].
  split; vm_compute; reflexivity.
Qed.

(** The grid of the pool matters as well: the pool
    0.0000000005999999999999999999999999999 has 37 decimal places, its
    double is rounded to 0.000000001200000000000000000000000000 and the
    single participant receives 0.0000000006, more than the pool. *)
Lemma distribute_exceeds_fine_pool :
  (Scorer1.__distribute [dec (Int 2)]
     (Dec.Fin false 5999999999999999999999999999 (-37))
   = Ok [Dec.Fin false 6 (-10)]) /\
  (units 37 (Dec.Fin false 5999999999999999999999999999 (-37))
   < units 37 (Dec.Fin false 6 (-10))).
Proof. split; vm_compute; reflexivity. Qed.

(** ** The weekly pools *)

Lemma pool_of_percentage (perc k n : Z) :
  0 < k -> k * Z.abs n < 10 ^ 28 ->
  Dec.mul Scorer1.UNIT_WEEKLY_POOL (Dec.Fin false perc (-1))
  = Ok (Dec.Fin false k (-1)) ->
  (p <- Dec.mul Scorer1.UNIT_WEEKLY_POOL (Dec.Fin false perc (-1)) ;;
   Dec.mul p (dec (Int n)))
  = Ok (Dec.Fin (n <? 0) (k * Z.abs n) (-1)).
Proof.
  intros Hk B E. rewrite E. cbn [bind dec Dec.of_Z Dec.mul xorb].
  replace (-1 + 0) with (-1) by reflexivity.
  apply fix_exact; [|lia].
  split; [|exact B]. apply Z.mul_nonneg_nonneg; lia.
Qed.

(** X1: for a count below [10^24] in absolute value the three pools are
    exact: 40 per predictor for the challenge pool, 120 per predictor for
    the competition pool and 40 per staker for the stake pool, each held
    with one decimal place; a negative count gives a negative pool. *)
Theorem pools_exact (n : Z) :
  Z.abs n < 10 ^ 24 ->
  Scorer1.compute_challenge_pool n = Ok (Dec.Fin (n <? 0) (400 * Z.abs n) (-1)) /\
  Scorer1.compute_competition_pool n
  = Ok (Dec.Fin (n <? 0) (1200 * Z.abs n) (-1)) /\
  Scorer1.compute_stake_pool n = Ok (Dec.Fin (n <? 0) (400 * Z.abs n) (-1)).
Proof.
  intros H.
  assert (B : 1200 * Z.abs n < 10 ^ 28).
  { assert (E : 10 ^ 28 = 10000 * 10 ^ 24) by reflexivity.
    rewrite E. clear - H. lia. }
  split; [|split].
  - apply (pool_of_percentage 2 400 n); [lia | lia | reflexivity].
  - apply (pool_of_percentage 6 1200 n); [lia | lia | reflexivity].
  - apply (pool_of_percentage 2 400 n); [lia | lia | reflexivity].
Qed.

Lemma pools_exact_witness :
  Scorer1.compute_challenge_pool 7 = Ok (Dec.Fin false 2800 (-1)) /\
  Scorer1.compute_competition_pool 7 = Ok (Dec.Fin false 8400 (-1)) /\
  Scorer1.compute_stake_pool 7 = Ok (Dec.Fin false 2800 (-1)).
Proof.
  apply (pools_exact 7). reflexivity.
Defined.

(** Subtracting two amounts that fit the precision is exact; the result
    has the smaller exponent and the sign of the difference. *)
Lemma sub_exact (s c1 e1 c2 e2 : Z) :
  0 <= s <= 1000 ->
  0 <= c1 -> - s <= e1 <= 100 ->
  0 <= c2 -> - s <= e2 <= 100 ->
  c1 * 10 ^ (e1 + s) < 10 ^ 28 ->
  c2 * 10 ^ (e2 + s) < 10 ^ 28 ->
  exists c,
    Dec.sub (Dec.Fin false c1 e1) (Dec.Fin false c2 e2)
    = Ok (Dec.Fin (c1 * 10 ^ (e1 + s) <? c2 * 10 ^ (e2 + s)) c (Z.min e1 e2)) /\
    c * 10 ^ (Z.min e1 e2 + s)
    = Z.abs (c1 * 10 ^ (e1 + s) - c2 * 10 ^ (e2 + s)).
Proof.
  intros Hs H1 He1 H2 He2 B1 B2.
  set (m := Z.min e1 e2).
  assert (Hm : - s <= m /\ m <= e1 /\ m <= e2) by (unfold m; lia).
  pose proof (pow10_pos (e1 + s) ltac:(lia)) as P1.
  pose proof (pow10_pos (e2 + s) ltac:(lia)) as P2.
  pose proof (pow10_pos (m + s) ltac:(lia)) as Pm.
  pose proof (pow10_pos (e1 - m) ltac:(lia)) as Q1.
  pose proof (pow10_pos (e2 - m) ltac:(lia)) as Q2.
  pose proof (scale_split c1 e1 m s ltac:(lia)) as S1.
  pose proof (scale_split c2 e2 m s ltac:(lia)) as S2.
  assert (U1 : c1 * 10 ^ (e1 - m) <= c1 * 10 ^ (e1 + s))
    by (apply scale_mono; lia).
  assert (U2 : c2 * 10 ^ (e2 - m) <= c2 * 10 ^ (e2 + s))
    by (apply scale_mono; lia).
  assert (V1 : 0 <= c1 * 10 ^ (e1 - m)) by (apply Z.mul_nonneg_nonneg; lia).
  assert (V2 : 0 <= c2 * 10 ^ (e2 - m)) by (apply Z.mul_nonneg_nonneg; lia).
  set (i1 := c1 * 10 ^ (e1 - m)) in *. set (i2 := c2 * 10 ^ (e2 - m)) in *.
  rewrite <- S1, <- S2.
  assert (SG : (i1 * 10 ^ (m + s) <? i2 * 10 ^ (m + s)) = (i1 <? i2)).
  { destruct (Z.ltb_spec i1 i2) as [L|L].
    - apply Z.ltb_lt. apply Z.mul_lt_mono_pos_r; assumption.
    - apply Z.ltb_ge. apply Z.mul_le_mono_nonneg_r; lia. }
  assert (AB : Z.abs (i1 * 10 ^ (m + s) - i2 * 10 ^ (m + s))
               = Z.abs (i1 - i2) * 10 ^ (m + s)).
  { rewrite <- Z.mul_sub_distr_r, Z.abs_mul. f_equal. apply Z.abs_eq. lia. }
  rewrite SG, AB.
  unfold Dec.sub, Dec.neg, Dec.add. fold m. cbn [negb andb xorb].
  destruct (Z.eqb_spec c1 0) as [Z1|Z1]; destruct (Z.eqb_spec c2 0) as [Z2|Z2];
    cbn [andb].
  - exists 0.
    assert (I1 : i1 = 0) by (unfold i1; rewrite Z1; apply Z.mul_0_l).
    assert (I2 : i2 = 0) by (unfold i2; rewrite Z2; apply Z.mul_0_l).
    rewrite I1, I2.
    rewrite fix_exact by (first [lia | split; [lia | reflexivity]]).
    split; reflexivity.
  - assert (E2 : e2 + s < 28) by (apply (pow10_exp_small c2); lia).
    assert (I1 : i1 = 0) by (unfold i1; rewrite Z1; apply Z.mul_0_l).
    rewrite Z.max_l by (unfold Dec.prec; lia).
    unfold Dec._rescale.
    destruct (Z.eqb_spec c2 0) as [X|_]; [lia|].
    destruct (Z.leb_spec m e2) as [_|X]; [|lia].
    cbn [Dec.fix_t]. fold i2. rewrite fix_exact by lia.
    exists i2. rewrite I1.
    assert (0 < i2) by (unfold i2; apply Z.mul_pos_pos; lia).
    replace (0 <? i2) with true by (symmetry; apply Z.ltb_lt; lia).
    split; [reflexivity|]. f_equal. lia.
  - assert (E1' : e1 + s < 28) by (apply (pow10_exp_small c1); lia).
    assert (I2 : i2 = 0) by (unfold i2; rewrite Z2; apply Z.mul_0_l).
    rewrite Z.max_l by (unfold Dec.prec; lia).
    unfold Dec._rescale.
    destruct (Z.eqb_spec c1 0) as [X|_]; [lia|].
    destruct (Z.leb_spec m e1) as [_|X]; [|lia].
    cbn [Dec.fix_t]. fold i1. rewrite fix_exact by lia.
    exists i1. rewrite I2.
    replace (i1 <? 0) with false by (symmetry; apply Z.ltb_ge; lia).
    split; [reflexivity|]. f_equal. lia.
  - pose proof (ndigits_scaled c1 (e1 + s) ltac:(lia) ltac:(lia) ltac:(lia))
      as D1.
    pose proof (ndigits_scaled c2 (e2 + s) ltac:(lia) ltac:(lia) ltac:(lia))
      as D2.
    pose proof (ndigits_pos c1) as G1. pose proof (ndigits_pos c2) as G2.
    assert (N : Dec._normalize c1 e1 c2 e2 = (i1, i2, m)).
    { unfold Dec._normalize, Dec.prec, i1, i2.
      destruct (Z.ltb_spec e1 e2) as [L|L].
      - destruct (Z.ltb_spec (Dec.ndigits c1 + e1 - 1)
                    (e2 + Z.min (-1) (Dec.ndigits c2 - 28 - 2))); [lia|].
        replace m with e1 by (unfold m; lia).
        rewrite Z.sub_diag. change (10 ^ 0) with 1. f_equal. f_equal. lia.
      - destruct (Z.ltb_spec (Dec.ndigits c2 + e2 - 1)
                    (e1 + Z.min (-1) (Dec.ndigits c1 - 28 - 2))); [lia|].
        replace m with e2 by (unfold m; lia).
        rewrite Z.sub_diag. change (10 ^ 0) with 1. f_equal. f_equal. lia. }
    rewrite N.
    destruct (Z.eqb_spec i1 i2) as [E|E].
    + rewrite fix_exact by (first [lia | split; [lia | reflexivity]]).
      exists 0. rewrite E, Z.ltb_irrefl, Z.sub_diag. split; reflexivity.
    + destruct (Z.ltb_spec i1 i2) as [L|L].
      * rewrite fix_exact by lia. exists (i2 - i1).
        split; [reflexivity|]. f_equal. lia.
      * rewrite fix_exact by lia. exists (i1 - i2).
        split; [reflexivity|]. f_equal. lia.
Qed.

(** X2: for non-negative counts below [10^20] the surplus is exactly the
    weekly total of 200000 less 160 per predictor and 40 per staker, held
    with one decimal place: zero at 1000 predictors and 1000 stakers, and,
    as nothing clamps it, negative as soon as the pools exceed the
    total. *)
Theorem pool_surplus_exact (num_predictors num_stakers : Z) :
  0 <= num_predictors < 10 ^ 20 -> 0 <= num_stakers < 10 ^ 20 ->
  let pools := 1600 * num_predictors + 400 * num_stakers in
  Scorer1.compute_pool_surplus num_predictors num_stakers
  = Ok (Dec.Fin (2000000 <? pools) (Z.abs (2000000 - pools)) (-1)).
Proof.
  intros Hp Hq pools.
  assert (E28 : 10 ^ 28 = 100000000 * 10 ^ 20) by reflexivity.
  unfold Scorer1.compute_pool_surplus, Scorer1.compute_challenge_pool,
    Scorer1.compute_competition_pool, Scorer1.compute_stake_pool,
    Scorer1.CHALLENGE_REWARD_PERC, Scorer1.COMPETITION_REWARD_PERC,
    Scorer1.STAKE_REWARD_PERC.
  rewrite (pool_of_percentage 2 400 num_predictors)
    by (first [reflexivity | rewrite E28; lia | lia]).
  rewrite (pool_of_percentage 6 1200 num_predictors)
    by (first [reflexivity | rewrite E28; lia | lia]).
  rewrite (pool_of_percentage 2 400 num_stakers)
    by (first [reflexivity | rewrite E28; lia | lia]).
  cbn [bind].
  replace (num_predictors <? 0) with false by (symmetry; apply Z.ltb_ge; lia).
  replace (num_stakers <? 0) with false by (symmetry; apply Z.ltb_ge; lia).
  rewrite !Z.abs_eq by lia.
  destruct (add_exact 1 (400 * num_predictors) (-1) (1200 * num_predictors) (-1))
    as [ab [Eab [Hab Vab]]]; try lia.
  change (Z.min (-1) (-1)) with (-1) in Eab, Vab.
  change (10 ^ (-1 + 1)) with 1 in Vab.
  rewrite Eab. cbn [bind].
  destruct (add_exact 1 ab (-1) (400 * num_stakers) (-1))
    as [abc [Eabc [Habc Vabc]]]; try lia.
  change (Z.min (-1) (-1)) with (-1) in Eabc, Vabc.
  change (10 ^ (-1 + 1)) with 1 in Vabc.
  rewrite Eabc. cbn [bind].
  assert (A : abc = pools) by (unfold pools; lia).
  rewrite A. unfold Scorer1.TOTAL_WEEKLY_POOL.
  change (dec (Int 200000)) with (Dec.Fin false 200000 0).
  destruct (sub_exact 1 200000 0 pools (-1)) as [c [Ec Vc]];
    try (unfold pools; lia).
  change (Z.min 0 (-1)) with (-1) in Ec, Vc.
  change (10 ^ (-1 + 1)) with 1 in Ec, Vc.
  change (10 ^ (0 + 1)) with 10 in Ec, Vc.
  rewrite Ec. f_equal. f_equal.
  - f_equal. lia.
  - lia.
Qed.

Lemma pool_surplus_exact_witness :
  Scorer1.compute_pool_surplus 1000 1000 = Ok (Dec.Fin false 0 (-1)) /\
  Scorer1.compute_pool_surplus 1500 0 = Ok (Dec.Fin true 400000 (-1)).
Proof.
  split.
  - apply (pool_surplus_exact 1000 1000); split; reflexivity || lia.
  - apply (pool_surplus_exact 1500 0); split; reflexivity || lia.
Defined.

(** ** Rewards at the edges *)

Lemma mapM_err {A B : Type} (f : A -> result B) (e : exn) (l : list A) :
  (forall a, In a l -> (exists b, f a = Ok b) \/ f a = Err e) ->
  (exists a, In a l /\ f a = Err e) ->
  mapM f l = Err e.
Proof.
  induction l as [|x l IH]; intros H [a [Ia Ea]]; [contradiction|].
  cbn [mapM].
  destruct (H x (or_introl eq_refl)) as [[b Eb]|Ex].
  - rewrite Eb. cbn [bind].
    destruct Ia as [->|Ia]; [congruence|].
    rewrite IH; [reflexivity | | exists a; split; assumption].
    intros y Hy. apply H. right. exact Hy.
  - rewrite Ex. reflexivity.
Qed.

Lemma single_defined_others_nan (scores : list f64) (x y : f64) :
  count_defined scores = 1 ->
  In x scores -> F64.is_finite x = true ->
  In y scores -> F64.is_finite y = false -> F64.is_nan y = true.
Proof.
  intros N Hx Fx Hy Fy.
  destruct (F64.is_nan y) eqn:Ny; [reflexivity|]. exfalso.
  unfold count_defined, count_if in N.
  assert (Dx : In x (filter (fun z => negb (F64.is_nan z)) scores)).
  { apply filter_In. split; [exact Hx|]. destruct x; try discriminate;
      reflexivity. }
  assert (Dy : In y (filter (fun z => negb (F64.is_nan z)) scores)).
  { apply filter_In. split; [exact Hy|]. rewrite Ny. reflexivity. }
  destruct (filter (fun z => negb (F64.is_nan z)) scores) as [|a [|b l]];
    cbn [length] in N; try lia.
  destruct Dx as [<-|[]]. destruct Dy as [<-|[]]. congruence.
Qed.

(** X3: with exactly one competition score that is not NaN, and that
    score finite, the competition rewards are not computed: the ranked
    participant's normalized rank is 0/0, a NaN, and the comparison of the
    factor [NaN - 0.5] with 0 raises InvalidOperation, whatever the
    pool. *)
Theorem competition_rewards_single_raise
  (competition_scores : list f64) (competition_pool : decimal) :
  count_defined competition_scores = 1 ->
  (exists x, In x competition_scores /\ F64.is_finite x = true) ->
  Scorer1.compute_competition_rewards competition_scores competition_pool
  = Err InvalidOperation.
Proof.
  intros N [x [Hx Fx]].
  rewrite competition_rewards_unfold by lia. rewrite N.
  assert (R : forall y, In y competition_scores -> F64.is_finite y = true ->
              competition_factor
                (normalized_rank 1 (masked_rank competition_scores y))
              = Err InvalidOperation).
  { intros y Hy Fy. unfold masked_rank. rewrite Fy.
    pose proof (rank2_bounds competition_scores y Hy Fy) as B.
    pose proof (unmasked_le_defined competition_scores) as Hu.
    unfold avg_rank. replace (rank2 competition_scores y) with 2 by lia.
    vm_compute. reflexivity. }
  rewrite (mapM_err _ InvalidOperation); [reflexivity | |].
  - intros y Hy. destruct (F64.is_finite y) eqn:Fy.
    + right. apply R; assumption.
    + left. unfold masked_rank. rewrite Fy. eexists. vm_compute. reflexivity.
  - exists x. split; [exact Hx|]. apply R; assumption.
Qed.

Lemma competition_rewards_single_raise_witness :
  Scorer1.compute_competition_rewards [F64.nan; F64.one; F64.nan]
    (dec (Int 120)) = Err InvalidOperation.
Proof.
  apply competition_rewards_single_raise.
  - reflexivity.
  - exists F64.one. split; [right; left; reflexivity | reflexivity].
Defined.

Lemma challenge_factor_missing (x : f64) :
  F64.is_nan x = true -> challenge_factor x = Ok (Dec.Fin false 0 0).
Proof.
  intros H. unfold challenge_factor. rewrite H. vm_compute. reflexivity.
Qed.

Lemma pysum_zeros (n : nat) :
  Dec.pysum (repeat (Dec.Fin false 0 0) (S n)) = Ok (Dec.Fin false 0 0).
Proof.
  cbn [repeat Dec.pysum].
  replace (Dec.add (Dec.Fin false 0 0) Dec.zero) with (Ok (Dec.Fin false 0 0))
    by reflexivity.
  cbn [bind]. induction n as [|n IH]; [reflexivity|].
  cbn [repeat Dec.sum_from].
  replace (Dec.add (Dec.Fin false 0 0) (Dec.Fin false 0 0))
    with (Ok (Dec.Fin false 0 0)) by reflexivity.
  cbn [bind]. exact IH.
Qed.

(** X4: challenge rewards have no early return for a round without
    scores: on a non-empty list of scores that are all NaN every factor
    is 0, their total is 0, and the first division raises
    InvalidOperation for every pool that is not NaN. *)
Theorem challenge_rewards_all_missing_raise
  (challenge_scores : list f64) (challenge_pool : decimal) :
  challenge_scores <> [] ->
  (forall x, In x challenge_scores -> F64.is_nan x = true) ->
  Dec.is_nan challenge_pool = false ->
  Scorer1.compute_challenge_rewards challenge_scores challenge_pool
  = Err InvalidOperation.
Proof.
  intros Hne Hn Hp. rewrite challenge_rewards_unfold.
  rewrite (mapM_ok _ (fun _ => Dec.Fin false 0 0))
    by (intros a Ha; apply challenge_factor_missing, Hn, Ha).
  cbn [bind].
  destruct challenge_scores as [|x l]; [contradiction|].
  replace (map (fun _ : f64 => Dec.Fin false 0 0) (x :: l))
    with (repeat (Dec.Fin false 0 0) (S (length l))).
  2:{ clear. cbn [repeat map]. f_equal. induction l as [|y l IH];
        [reflexivity|]. cbn [length repeat map]. rewrite IH. reflexivity. }
  unfold Scorer1.__distribute. rewrite pysum_zeros. cbn [bind repeat mapM].
  destruct challenge_pool as [ps pc pe| ps|]; [| reflexivity | discriminate].
  cbn [Dec.mul]. rewrite Z.mul_0_r. unfold Dec._fix. cbn [Z.eqb bind].
  reflexivity.
Qed.

Lemma challenge_rewards_all_missing_raise_witness :
  Scorer1.compute_challenge_rewards [F64.nan; F64.nan] (dec (Int 40))
  = Err InvalidOperation.
Proof.
  apply challenge_rewards_all_missing_raise.
  - discriminate.
  - intros x [<-|[<-|[]]]; reflexivity.
  - reflexivity.
Defined.

(** X5: whenever one of the three reward computations returns, it
    returns one reward per participant. *)
Theorem rewards_one_per_participant :
  (forall scores pool rewards,
     Scorer1.compute_challenge_rewards scores pool = Ok rewards ->
     length rewards = length scores) /\
  (forall scores pool rewards,
     Scorer1.compute_competition_rewards scores pool = Ok rewards ->
     length rewards = length scores) /\
  (forall stakes pool rewards,
     Scorer1.compute_stake_rewards stakes pool = Ok rewards ->
     length rewards = length stakes).
Proof.
  assert (D : forall factors pool rewards,
             Scorer1.__distribute factors pool = Ok rewards ->
             length rewards = length factors).
  { intros factors pool rewards H. unfold Scorer1.__distribute in H.
    destruct (Dec.pysum factors) as [t|e]; [|discriminate].
    cbn [bind] in H. exact (mapM_length _ _ _ H). }
  split; [|split].
  - intros scores pool rewards H. rewrite challenge_rewards_unfold in H.
    destruct (mapM challenge_factor scores) as [fs|e] eqn:M; [|discriminate].
    cbn [bind] in H. rewrite (D _ _ _ H). exact (mapM_length _ _ _ M).
  - intros scores pool rewards H.
    destruct (Z.eq_dec (count_defined scores) 0) as [Z0|NZ].
    + unfold Scorer1.compute_competition_rewards in H. rewrite Z0 in H.
      cbn [Z.eqb] in H. injection H as <-. apply repeat_length.
    + rewrite competition_rewards_unfold in H by exact NZ.
      destruct (mapM _ scores) as [fs|e] eqn:M; [|discriminate].
      cbn [bind] in H. rewrite (D _ _ _ H). exact (mapM_length _ _ _ M).
  - intros stakes pool rewards H. exact (D _ _ _ H).
Qed.

Lemma rewards_one_per_participant_witness :
  length [dec (Int 5); dec (Int 5)] = length [dec (Int 1); dec (Int 1)].
Proof.
  apply (proj2 (proj2 rewards_one_per_participant) _ (dec (Int 10))).
  vm_compute. reflexivity.
Defined.

(** ** Validation does not depend on order *)

Lemma bool_eq_iff (a b : bool) : (a = true <-> b = true) -> a = b.
Proof. destruct a, b; intros [H1 H2]; auto; symmetry; auto. Qed.

(** On the decimals of the model the function with signaling values is
    the function of the model. *)
Lemma validate_prediction_raw_value
  (assets : list string) (predictions : list (string * decimal)) :
  validate_prediction_raw assets
    (map (fun av => (fst av, Value (snd av))) predictions)
  = Ok (validate_prediction assets predictions).
Proof.
  unfold validate_prediction_raw, validate_prediction.
  rewrite map_map, length_map. cbn [fst].
  rewrite (map_ext (fun x : string * decimal => fst x) fst) by reflexivity.
  destruct (negb (set_eqb assets (map fst predictions))); [reflexivity|].
  destruct (negb (length assets =? length predictions)%nat); [reflexivity|].
  assert (E : any_isnan (map (fun av => (fst av, Value (snd av))) predictions)
              = Ok (existsb (fun av => Dec.is_nan (snd av)) predictions)).
  { induction predictions as [|[a d] l IH]; [reflexivity|].
    cbn [map any_isnan existsb fst snd].
    destruct (Dec.is_nan d); [reflexivity | exact IH]. }
  rewrite E. reflexivity.
Qed.

Lemma any_isnan_no_signaling (predictions : list (string * pyvalue)) :
  no_signaling predictions ->
  any_isnan predictions
  = Ok (existsb (fun av => match snd av with
                           | Value d => Dec.is_nan d
                           | SNaN => false
                           end) predictions).
Proof.
  intros H. induction H as [|[a v] l Hv Hl IH]; [reflexivity|].
  cbn [any_isnan existsb snd]. destruct v as [d|].
  - destruct (Dec.is_nan d); [reflexivity | exact IH].
  - exfalso. apply Hv. reflexivity.
Qed.

(** X6: when no submitted value is a signaling NaN, the verdict depends
    neither on the order of the required assets nor on the order of the
    submitted pairs. *)
Theorem validate_prediction_order
  (assets assets' : list string)
  (predictions predictions' : list (string * pyvalue)) :
  Permutation assets assets' ->
  Permutation predictions predictions' ->
  no_signaling predictions ->
  validate_prediction_raw assets predictions
  = validate_prediction_raw assets' predictions'.
Proof.
  intros Pa Pp Hn. unfold validate_prediction_raw.
  assert (Hn' : no_signaling predictions')
    by exact (Permutation_Forall Pp Hn).
  assert (S : set_eqb assets (map fst predictions)
              = set_eqb assets' (map fst predictions')).
  { apply bool_eq_iff. rewrite !set_eqb_spec.
    pose proof (Permutation_map fst Pp) as Pk.
    split; intros H a; split; intros Ha.
    - apply (Permutation_in _ Pk), H, (Permutation_in _ (Permutation_sym Pa)), Ha.
    - apply (Permutation_in _ Pa), H, (Permutation_in _ (Permutation_sym Pk)), Ha.
    - apply (Permutation_in _ (Permutation_sym Pk)), H, (Permutation_in _ Pa), Ha.
    - apply (Permutation_in _ (Permutation_sym Pa)), H, (Permutation_in _ Pk), Ha. }
  rewrite (any_isnan_no_signaling _ Hn), (any_isnan_no_signaling _ Hn').
  set (p := fun av : string * pyvalue =>
              match snd av with Value d => Dec.is_nan d | SNaN => false end).
  assert (N : existsb p predictions = existsb p predictions').
  { apply bool_eq_iff. rewrite !existsb_exists.
    split; intros [x [Hx Hp]]; exists x; (split; [|exact Hp]).
    - exact (Permutation_in _ Pp Hx).
    - exact (Permutation_in _ (Permutation_sym Pp) Hx). }
  rewrite S, N, (Permutation_length Pa), (Permutation_length Pp).
  reflexivity.
Qed.

Lemma validate_prediction_order_witness :
  validate_prediction_raw ["BTC"%string; "ETH"%string]
    [("ETH"%string, Value (dec (Int 2))); ("BTC"%string, Value Dec.NaN)]
  = validate_prediction_raw ["ETH"%string; "BTC"%string]
      [("BTC"%string, Value Dec.NaN); ("ETH"%string, Value (dec (Int 2)))].
Proof.
  apply validate_prediction_order; [apply perm_swap | apply perm_swap |].
  repeat constructor; discriminate.
Defined.

(** With a signaling NaN among the values the order does matter: a quiet
    NaN met first ends the visit with the verdict [False], the signaling
    NaN met first raises. *)
Lemma validate_prediction_signaling_order :
  validate_prediction_raw ["A"%string; "B"%string]
    [("A"%string, Value Dec.NaN); ("B"%string, SNaN)] = Ok false /\
  validate_prediction_raw ["A"%string; "B"%string]
    [("B"%string, SNaN); ("A"%string, Value Dec.NaN)] = Err ValueError.
Proof. split; reflexivity. Qed.

(** ** The window of the competition score *)

Lemma last4_app {A : Type} (older recent : list A) :
  length recent = 4%nat -> Scorer1.last4 (older ++ recent) = recent.
Proof.
  intros H. unfold Scorer1.last4. rewrite length_app, H.
  replace (length older + 4 - 4)%nat with (length older + 0)%nat by lia.
  rewrite skipn_app, Nat.add_0_r, skipn_all.
  replace (length older - length older)%nat with 0%nat by lia.
  reflexivity.
Qed.

Lemma last4_short {A : Type} (l : list A) :
  (length l <= 4)%nat -> Scorer1.last4 l = l.
Proof.
  intros H. unfold Scorer1.last4.
  replace (length l - 4)%nat with 0%nat by lia. reflexivity.
Qed.

(** X7: only the last four challenge scores count: whatever precedes
    them in the history has no effect on the competition score. *)
Theorem competition_score_window (older recent : list f64) :
  length recent = 4%nat ->
  Scorer1.compute_competition_score (older ++ recent)
  = Scorer1.compute_competition_score recent.
Proof.
  intros H. unfold Scorer1.compute_competition_score.
  rewrite (last4_app older recent H), (last4_short recent) by lia.
  reflexivity.
Qed.

Lemma competition_score_window_witness :
  Scorer1.compute_competition_score
    ([F64.zero; F64.nan] ++ [F64.one; F64.one; F64.nan; F64.one])
  = Scorer1.compute_competition_score [F64.one; F64.one; F64.nan; F64.one].
Proof.
  apply competition_score_window. reflexivity.
Defined.

(** X8: a history of fewer than four scores is scored as if a missing
    score preceded it: a challenge that was never played and a challenge
    whose score is NaN are the same skip. *)
Theorem competition_score_short_history (history : list f64) :
  (length history < 4)%nat ->
  Scorer1.compute_competition_score (F64.nan :: history)
  = Scorer1.compute_competition_score history.
Proof.
  intros H. unfold Scorer1.compute_competition_score.
  rewrite (last4_short history) by lia.
  rewrite (last4_short (F64.nan :: history)) by (cbn [length]; lia).
  rewrite !count_skips_fold, count_if_cons.
  cbn [length F64.is_nan F64.nan].
  replace (4 - Z.of_nat (S (length history)) + (1 + count_if F64.is_nan history))
    with (4 - Z.of_nat (length history) + count_if F64.is_nan history) by lia.
  reflexivity.
Qed.

Lemma competition_score_short_history_witness :
  Scorer1.compute_competition_score [F64.nan; F64.one; F64.zero]
  = Scorer1.compute_competition_score [F64.one; F64.zero].
Proof.
  apply competition_score_short_history. cbn [length]. lia.
Defined.

(** ** Ties *)

Lemma eqb_true_cases (x y : f64) :
  F64.eqb x y = true ->
  x = y \/ (exists s1 s2, x = S754_zero s1 /\ y = S754_zero s2).
Proof.
  unfold F64.eqb, SFeqb.
  destruct x as [s1|s1| |s1 m1 e1], y as [s2|s2| |s2 m2 e2];
    cbn [SFcompare]; intros H;
    try discriminate H;
    try (destruct s1; discriminate H);
    try (destruct s2; discriminate H).
  - right. exists s1, s2. split; reflexivity.
  - destruct s1, s2; try discriminate H; left; reflexivity.
  - assert (K : Z.compare e1 e2 = Eq -> Pos.compare_cont Eq m1 m2 = Eq ->
                S754_finite s1 m1 e1 = S754_finite s1 m2 e2).
    { intros He Hm. apply Z.compare_eq in He. apply Pos.compare_eq in Hm.
      subst. reflexivity. }
    left.
    destruct s1, s2; try discriminate H;
      destruct (Z.compare e1 e2) eqn:He; try discriminate H;
      destruct (Pos.compare_cont Eq m1 m2) eqn:Hm; try discriminate H;
      apply K; reflexivity.
Qed.

Lemma compare_zero_sign (z : f64) (s1 s2 : bool) :
  SFcompare z (S754_zero s1) = SFcompare z (S754_zero s2).
Proof. destruct z; reflexivity. Qed.

Lemma eqb_true_same_rank (a : list f64) (x y : f64) :
  F64.eqb x y = true ->
  F64.is_finite x = F64.is_finite y /\ avg_rank a x = avg_rank a y.
Proof.
  intros H. destruct (eqb_true_cases x y H) as [->|[s1 [s2 [-> ->]]]].
  - split; reflexivity.
  - split; [reflexivity|]. unfold avg_rank, rank2.
    rewrite (count_if_ext (fun z => F64.ltb z (S754_zero s1))
               (fun z => F64.ltb z (S754_zero s2))).
    2:{ intros z _. unfold F64.ltb, SFltb.
        rewrite (compare_zero_sign z s1 s2). reflexivity. }
    rewrite (count_if_ext (fun z => F64.eqb z (S754_zero s1))
               (fun z => F64.eqb z (S754_zero s2))).
    2:{ intros z _. unfold F64.eqb, SFeqb.
        rewrite (compare_zero_sign z s1 s2). reflexivity. }
    reflexivity.
Qed.

(** X9: two participants whose errors compare equal receive the same
    challenge score. *)
Theorem challenge_scores_ties
  (errors : list f64) (i j : nat) (x y : f64) :
  nth_error errors i = Some x -> nth_error errors j = Some y ->
  F64.eqb x y = true ->
  nth_error (Scorer1.compute_challenge_scores errors) i
  = nth_error (Scorer1.compute_challenge_scores errors) j.
Proof.
  intros Hi Hj E. unfold Scorer1.compute_challenge_scores.
  destruct (count_defined errors =? 0).
  - destruct i, j; reflexivity.
  - rewrite ranks_of_spec, map_map, !nth_error_map, Hi, Hj.
    cbn [option_map].
    destruct (eqb_true_same_rank errors x y E) as [-> ->]. reflexivity.
Qed.

Lemma challenge_scores_ties_witness :
  nth_error (Scorer1.compute_challenge_scores
               [F64.one; S754_zero false; F64.one; S754_zero true]) 1
  = nth_error (Scorer1.compute_challenge_scores
                 [F64.one; S754_zero false; F64.one; S754_zero true]) 3.
Proof.
  apply (challenge_scores_ties _ 1 3 (S754_zero false) (S754_zero true));
    reflexivity.
Defined.

(** ** The facade *)

(** X10: for a challenge number that is not negative every function of
    the module returns what the method of [Scorer1] returns: the
    challenge number has no other effect on the result. *)
Theorem facade_delegates
  (mse : list f64 -> list f64 -> result f64) (n : Z) :
  0 <= n ->
  (forall p v, compute_challenge_error mse n p v
               = Scorer1.compute_challenge_error mse p v) /\
  (forall errs, compute_challenge_scores mse n errs
                = Ok (Scorer1.compute_challenge_scores errs)) /\
  (forall h, compute_competition_score mse n h
             = Ok (Scorer1.compute_competition_score h)) /\
  (forall s pool, compute_challenge_rewards mse n s pool
                  = Scorer1.compute_challenge_rewards s pool) /\
  (forall s pool, compute_competition_rewards mse n s pool
                  = Scorer1.compute_competition_rewards s pool) /\
  (forall s pool, compute_stake_rewards mse n s pool
                  = Scorer1.compute_stake_rewards s pool) /\
  (forall k, compute_challenge_pool mse n k = Scorer1.compute_challenge_pool k) /\
  (forall k, compute_competition_pool mse n k
             = Scorer1.compute_competition_pool k) /\
  (forall k, compute_stake_pool mse n k = Scorer1.compute_stake_pool k) /\
  (forall k1 k2, compute_pool_surplus mse n k1 k2
                 = Scorer1.compute_pool_surplus k1 k2).
Proof.
  intros H.
  unfold compute_challenge_error, compute_challenge_scores,
    compute_competition_score, compute_challenge_rewards,
    compute_competition_rewards, compute_stake_rewards,
    compute_challenge_pool, compute_competition_pool, compute_stake_pool,
    compute_pool_surplus.
  rewrite (get_nonnegative mse n H). cbn [bind].
  repeat split; intros; reflexivity.
Qed.

Lemma facade_delegates_witness :
  compute_stake_pool (fun _ _ => Ok F64.zero) 12 5 = Scorer1.compute_stake_pool 5.
Proof.
  apply (facade_delegates (fun _ _ => Ok F64.zero) 12); lia.
Defined.

(** ** Fairness of the distribution *)

Lemma pow10_mod10 (c k : Z) : 0 < k -> (c * 10 ^ k) mod 10 = 0.
Proof.
  intros H. replace k with (1 + (k - 1)) by lia.
  rewrite Z.pow_add_r by lia. change (10 ^ 1) with 10.
  replace (c * (10 * 10 ^ (k - 1))) with (c * 10 ^ (k - 1) * 10) by ring.
  apply Z.mod_mul. lia.
Qed.

(** A stripped amount is determined by its value. *)
Lemma canonical_unique (r r' : decimal) :
  amount 10 r -> canonical r -> amount 10 r' -> canonical r' ->
  units 10 r = units 10 r' -> r = r'.
Proof.
  destruct r as [[|] c e| |], r' as [[|] c' e'| |]; cbn [amount canonical units];
    try contradiction.
  intros [Hc He] C [Hc' He'] C' U.
  pose proof (pow10_pos (e + 10) ltac:(lia)) as P.
  pose proof (pow10_pos (e' + 10) ltac:(lia)) as P'.
  assert (Z0 : c = 0 -> c' = 0).
  { intros ->. rewrite Z.mul_0_l in U. symmetry in U.
    apply Z.mul_eq_0 in U. lia. }
  assert (Z0' : c' = 0 -> c = 0).
  { intros ->. rewrite Z.mul_0_l in U. apply Z.mul_eq_0 in U. lia. }
  destruct (Z.eq_dec c 0) as [E0|N0].
  - specialize (Z0 E0). subst c c'.
    destruct C as [C|[_ ->]]; [exfalso; apply C; reflexivity|].
    destruct C' as [C'|[_ ->]]; [exfalso; apply C'; reflexivity|].
    reflexivity.
  - assert (N0' : c' <> 0) by (intros X; apply N0, Z0', X).
    destruct C as [C|[X _]]; [|contradiction].
    destruct C' as [C'|[X _]]; [|contradiction].
    destruct (Z.lt_trichotomy e e') as [L|[E|G]].
    + exfalso. apply C.
      assert (c = c' * 10 ^ (e' - e)).
      { apply (Z.mul_reg_r _ _ (10 ^ (e + 10))); [lia|].
        rewrite U, <- Z.mul_assoc, <- Z.pow_add_r by lia.
        f_equal. f_equal. lia. }
      subst c. apply pow10_mod10. lia.
    + subst e'. f_equal. apply (Z.mul_reg_r _ _ (10 ^ (e + 10))); [lia|].
      exact U.
    + exfalso. apply C'.
      assert (c' = c * 10 ^ (e - e')).
      { apply (Z.mul_reg_r _ _ (10 ^ (e' + 10))); [lia|].
        rewrite <- U, <- Z.mul_assoc, <- Z.pow_add_r by lia.
        f_equal. f_equal. lia. }
      subst c'. apply pow10_mod10. lia.
Qed.

Lemma Forall2_nth_error {A B : Type} (P : A -> B -> Prop)
  (l : list A) (l' : list B) (i : nat) (a : A) :
  Forall2 P l l' -> nth_error l i = Some a ->
  exists b, nth_error l' i = Some b /\ P a b.
Proof.
  intros H. revert i. induction H as [|x y l l' Hxy _ IH]; intros i Hi.
  - destruct i; discriminate.
  - destruct i as [|i]; cbn [nth_error] in *.
    + injection Hi as <-. exists y. split; [reflexivity | exact Hxy].
    + exact (IH i Hi).
Qed.

(** X11: inside the exact range of the distribution (the conditions of
    C1) a factor that is not smaller never earns a smaller reward, and a
    factor of zero earns exactly the decimal 0. *)
Theorem distribute_monotone
  (s : Z) (factors : list decimal) (pool : decimal) :
  0 <= s <= 100 ->
  Forall (amount s) factors -> amount 10 pool ->
  0 < total_units s factors < 10 ^ 28 ->
  units 10 pool * total_units s factors < 10 ^ 27 ->
  exists rewards,
    Scorer1.__distribute factors pool = Ok rewards /\
    (forall i j fi fj,
       nth_error factors i = Some fi -> nth_error factors j = Some fj ->
       units s fi <= units s fj ->
       exists ri rj,
         nth_error rewards i = Some ri /\ nth_error rewards j = Some rj /\
         units 10 ri <= units 10 rj) /\
    (forall i fi,
       nth_error factors i = Some fi -> units s fi = 0 ->
       nth_error rewards i = Some (Dec.Fin false 0 0)).
Proof.
  intros Hs Hf Hp HT HB.
  destruct (distribute_core s factors pool Hs Hf Hp HT HB) as [rs [E F]].
  exists rs. split; [exact E|].
  pose proof (units_amount_nonneg 10 pool ltac:(lia) Hp) as HP.
  split.
  - intros i j fi fj Hi Hj L.
    destruct (Forall2_nth_error _ _ _ i fi F Hi) as [ri [Ri [_ [_ Ui]]]].
    destruct (Forall2_nth_error _ _ _ j fj F Hj) as [rj [Rj [_ [_ Uj]]]].
    exists ri, rj. split; [exact Ri|]. split; [exact Rj|].
    rewrite Ui, Uj. unfold share_units.
    apply Z.div_le_mono; [lia|]. apply Z.mul_le_mono_nonneg_l; assumption.
  - intros i fi Hi Z0.
    destruct (Forall2_nth_error _ _ _ i fi F Hi) as [ri [Ri [Ai [Ci Ui]]]].
    rewrite Ri. f_equal.
    apply canonical_unique; try assumption.
    + cbn. lia.
    + right. split; reflexivity.
    + rewrite Ui. unfold share_units. rewrite Z0, Z.mul_0_r.
      cbn [units]. rewrite Z.mul_0_l. apply Z.div_0_l. lia.
Qed.

Lemma distribute_monotone_witness :
  exists rewards,
    Scorer1.__distribute [dec (Int 0); dec (Int 1); dec (Int 2)] (dec (Int 100))
    = Ok rewards /\
    nth_error rewards 0 = Some (Dec.Fin false 0 0).
Proof.
  destruct (distribute_monotone 0 [dec (Int 0); dec (Int 1); dec (Int 2)]
              (dec (Int 100)))
    as [rs [E [_ Z0]]].
  - lia.
  - repeat constructor; cbn; lia.
  - cbn; lia.
  - vm_compute. split; reflexivity.
  - vm_compute. reflexivity.
  - exists rs. split; [exact E|]. apply (Z0 0%nat (dec (Int 0))); reflexivity.
Defined.

Lemma Forall2_eq_of {A B : Type} (P Q : A -> B -> Prop) (R : A -> A -> Prop)
  (l l' : list A) (rs rs' : list B) :
  Forall2 R l l' -> Forall2 P l rs -> Forall2 Q l' rs' ->
  (forall a a' b b', R a a' -> P a b -> Q a' b' -> b = b') ->
  rs = rs'.
Proof.
  intros HR. revert rs rs'.
  induction HR as [|a a' l l' Ha _ IH]; intros rs rs' HP HQ K.
  - inversion HP. inversion HQ. reflexivity.
  - inversion HP as [|? b ? bs Pb Pbs]; subst.
    inversion HQ as [|? b' ? bs' Qb Qbs]; subst.
    f_equal; [exact (K _ _ _ _ Ha Pb Qb) | exact (IH _ _ Pbs Qbs K)].
Qed.

Lemma total_units_scaled (s s' k : Z) (l l' : list decimal) :
  Forall2 (fun f f' => units s' f' = k * units s f) l l' ->
  total_units s' l' = k * total_units s l.
Proof.
  intros H. induction H as [|f f' l l' E _ IH].
  - cbn. lia.
  - cbn [total_units fold_right]. fold (total_units s l).
    fold (total_units s' l'). rewrite E, IH. ring.
Qed.

(** X12: the rewards depend on the proportions of the factors only:
    two lists of factors, each inside the exact range of the distribution,
    whose values differ by a common positive factor [k] (in particular
    two lists of equal values written with different exponents) receive
    the same rewards, the same decimals digit for digit. *)
Theorem distribute_proportional
  (s s' k : Z) (factors factors' : list decimal) (pool : decimal) :
  0 <= s <= 100 -> 0 <= s' <= 100 -> 0 < k ->
  Forall (amount s) factors -> Forall (amount s') factors' ->
  amount 10 pool ->
  Forall2 (fun f f' => units s' f' = k * units s f) factors factors' ->
  0 < total_units s factors < 10 ^ 28 ->
  total_units s' factors' < 10 ^ 28 ->
  units 10 pool * total_units s factors < 10 ^ 27 ->
  units 10 pool * total_units s' factors' < 10 ^ 27 ->
  exists rewards,
    Scorer1.__distribute factors pool = Ok rewards /\
    Scorer1.__distribute factors' pool = Ok rewards.
Proof.
  intros Hs Hs' Hk Hf Hf' Hp HK HT HT' HB HB'.
  pose proof (total_units_scaled s s' k factors factors' HK) as TK.
  assert (HT'' : 0 < total_units s' factors' < 10 ^ 28).
  { split; [|exact HT']. rewrite TK. apply Z.mul_pos_pos; lia. }
  destruct (distribute_core s factors pool Hs Hf Hp HT HB) as [rs [E F]].
  destruct (distribute_core s' factors' pool Hs' Hf' Hp HT'' HB')
    as [rs' [E' F']].
  exists rs. split; [exact E|]. rewrite E'. f_equal. symmetry.
  apply (Forall2_eq_of _ _ _ _ _ _ _ HK F F').
  intros f f' r r' Ek [A [C U]] [A' [C' U']].
  apply canonical_unique; try assumption.
  rewrite U, U'. unfold share_units. rewrite TK, Ek.
  replace (units 10 pool * (k * units s f))
    with (k * (units 10 pool * units s f)) by ring.
  symmetry. apply Z.div_mul_cancel_l; lia.
Qed.

Lemma distribute_proportional_witness :
  exists rewards,
    Scorer1.__distribute [dec (Int 1); dec (Int 2)] (dec (Int 100))
    = Ok rewards /\
    Scorer1.__distribute [Dec.Fin false 50 (-1); Dec.Fin false 1 1]
                         (dec (Int 100)) = Ok rewards.
Proof.
  apply (distribute_proportional 0 1 50); try lia.
  - repeat constructor; cbn; lia.
  - repeat constructor; cbn; lia.
  - cbn; lia.
  - repeat constructor.
  - vm_compute. split; reflexivity.
  - vm_compute. reflexivity.
  - vm_compute. reflexivity.
  - vm_compute. reflexivity.
Defined.

(** ** Competition rewards against their specification *)









(** ** From binary64 to decimal and back *)

(** Rounding a value that binary64 holds returns its canonical form. *)
Lemma binary_round_aux_exact (s : bool) (q e0 : Z) (m : positive) (e : Z) :
  e0 <= e -> q = Z.pos m * 2 ^ (e - e0) ->
  fexp64 (Zdigits2 (Z.pos m) + e) = e -> e <= 971 ->
  binary_round_aux 53 1024 s q e0 loc_Exact = S754_finite s m e.
Proof.
  intros He Hq Hc Hm.
  pose proof (pow2_pos (e - e0) ltac:(lia)) as P.
  assert (Q0 : 0 <= q) by (rewrite Hq; apply Z.mul_nonneg_nonneg; lia).
  assert (D : Zdigits2 q + e0 = Zdigits2 (Z.pos m) + e).
  { rewrite Hq, Zdigits2_shift by lia. lia. }
  unfold binary_round_aux.
  destruct (shr_fexp_step q e0 loc_Exact Q0) as (mrs & e1 & E & He1 & Hm1 & _ & Hl).
  rewrite E. rewrite D, Hc in He1.
  assert (E1 : e1 = e) by lia. clear He1. subst e1.
  assert (M1 : shr_m mrs = Z.pos m).
  { rewrite Hm1, Hq. apply Z.div_mul. lia. }
  rewrite Hl; [|reflexivity|].
  2:{ rewrite Hq. exists (Z.pos m). reflexivity. }
  cbn [round_nearest_even]. rewrite M1.
  destruct (shr_fexp_step (Z.pos m) e loc_Exact ltac:(lia))
    as (mrs2 & e2 & E2 & He2 & Hm2 & _ & _).
  rewrite E2. rewrite Hc in He2.
  assert (E2' : e2 = e) by lia. clear He2. subst e2.
  rewrite Hm2, Z.sub_diag. change (2 ^ 0) with 1. rewrite Z.div_1_r.
  destruct (Z.leb_spec e (1024 - 53)); [reflexivity | lia].
Qed.

Lemma valid_finite (s : bool) (m : positive) (e : Z) :
  F64.valid (S754_finite s m e) = true ->
  fexp64 (Zdigits2 (Z.pos m) + e) = e /\ e <= 971.
Proof.
  unfold F64.valid, valid_binary, bounded, canonical_mantissa.
  rewrite fexp_64. intros H. apply andb_true_iff in H. destruct H as [A B].
  apply Z.eqb_eq in A. apply Z.leb_le in B.
  change (Z.pos (digits2_pos m)) with (Zdigits2 (Z.pos m)) in A.
  unfold F64.emax, F64.prec in B. split; [exact A | lia].
Qed.

(** An integer [C] with [C * 2^0 = m * 2^e] converts to the float
    [(m, e)]. *)
Lemma binary_normalize_exact (s : bool) (C : Z) (m : positive) (e : Z) :
  0 < C ->
  C * 2 ^ (0 - Z.min 0 e) = Z.pos m * 2 ^ (e - Z.min 0 e) ->
  fexp64 (Zdigits2 (Z.pos m) + e) = e -> e <= 971 ->
  binary_normalize 53 1024 (if s then - C else C) 0 false
  = S754_finite s m e.
Proof.
  intros HC HV Hc Hm.
  destruct C as [|p|p]; try lia.
  assert (B : binary_round 53 1024 s p 0 = S754_finite s m e).
  { unfold binary_round.
    pose proof (shl_align_spec p 0 (fexp 53 1024 (Z.pos (digits2_pos p) + 0)))
      as A.
    destruct (shl_align p 0 _) as [mz ez]. destruct A as [Hez Hmz].
    rewrite fexp_64 in Hez.
    change (Z.pos (digits2_pos p)) with (Zdigits2 (Z.pos p)) in Hez.
    pose proof (pow2_pos (0 - Z.min 0 e) ltac:(lia)) as P1.
    pose proof (pow2_pos (e - Z.min 0 e) ltac:(lia)) as P2.
    assert (D : Zdigits2 (Z.pos p) + 0 = Zdigits2 (Z.pos m) + e).
    { pose proof (Zdigits2_shift (Z.pos p) (0 - Z.min 0 e) ltac:(lia)
                    ltac:(lia)) as X.
      pose proof (Zdigits2_shift (Z.pos m) (e - Z.min 0 e) ltac:(lia)
                    ltac:(lia)) as Y.
      rewrite HV in X. lia. }
    rewrite D, Hc in Hez.
    apply (binary_round_aux_exact s (Z.pos mz) ez m e); try lia.
    rewrite Hmz, Hez. exact HV. }
  destruct s; cbn [binary_normalize Z.opp]; exact B.
Qed.

Lemma ctz_nonneg (m : positive) : 0 <= Dec.ctz m.
Proof. induction m; cbn [Dec.ctz]; lia. Qed.

Lemma ctz_divide (m : positive) : (2 ^ Dec.ctz m | Z.pos m).
Proof.
  induction m as [p IH|p IH|]; cbn [Dec.ctz]; try apply Z.divide_1_l.
  pose proof (ctz_nonneg p) as N.
  rewrite Z.pow_add_r by lia. change (2 ^ 1) with 2.
  change (Z.pos p~0) with (2 * Z.pos p).
  apply Z.mul_divide_mono_l. exact IH.
Qed.

Lemma ctz_split (m : positive) (z : Z) :
  0 <= z <= Dec.ctz m -> Z.pos m = Z.pos m / 2 ^ z * 2 ^ z.
Proof.
  intros H.
  assert (D : (2 ^ z | Z.pos m)).
  { apply Z.divide_trans with (2 ^ Dec.ctz m); [|apply ctz_divide].
    apply pow2_divide. lia. }
  destruct D as [x Hx]. rewrite Hx at 2.
  rewrite Z.div_mul; [exact Hx|]. pose proof (pow2_pos z ltac:(lia)). lia.
Qed.

Lemma Zdigits2_mul_le (a b : Z) :
  0 < a -> 0 < b -> Zdigits2 (a * b) <= Zdigits2 a + Zdigits2 b.
Proof.
  intros Ha Hb.
  pose proof (Zdigits2_bounds a Ha) as [_ Ua].
  pose proof (Zdigits2_bounds b Hb) as [_ Ub].
  pose proof (Zdigits2_pos a Ha) as Pa. pose proof (Zdigits2_pos b Hb) as Pb.
  assert (P : 0 < a * b) by (apply Z.mul_pos_pos; assumption).
  pose proof (Zdigits2_bounds (a * b) P) as [L _].
  assert (U : a * b < 2 ^ (Zdigits2 a + Zdigits2 b)).
  { rewrite Z.pow_add_r by lia.
    apply Z.mul_lt_mono_nonneg; lia. }
  destruct (Z_le_gt_dec (Zdigits2 (a * b)) (Zdigits2 a + Zdigits2 b)) as [X|X];
    [exact X|].
  assert (2 ^ (Zdigits2 a + Zdigits2 b) <= 2 ^ (Zdigits2 (a * b) - 1))
    by (apply Z.pow_le_mono_r; lia).
  lia.
Qed.

Lemma pow5_pos (k : Z) : 0 <= k -> 0 < 5 ^ k.
Proof. intros H. apply Z.pow_pos_nonneg; lia. Qed.

Lemma pow10_5_2 (k : Z) : 10 ^ k = 5 ^ k * 2 ^ k.
Proof. change 10 with (5 * 2). apply Z.pow_mul_l. Qed.

Lemma div_eucl_exact (q b : Z) : 0 < b -> Z.div_eucl (q * b) b = (q, 0).
Proof.
  intros H. pose proof (Z.div_mul q b ltac:(lia)) as D.
  pose proof (Z.mod_mul q b ltac:(lia)) as M.
  unfold Z.div, Z.modulo in D, M.
  destruct (Z.div_eucl (q * b) b) as [x y]. cbn [fst snd] in *. congruence.
Qed.

(** The decimal of a finite float with a negative exponent that is not an
    integer converts back to the float. *)
Lemma to_float_fraction (s : bool) (m : positive) (e : Z) (m0 k : Z) :
  fexp64 (Zdigits2 (Z.pos m) + e) = e -> e <= 971 ->
  0 < k -> k <= - e -> 0 < m0 -> Z.pos m = m0 * 2 ^ (- e - k) ->
  Dec.to_float (Dec.Fin s (m0 * 5 ^ k) (- k)) = S754_finite s m e.
Proof.
  intros Hc Hm Hk Hke H0 Hs.
  pose proof (pow5_pos k ltac:(lia)) as P5.
  pose proof (pow2_pos k ltac:(lia)) as P2.
  pose proof (pow2_pos (- e - k) ltac:(lia)) as Pz.
  assert (C0 : 0 < m0 * 5 ^ k) by (apply Z.mul_pos_pos; assumption).
  assert (T0 : 0 < 10 ^ k) by (apply pow10_pos; lia).
  unfold Dec.to_float.
  destruct (Z.leb_spec (m0 * 5 ^ k) 0) as [X|_]; [lia|].
  destruct (Z.leb_spec 0 (- k)) as [X|_]; [lia|].
  replace (- - k) with k by lia.
  unfold SFdiv_core_binary. rewrite fexp_64.
  set (d1 := Zdigits2 (m0 * 5 ^ k)). set (d2 := Zdigits2 (10 ^ k)).
  assert (D : d1 - d2 <= Zdigits2 (Z.pos m) + e).
  { unfold d1, d2. rewrite pow10_5_2, Zdigits2_shift by lia.
    rewrite Hs, Zdigits2_shift by lia.
    pose proof (Zdigits2_mul_le m0 (5 ^ k) H0 P5). lia. }
  replace (d1 + 0 - (d2 + 0)) with (d1 - d2) by lia.
  replace (0 - 0) with 0 by reflexivity.
  set (e' := Z.min (fexp64 (d1 - d2)) 0).
  assert (He' : e' <= e).
  { pose proof (fexp64_mono _ _ D) as X. rewrite Hc in X. unfold e'. lia. }
  assert (S' : exists p, 0 - e' = Z.pos p).
  { destruct (0 - e') as [|p|p] eqn:X; try lia. exists p. reflexivity. }
  destruct S' as [p Sp]. rewrite Sp.
  rewrite Z.shiftl_mul_pow2 by lia. rewrite <- Sp.
  assert (Q : m0 * 5 ^ k * 2 ^ (0 - e') = m0 * 2 ^ (- e' - k) * 10 ^ k).
  { rewrite pow10_5_2.
    replace (0 - e') with ((- e' - k) + k) by lia.
    rewrite Z.pow_add_r by lia. ring. }
  rewrite Q, (div_eucl_exact _ (10 ^ k) T0), new_location_exact.
  apply binary_round_aux_exact; try assumption.
  rewrite Hs, <- Z.mul_assoc, <- Z.pow_add_r by lia.
  f_equal. f_equal. lia.
Qed.

(** [float(dec(x))] is [x] for every binary64 number. *)
Lemma to_float_of_float (x : f64) :
  F64.valid x = true -> Dec.to_float (dec (Float x)) = x.
Proof.
  intros V. destruct x as [s|s| |s m e]; try reflexivity.
  destruct (valid_finite s m e V) as [Hc Hm].
  cbn [dec Dec.of_float].
  destruct (Z.leb_spec 0 e) as [P|N].
  - assert (C0 : 0 < Z.pos m * 2 ^ e).
    { apply Z.mul_pos_pos; [lia | apply pow2_pos; lia]. }
    unfold Dec.to_float.
    destruct (Z.leb_spec (Z.pos m * 2 ^ e) 0) as [X|_]; [lia|].
    cbn [Z.leb Z.compare]. change (10 ^ 0) with 1. rewrite Z.mul_1_r.
    apply binary_normalize_exact; try assumption.
    rewrite Z.min_l by lia. rewrite !Z.sub_0_r. change (2 ^ 0) with 1. lia.
  - pose proof (ctz_nonneg m) as Cz.
    set (z := Z.min (Dec.ctz m) (- e)).
    pose proof (ctz_split m z ltac:(unfold z; lia)) as Sp.
    pose proof (pow2_pos z ltac:(unfold z; lia)) as Pz.
    set (m0 := Z.pos m / 2 ^ z) in *.
    assert (H0 : 0 < m0).
    { destruct (Z_lt_le_dec 0 m0) as [X|X]; [exact X|].
      assert (m0 * 2 ^ z <= 0) by (apply Z.mul_nonpos_nonneg; lia). lia. }
    destruct (Z.eq_dec (- e - z) 0) as [K0|K1].
    + rewrite K0. change (5 ^ 0) with 1. rewrite Z.mul_1_r.
      unfold Dec.to_float.
      destruct (Z.leb_spec m0 0) as [X|_]; [lia|].
      cbn [Z.opp Z.leb Z.compare]. change (10 ^ 0) with 1. rewrite Z.mul_1_r.
      apply binary_normalize_exact; try assumption.
      rewrite Z.min_r by lia. rewrite Z.sub_diag. change (2 ^ 0) with 1.
      rewrite Z.mul_1_r, Sp. f_equal. f_equal. lia.
    + apply to_float_fraction; try assumption; try (unfold z in *; lia).
      rewrite Sp. f_equal. f_equal. lia.
Qed.

(** X13: a decimal that was made from a binary64 number converts back to
    that number, NaN and the infinities included; so the challenge error
    of predictions and asset values that started as floats is the error
    measure applied to those very floats. *)
Theorem challenge_error_of_floats
  (mse : list f64 -> list f64 -> result f64) (xs ys : list f64) :
  Forall (fun x => F64.valid x = true) xs ->
  Forall (fun y => F64.valid y = true) ys ->
  map Dec.to_float (map (fun x => dec (Float x)) xs) = xs /\
  Scorer1.compute_challenge_error mse (map (fun x => dec (Float x)) xs)
                                  (map (fun y => dec (Float y)) ys)
  = mse xs ys.
Proof.
  assert (R : forall l, Forall (fun x => F64.valid x = true) l ->
              map Dec.to_float (map (fun x => dec (Float x)) l) = l).
  { intros l H. induction H as [|x l Hx _ IH]; [reflexivity|].
    cbn [map]. rewrite IH, (to_float_of_float x Hx). reflexivity. }
  intros Hx Hy. split; [exact (R xs Hx)|].
  unfold Scorer1.compute_challenge_error. rewrite (R xs Hx), (R ys Hy).
  reflexivity.
Qed.

Lemma challenge_error_of_floats_witness :
  map Dec.to_float (map (fun x => dec (Float x)) [F64.tenth; F64.one])
  = [F64.tenth; F64.one] /\
  Scorer1.compute_challenge_error (fun _ _ => Ok F64.zero)
    (map (fun x => dec (Float x)) [F64.tenth; F64.one])
    (map (fun y => dec (Float y)) [F64.one; F64.tenth])
  = Ok F64.zero.
Proof.
  apply (challenge_error_of_floats (fun _ _ => Ok F64.zero));
    repeat constructor.
Defined.

(** ** Exact float arithmetic on small integers *)

(** [C * 2^e0] converts to the float [(m, e)] that holds this value. *)
Lemma binary_normalize_value (s : bool) (C e0 : Z) (m : positive) (e : Z) :
  0 < C ->
  C * 2 ^ (e0 - Z.min e0 e) = Z.pos m * 2 ^ (e - Z.min e0 e) ->
  fexp64 (Zdigits2 (Z.pos m) + e) = e -> e <= 971 ->
  binary_normalize 53 1024 (if s then - C else C) e0 false
  = S754_finite s m e.
Proof.
  intros HC HV Hc Hm.
  destruct C as [|p|p]; try lia.
  assert (B : binary_round 53 1024 s p e0 = S754_finite s m e).
  { unfold binary_round.
    pose proof (shl_align_spec p e0 (fexp 53 1024 (Z.pos (digits2_pos p) + e0)))
      as A.
    destruct (shl_align p e0 _) as [mz ez]. destruct A as [Hez Hmz].
    rewrite fexp_64 in Hez.
    change (Z.pos (digits2_pos p)) with (Zdigits2 (Z.pos p)) in Hez.
    pose proof (pow2_pos (e0 - Z.min e0 e) ltac:(lia)) as P1.
    pose proof (pow2_pos (e - Z.min e0 e) ltac:(lia)) as P2.
    assert (D : Zdigits2 (Z.pos p) + e0 = Zdigits2 (Z.pos m) + e).
    { pose proof (Zdigits2_shift (Z.pos p) (e0 - Z.min e0 e) ltac:(lia)
                    ltac:(lia)) as X.
      pose proof (Zdigits2_shift (Z.pos m) (e - Z.min e0 e) ltac:(lia)
                    ltac:(lia)) as Y.
      rewrite HV in X. lia. }
    rewrite D, Hc in Hez.
    apply (binary_round_aux_exact s (Z.pos mz) ez m e); try lia.
    rewrite Hmz, Hez. exact HV. }
  destruct s; cbn [binary_normalize Z.opp]; exact B.
Qed.

(** The float of a positive integer below [2^53] holds it exactly, in
    canonical form. *)
Lemma of_Z_canonical (k : Z) :
  0 < k < 2 ^ 53 ->
  exists m e,
    F64.of_Z k = S754_finite false m e /\
    -52 <= e <= 0 /\ Z.pos m = k * 2 ^ (- e) /\
    fexp64 (Zdigits2 (Z.pos m) + e) = e.
Proof.
  intros Hk. destruct k as [|M|M]; try lia.
  pose proof (Zdigits2_le_53 (Z.pos M) Hk) as D53.
  pose proof (Zdigits2_pos (Z.pos M) ltac:(lia)) as Dp.
  assert (F : fexp64 (Zdigits2 (Z.pos M) + 0) = Zdigits2 (Z.pos M) - 53).
  { unfold fexp64. lia. }
  destruct (binary_round_small false M 0) as [mz [E Hmz]].
  { rewrite F. lia. }
  { rewrite F. lia. }
  rewrite F in E, Hmz.
  exists mz, (Zdigits2 (Z.pos M) - 53).
  split; [exact E|]. split; [lia|]. split.
  - rewrite Hmz.
    replace (0 - (Zdigits2 (Z.pos M) - 53)) with (- (Zdigits2 (Z.pos M) - 53))
      by lia.
    reflexivity.
  - rewrite Hmz, Zdigits2_shift by lia. unfold fexp64. lia.
Qed.

Lemma sub_of_Z (a b : Z) :
  0 < b -> b < a -> a < 2 ^ 53 ->
  F64.sub (F64.of_Z a) (F64.of_Z b) = F64.of_Z (a - b).
Proof.
  intros Hb Hab Ha.
  destruct (of_Z_canonical a ltac:(lia)) as (ma & ea & Ea & Ra & Va & Ca).
  destruct (of_Z_canonical b ltac:(lia)) as (mb & eb & Eb & Rb & Vb & Cb).
  destruct (of_Z_canonical (a - b) ltac:(lia)) as (mc & ec & Ec & Rc & Vc & Cc).
  rewrite Ea, Eb, Ec. unfold F64.sub, SFsub.
  set (ez := Z.min ea eb).
  pose proof (shl_align_spec ma ea ez) as A.
  destruct (shl_align ma ea ez) as [ma' ea']. destruct A as [Hea' Ha'].
  pose proof (shl_align_spec mb eb ez) as B.
  destruct (shl_align mb eb ez) as [mb' eb']. destruct B as [Heb' Hb'].
  cbn [fst cond_Zopp].
  assert (Ea' : ea' = ez) by (unfold ez in *; lia).
  assert (Eb' : eb' = ez) by (unfold ez in *; lia).
  rewrite Ea' in Ha'. rewrite Eb' in Hb'. clear Hea' Heb' Ea' Eb'.
  pose proof (pow2_pos (- ez) ltac:(unfold ez; lia)) as Pz.
  assert (Hz : -52 <= ez <= 0) by (unfold ez; lia).
  assert (Za : ea - ez >= 0 /\ eb - ez >= 0) by (unfold ez; lia).
  clearbody ez.
  assert (Xa : Z.pos ma' = a * 2 ^ (- ez)).
  { rewrite Ha', Va.
    replace (- ez) with (- ea + (ea - ez)) by lia.
    rewrite Z.pow_add_r by lia. ring. }
  assert (Xb : Z.pos mb' = b * 2 ^ (- ez)).
  { rewrite Hb', Vb.
    replace (- ez) with (- eb + (eb - ez)) by lia.
    rewrite Z.pow_add_r by lia. ring. }
  rewrite Xa, Xb, <- Z.mul_sub_distr_r.
  apply (binary_normalize_value false); try assumption; try lia.
  - apply Z.mul_pos_pos; lia.
  - rewrite Vc.
    set (mu := Z.min ez ec).
    assert (Hmu : mu <= ez /\ mu <= ec /\ -52 <= mu) by (unfold mu; lia).
    clearbody mu.
    rewrite <- !Z.mul_assoc, <- !Z.pow_add_r by lia.
    f_equal. f_equal. lia.
Qed.

Lemma sub_self_of_Z (a : Z) :
  0 < a < 2 ^ 53 -> F64.sub (F64.of_Z a) (F64.of_Z a) = F64.zero.
Proof.
  intros Ha.
  destruct (of_Z_canonical a Ha) as (ma & ea & Ea & _).
  rewrite Ea. unfold F64.sub, SFsub. cbn [cond_Zopp].
  rewrite Z.sub_diag. reflexivity.
Qed.

Lemma of_scaled_double (n : Z) :
  0 < n < 2 ^ 53 -> F64.of_scaled (2 * n) (-1) = F64.of_Z n.
Proof.
  intros Hn.
  destruct (of_Z_canonical n Hn) as (m & e & E & R & V & C).
  rewrite E. unfold F64.of_scaled.
  apply (binary_normalize_value false); try assumption; try lia.
  rewrite V. destruct (Z.eq_dec e 0) as [->|N].
  - change (Z.min (-1) 0) with (-1). change (-1 - -1) with 0.
    change (0 - -1) with 1. change (- 0) with 0.
    change (2 ^ 0) with 1. change (2 ^ 1) with 2. lia.
  - rewrite Z.min_r by lia. rewrite Z.sub_diag. change (2 ^ 0) with 1.
    replace (- e) with (1 + (-1 - e)) by lia.
    rewrite Z.pow_add_r by lia. change (2 ^ 1) with 2. lia.
Qed.

Lemma div_self (s : bool) (m : positive) (e : Z) :
  F64.div (S754_finite s m e) (S754_finite s m e) = F64.one.
Proof.
  unfold F64.div, SFdiv, SFdiv_core_binary. rewrite fexp_64.
  replace (Zdigits2 (Z.pos m) + e - (Zdigits2 (Z.pos m) + e)) with 0 by lia.
  rewrite Z.sub_diag. change (Z.min (fexp64 0) 0) with (-53).
  change (0 - -53) with 53.
  rewrite Z.shiftl_mul_pow2 by lia.
  rewrite (Z.mul_comm (Z.pos m)), (div_eucl_exact (2 ^ 53) (Z.pos m)) by lia.
  rewrite new_location_exact, one_eq.
  replace (xorb s s) with false by (destruct s; reflexivity).
  apply binary_round_aux_exact; try lia; reflexivity.
Qed.

Lemma div_zero_of_Z (k : Z) :
  0 < k < 2 ^ 53 -> F64.div F64.zero (F64.of_Z k) = F64.zero.
Proof.
  intros Hk. destruct (of_Z_canonical k Hk) as (m & e & E & _).
  rewrite E. reflexivity.
Qed.

(** ** The best and the worst participant *)

Lemma SFcompare_antisym (x y : f64) :
  SFcompare y x = option_map CompOpp (SFcompare x y).
Proof.
  destruct x as [s1|s1| |s1 m1 e1], y as [s2|s2| |s2 m2 e2];
    cbn [SFcompare option_map];
    try reflexivity;
    try (destruct s1; reflexivity); try (destruct s2; reflexivity);
    try (destruct s1, s2; reflexivity).
  rewrite (Z.compare_antisym e1 e2).
  rewrite !Pos.compare_cont_spec. cbn [Pos.switch_Eq].
  rewrite (Pos.compare_antisym m1 m2).
  destruct s1, s2; try reflexivity;
    destruct (Z.compare e1 e2); cbn [CompOpp]; try reflexivity;
    destruct (Pos.compare m1 m2); reflexivity.
Qed.

Lemma ltb_asym (x y : f64) : F64.ltb x y = true -> F64.ltb y x = false.
Proof.
  unfold F64.ltb, SFltb. rewrite (SFcompare_antisym x y).
  destruct (SFcompare x y) as [[| |]|]; cbn; intros H;
    try discriminate; reflexivity.
Qed.

Lemma ltb_not_eqb_sym (x y : f64) : F64.ltb x y = true -> F64.eqb y x = false.
Proof.
  unfold F64.ltb, F64.eqb, SFltb, SFeqb. rewrite (SFcompare_antisym x y).
  destruct (SFcompare x y) as [[| |]|]; cbn; intros H;
    try discriminate; reflexivity.
Qed.

Lemma ltb_irrefl_finite (x : f64) :
  F64.is_finite x = true -> F64.ltb x x = false.
Proof.
  intros H. destruct (F64.ltb x x) eqn:L; [|reflexivity].
  pose proof (ltb_not_eqb x x L) as E.
  rewrite (eqb_refl_finite x H) in E. discriminate.
Qed.

Lemma count_if_app {A : Type} (p : A -> bool) (l1 l2 : list A) :
  count_if p (l1 ++ l2) = count_if p l1 + count_if p l2.
Proof.
  unfold count_if. rewrite filter_app, length_app. lia.
Qed.

Lemma count_if_all {A : Type} (p : A -> bool) (l : list A) :
  (forall x, In x l -> p x = true) -> count_if p l = Z.of_nat (length l).
Proof.
  intros H. induction l as [|a l IH]; [reflexivity|].
  rewrite count_if_cons, (H a (or_introl eq_refl)), IH.
  - cbn [length]. lia.
  - intros x Hx. apply H. right. exact Hx.
Qed.

Lemma unmasked_split (pre post : list f64) (x : f64) :
  F64.is_finite x = true ->
  unmasked (pre ++ x :: post) = unmasked pre ++ x :: unmasked post.
Proof.
  intros H. unfold unmasked. rewrite filter_app. cbn [filter]. rewrite H.
  reflexivity.
Qed.

Lemma in_unmasked (l : list f64) (y : f64) :
  In y (unmasked l) -> In y l /\ F64.is_finite y = true.
Proof. unfold unmasked. apply filter_In. Qed.

(** The rank of an entry that lies strictly below every other ranked
    entry is 1. *)
Lemma rank2_least (pre post : list f64) (x : f64) :
  F64.is_finite x = true ->
  (forall y, In y (pre ++ post) -> F64.is_finite y = true ->
             F64.ltb x y = true) ->
  rank2 (pre ++ x :: post) x = 2.
Proof.
  intros Hx H. unfold rank2. rewrite (unmasked_split pre post x Hx).
  rewrite !count_if_app, !count_if_cons.
  rewrite (ltb_irrefl_finite x Hx), (eqb_refl_finite x Hx).
  assert (Z0 : forall l, (forall y, In y l -> In y (pre ++ post)) ->
               count_if (fun y => F64.ltb y x) (unmasked l) = 0 /\
               count_if (fun y => F64.eqb y x) (unmasked l) = 0).
  { intros l Hl. split; apply count_if_zero; intros y Hy;
      apply in_unmasked in Hy; destruct Hy as [Hy Fy];
      pose proof (H y (Hl y Hy) Fy) as L.
    - exact (ltb_asym x y L).
    - exact (ltb_not_eqb_sym x y L). }
  destruct (Z0 pre) as [-> ->].
  { intros y Hy. apply in_or_app. left. exact Hy. }
  destruct (Z0 post) as [-> ->].
  { intros y Hy. apply in_or_app. right. exact Hy. }
  reflexivity.
Qed.

(** The rank of an entry that lies strictly above every other ranked
    entry is the number of ranked entries. *)
Lemma rank2_greatest (pre post : list f64) (x : f64) :
  F64.is_finite x = true ->
  (forall y, In y (pre ++ post) -> F64.is_finite y = true ->
             F64.ltb y x = true) ->
  rank2 (pre ++ x :: post) x
  = 2 * Z.of_nat (length (unmasked (pre ++ x :: post))).
Proof.
  intros Hx H. unfold rank2. rewrite (unmasked_split pre post x Hx).
  rewrite !count_if_app, !count_if_cons, length_app.
  rewrite (ltb_irrefl_finite x Hx), (eqb_refl_finite x Hx).
  assert (Z0 : forall l, (forall y, In y l -> In y (pre ++ post)) ->
               count_if (fun y => F64.ltb y x) (unmasked l)
               = Z.of_nat (length (unmasked l)) /\
               count_if (fun y => F64.eqb y x) (unmasked l) = 0).
  { intros l Hl. split; [apply count_if_all | apply count_if_zero];
      intros y Hy; apply in_unmasked in Hy; destruct Hy as [Hy Fy];
      pose proof (H y (Hl y Hy) Fy) as L.
    - exact L.
    - exact (ltb_not_eqb x y L). }
  destruct (Z0 pre) as [-> ->].
  { intros y Hy. apply in_or_app. left. exact Hy. }
  destruct (Z0 post) as [-> ->].
  { intros y Hy. apply in_or_app. right. exact Hy. }
  cbn [length]. lia.
Qed.

Lemma challenge_score_at (pre post : list f64) (x : f64) :
  count_defined (pre ++ x :: post) <> 0 ->
  F64.is_finite x = true ->
  nth_error (Scorer1.compute_challenge_scores (pre ++ x :: post)) (length pre)
  = Some (F64.div
            (F64.sub (F64.of_Z (count_defined (pre ++ x :: post)))
                     (avg_rank (pre ++ x :: post) x))
            (F64.of_Z (count_defined (pre ++ x :: post) - 1))).
Proof.
  intros Hn Hx. unfold Scorer1.compute_challenge_scores.
  destruct (Z.eqb_spec (count_defined (pre ++ x :: post)) 0) as [E|_];
    [contradiction|].
  rewrite ranks_of_spec, map_map, nth_error_map.
  rewrite nth_error_app2 by lia. rewrite Nat.sub_diag. cbn [nth_error option_map].
  rewrite Hx. reflexivity.
Qed.

(** X14: with at least two defined errors, a participant whose error is
    finite and strictly below every other finite error scores exactly
    1.0; and when no error is infinite, a participant whose error is
    strictly above every other finite error scores exactly 0.0. *)
Theorem challenge_score_extremes (pre post : list f64) (x : f64) :
  F64.is_finite x = true ->
  2 <= count_defined (pre ++ x :: post) < 2 ^ 53 ->
  ((forall y, In y (pre ++ post) -> F64.is_finite y = true ->
              F64.ltb x y = true) ->
   nth_error (Scorer1.compute_challenge_scores (pre ++ x :: post)) (length pre)
   = Some F64.one) /\
  ((forall y, In y (pre ++ post) ->
              F64.is_nan y = true \/
              (F64.is_finite y = true /\ F64.ltb y x = true)) ->
   nth_error (Scorer1.compute_challenge_scores (pre ++ x :: post)) (length pre)
   = Some F64.zero).
Proof.
  intros Hx Hn. rewrite (challenge_score_at pre post x ltac:(lia) Hx).
  set (n := count_defined (pre ++ x :: post)) in *.
  split; intros H; f_equal.
  - unfold avg_rank. rewrite (rank2_least pre post x Hx H).
    change (F64.of_scaled 2 (-1)) with (F64.of_Z 1).
    rewrite (sub_of_Z n 1) by lia.
    destruct (of_Z_canonical (n - 1) ltac:(lia)) as (m & e & E & _).
    rewrite E. apply div_self.
  - assert (U : unmasked (pre ++ x :: post) = defined (pre ++ x :: post)).
    { apply defined_unmasked. intros y Hy.
      apply in_app_or in Hy. destruct Hy as [Hy|[<-|Hy]].
      - destruct (H y (in_or_app _ _ _ (or_introl Hy))) as [N|[F _]]; tauto.
      - right. exact Hx.
      - destruct (H y (in_or_app _ _ _ (or_intror Hy))) as [N|[F _]]; tauto. }
    unfold avg_rank. rewrite (rank2_greatest pre post x Hx).
    2:{ intros y Hy Fy. destruct (H y Hy) as [N|[_ L]]; [|exact L].
        destruct y; discriminate. }
    rewrite U, <- count_defined_length. fold n.
    rewrite (of_scaled_double n) by lia.
    rewrite (sub_self_of_Z n) by lia.
    apply div_zero_of_Z. lia.
Qed.

Lemma challenge_score_extremes_witness :
  nth_error (Scorer1.compute_challenge_scores
               ([F64.one] ++ F64.tenth :: [F64.nan; F64.one])) 1
  = Some F64.one.
Proof.
  apply (challenge_score_extremes [F64.one] [F64.nan; F64.one] F64.tenth).
  - reflexivity.
  - split; [vm_compute; discriminate | reflexivity].
  - intros y [<-|[<-|[<-|[]]]] F; try discriminate F; reflexivity.
Defined.
